(** * Repository layer and Unit of Work over a Prisma client

    A shallow embedding of [src/repositories/*.repository.ts] and of
    [src/database/unit-of-work.ts].  The repositories and the unit of work
    are thin wrappers around the Prisma client; the client itself is an
    external library, so its documented behaviour is given once, in the
    section "The Prisma client", as an in-memory store: tables of records,
    the query methods of a model delegate, interactive transactions
    ([$transaction(fn)]) and sequential ones ([$transaction([...])]) over a
    PostgreSQL database. *)

From Stdlib Require Import ZArith Bool List OrderedTypeEx.
From stdpp Require Import base gmap strings list.

Local Open Scope string_scope.
Local Open Scope Z_scope.
Local Open Scope list_scope.

(** ** Records and where-clauses *)

(** A scalar stored in a column.  Dates are milliseconds since the epoch. *)
Inductive Value : Type :=
| VNull
| VBool (b : bool)
| VNum (n : Z)
| VStr (s : string)
| VDate (ms : Z).

#[global] Instance Value_eq_dec : EqDecision Value.
Proof. solve_decision. Defined.

(** A row is a JS object: a finite map from column names to scalars.  A
    column without a binding reads as SQL NULL. *)
Abbreviation Record := (gmap string Value).
Abbreviation Table := (list (gmap string Value)).

Definition field (r : Record) (f : string) : Value := default VNull (r !! f).

(** The models whose delegates the repositories use
    ([prisma.user], [prisma.userRefreshToken], [prisma.academy],
    [prisma.plan]). *)
Inductive Kind : Type := user | userRefreshToken | academy | plan.

#[global] Instance Kind_eq_dec : EqDecision Kind.
Proof. solve_decision. Defined.

(** Field conditions of a Prisma [where] object. *)
Inductive Cond : Type :=
| equals (v : Value)            (* { f: v }            *)
| not_ (v : Value)              (* { f: { not: v } }   *)
| gt (v : Value)
| gte (v : Value)
| lt (v : Value)
| lte (v : Value).

#[local] Unset Elimination Schemes.
Inductive Where : Type :=
| WField (f : string) (c : Cond)
| WAnd (ws : list Where)        (* several keys in one object *)
| WOr (ws : list Where).        (* { OR: [...] }              *)
#[local] Set Elimination Schemes.

(** The order of text is the one of the database's collation, which the
    sources do not fix: a collation is given by the sort key it assigns to
    a string.  Strings with equal keys are told apart by their code units,
    as the deterministic collations of PostgreSQL do. *)
Class Collation : Type := { sort_key : string -> string }.

(** The collation [C]: a string is its own sort key. *)
Definition binary_collation : Collation := {| sort_key := fun s => s |}.

Inductive SortOrder : Type := asc | desc.

Section Comparisons.
Context `{Collation}.

Definition str_compare (a b : string) : comparison :=
  match String.compare (sort_key a) (sort_key b) with
  | Eq => String.compare a b
  | c => c
  end.

(** Ordering of scalars of one type; values of different types and NULL do
    not compare (the comparison is false, as in SQL). *)
Definition value_ltb (a b : Value) : bool :=
  match a, b with
  | VNum x, VNum y => (x <? y)%Z
  | VDate x, VDate y => (x <? y)%Z
  | VStr x, VStr y => bool_decide (str_compare x y = Lt)
  | VBool x, VBool y => negb x && y
  | _, _ => false
  end.

Definition value_eqb (a b : Value) : bool := bool_decide (a = b).

Definition value_leb (a b : Value) : bool :=
  match a, b with
  | VNull, _ | _, VNull => false
  | _, _ => value_ltb a b || value_eqb a b
  end.

(** [{ not: v }] is [<> v] in SQL, which no NULL column satisfies, and
    [{ not: null }] is [IS NOT NULL]. *)
Definition cond_holds (c : Cond) (x : Value) : bool :=
  match c with
  | equals v => value_eqb x v
  | not_ v => negb (value_eqb x VNull) && negb (value_eqb x v)
  | gt v => value_ltb v x
  | gte v => value_leb v x
  | lt v => value_ltb x v
  | lte v => value_leb x v
  end.

Fixpoint matches (w : Where) (r : Record) : bool :=
  match w with
  | WField f c => cond_holds c (field r f)
  | WAnd ws => forallb (fun w' => matches w' r) ws
  | WOr ws => existsb (fun w' => matches w' r) ws
  end.

(** [where?: any]: an omitted where-clause selects every row. *)
Definition matches_opt (w : option Where) (r : Record) : bool :=
  match w with
  | Some w' => matches w' r
  | None => true
  end.

(** ** Tables *)

Definition select (w : option Where) (t : Table) : Table :=
  List.filter (matches_opt w) t.

Definition find_first (w : Where) (t : Table) : option Record :=
  List.find (matches w) t.

(** [{ ...r, ...data }]: the columns named in [data] are overwritten, the
    other columns of [r] are kept. *)
Definition patch (data r : Record) : Record := data ∪ r.

Fixpoint patch_first (w : Where) (data : Record) (t : Table) : Table :=
  match t with
  | [] => []
  | r :: t' => if matches w r then patch data r :: t'
               else r :: patch_first w data t'
  end.

Definition patch_all (w : Where) (data : Record) (t : Table) : Table :=
  List.map (fun r => if matches w r then patch data r else r) t.

Fixpoint remove_first (w : Where) (t : Table) : Table :=
  match t with
  | [] => []
  | r :: t' => if matches w r then t' else r :: remove_first w t'
  end.

Definition remove_all (w : Where) (t : Table) : Table :=
  List.filter (fun r => negb (matches w r)) t.

(** [ORDER BY f ASC]: the values of a column in their order, NULL after
    every value; [DESC] is the reverse, NULL first.  A column holds values
    of one type; values of different types are kept apart by type. *)
Definition rank (v : Value) : Z :=
  match v with
  | VBool _ => 0
  | VNum _ => 1
  | VStr _ => 2
  | VDate _ => 3
  | VNull => 4
  end.

Definition sorts_le (a b : Value) : bool :=
  match a, b with
  | VBool x, VBool y => implb x y
  | VNum x, VNum y => (x <=? y)%Z
  | VStr x, VStr y => negb (bool_decide (str_compare x y = Gt))
  | VDate x, VDate y => (x <=? y)%Z
  | _, _ => (rank a <=? rank b)%Z
  end.

(** [a] may come before [b] in the order asked for. *)
Definition before (f : string) (o : SortOrder) (a b : Record) : bool :=
  match o with
  | asc => sorts_le (field a f) (field b f)
  | desc => sorts_le (field b f) (field a f)
  end.

(** Insertion sort; rows that tie stay in the order of the table. *)
Fixpoint insert_sorted (f : string) (o : SortOrder) (r : Record) (t : Table) : Table :=
  match t with
  | [] => [r]
  | x :: t' => if before f o r x then r :: x :: t'
               else x :: insert_sorted f o r t'
  end.

Definition order_by (ob : option (string * SortOrder)) (t : Table) : Table :=
  match ob with
  | None => t
  | Some (f, o) => List.fold_right (insert_sorted f o) [] t
  end.

Definition skip_rows (n : option nat) (t : Table) : Table :=
  match n with Some k => List.skipn k t | None => t end.

Definition take_rows (n : option nat) (t : Table) : Table :=
  match n with Some k => List.firstn k t | None => t end.

(** Rows in the order [orderBy] asks for: every row may come before the
    one that follows it. *)
Fixpoint ordered (f : string) (o : SortOrder) (t : Table) : bool :=
  match t with
  | a :: (b :: _) as t' => before f o a b && ordered f o t'
  | _ => true
  end.

(** No two neighbours tie: the order leaves no choice. *)
Fixpoint strictly_ordered (f : string) (o : SortOrder) (t : Table) : bool :=
  match t with
  | a :: (b :: _) as t' =>
      before f o a b && negb (before f o b a) && strictly_ordered f o t'
  | _ => true
  end.
End Comparisons.

(** ** The Prisma client *)

(** Errors a call can be rejected with, by the kinds the design names:
    the client's known request errors P2025 (record not found) and P2002
    (unique constraint failed); its transaction API error P2028, which is
    [Timeout] when a transaction could not start within [maxWait] or was
    closed by the engine for running past [timeout], and [InvalidScopeUse]
    when the transaction of the client used is closed or not the open one;
    the database's refusal of a command in a transaction a failed
    statement has aborted; and whatever the caller's own code throws. *)
Inductive Error : Type :=
| NotFound
| ConstraintViolation
| InvalidScopeUse
| Exception (msg : string)
| Timeout
| TransactionAborted.

#[global] Instance Error_eq_dec : EqDecision Error.
Proof. solve_decision. Defined.

(** A settled promise. *)
Inductive Settled (A : Type) : Type :=
| fulfilled (a : A)
| rejected (e : Error).
Arguments fulfilled {A} a.
Arguments rejected {A} e.

(** What a delegate method resolves to ([delegate] is typed [any] in the
    base repository, so the value is dynamically typed). *)
Inductive JsVal : Type :=
| JNull
| JRecord (r : Record)
| JArray (rs : Table)
| JNumber (n : Z)
| JBoolean (b : bool)
| JBatchPayload (count : Z).      (* { count } of updateMany / deleteMany *)

#[global] Instance JsVal_eq_dec : EqDecision JsVal.
Proof. solve_decision. Defined.

#[global] Instance Settled_eq_dec {A : Type} `{EqDecision A} : EqDecision (Settled A).
Proof. solve_decision. Defined.

Record FindManyArgs : Type := {
  fm_where : option Where;
  fm_skip : option nat;
  fm_take : option nat;
  fm_orderBy : option (string * SortOrder)
}.

(** The delegate methods the repositories call, with their arguments. *)
Inductive Query : Type :=
| FindUnique (w : Where)
| FindFirst (w : Where)
| FindMany (a : FindManyArgs)
| Create (data : Record)
| Update (w : Where) (data : Record)
| Delete (w : Where)
| Count (w : option Where) (take : option nat)
| UpdateMany (w : Where) (data : Record)
| DeleteMany (w : Where).

(** The write a successful query performs on its table. *)
Inductive Mutation : Type :=
| Insert (r : Record)
| PatchFirst (w : Where) (data : Record)
| PatchAll (w : Where) (data : Record)
| RemoveFirst (w : Where)
| RemoveAll (w : Where).

(** The schema file is not part of the sources.  The columns the code
    relies on being unique are the ones it hands to [findUnique]: [id] on
    every model and [email] on [user]. *)
Definition unique_fields (k : Kind) : list string :=
  match k with
  | user => ["id"; "email"]
  | _ => ["id"]
  end.

Definition null_or_record (o : option Record) : JsVal :=
  match o with
  | Some r => JRecord r
  | None => JNull
  end.

Definition size_of (t : Table) : Z := Z.of_nat (length t).

(** The order a [findMany] is answered in.  Without [orderBy] the client
    orders by the primary key when the call pages its result ([take], or a
    [skip] that is not 0); otherwise the rows come as the table has
    them. *)
Definition pages (a : FindManyArgs) : bool :=
  match fm_take a with
  | Some _ => true
  | None => match fm_skip a with
            | Some k => Nat.ltb 0 k
            | None => false
            end
  end.

Definition order_of (a : FindManyArgs) : option (string * SortOrder) :=
  match fm_orderBy a with
  | Some ob => Some ob
  | None => if pages a then Some ("id", asc) else None
  end.

Section Queries.
Context `{Collation}.

Definition apply_mutation (m : Mutation) (t : Table) : Table :=
  match m with
  | Insert r => t ++ [r]
  | PatchFirst w data => patch_first w data t
  | PatchAll w data => patch_all w data t
  | RemoveFirst w => remove_first w t
  | RemoveAll w => remove_all w t
  end.

(** [data] would give a unique column a non-null value some row of [t]
    already has. *)
Definition conflicts (k : Kind) (data : Record) (t : Table) : bool :=
  existsb
    (fun f => match data !! f with
              | Some v => negb (value_eqb v VNull)
                          && existsb (fun r => value_eqb (field r f) v) t
              | None => false
              end)
    (unique_fields k).

(** One query against one table: the value it resolves to and the write it
    performs, or the error it is rejected with.  [data] is the row as the
    client sends it, defaults filled in. *)
Definition run_query (k : Kind) (q : Query) (t : Table)
  : Settled (JsVal * option Mutation) :=
  match q with
  | FindUnique w | FindFirst w =>
      fulfilled (null_or_record (find_first w t), None)
  | FindMany a =>
      fulfilled (JArray (take_rows (fm_take a) (skip_rows (fm_skip a)
                   (order_by (order_of a) (select (fm_where a) t)))), None)
  | Create data =>
      if conflicts k data t then rejected ConstraintViolation
      else fulfilled (JRecord data, Some (Insert data))
  | Update w data =>
      match find_first w t with
      | None => rejected NotFound
      | Some r =>
          if conflicts k data (remove_first w t) then rejected ConstraintViolation
          else fulfilled (JRecord (patch data r), Some (PatchFirst w data))
      end
  | Delete w =>
      match find_first w t with
      | None => rejected NotFound
      | Some r => fulfilled (JRecord r, Some (RemoveFirst w))
      end
  | Count w n =>
      fulfilled (JNumber (size_of (take_rows n (select w t))), None)
  | UpdateMany w data =>
      fulfilled (JBatchPayload (size_of (select (Some w) t)), Some (PatchAll w data))
  | DeleteMany w =>
      fulfilled (JBatchPayload (size_of (select (Some w) t)), Some (RemoveAll w))
  end.
End Queries.

(** The database: one table per model. *)
Record DB : Type := {
  users : Table;
  refreshTokens : Table;
  academies : Table;
  plans : Table
}.

Definition db_get (k : Kind) (db : DB) : Table :=
  match k with
  | user => users db
  | userRefreshToken => refreshTokens db
  | academy => academies db
  | plan => plans db
  end.

Definition db_set (k : Kind) (t : Table) (db : DB) : DB :=
  match k with
  | user => {| users := t; refreshTokens := refreshTokens db;
               academies := academies db; plans := plans db |}
  | userRefreshToken => {| users := users db; refreshTokens := t;
               academies := academies db; plans := plans db |}
  | academy => {| users := users db; refreshTokens := refreshTokens db;
               academies := t; plans := plans db |}
  | plan => {| users := users db; refreshTokens := refreshTokens db;
               academies := academies db; plans := t |}
  end.

(** What a transaction has done to a row and not yet committed.  A write
    through a transaction changes the rows it matched when it ran; rows
    that come to match its filter later are not its business. *)
Inductive Change : Type :=
| Added (r : Record)
| Changed (old new : Record)
| Dropped (old : Record).

Fixpoint replace_row (old new : Record) (t : Table) : Table :=
  match t with
  | [] => []
  | r :: t' => if bool_decide (r = old) then new :: t'
               else r :: replace_row old new t'
  end.

Fixpoint drop_row (old : Record) (t : Table) : Table :=
  match t with
  | [] => []
  | r :: t' => if bool_decide (r = old) then t' else r :: drop_row old t'
  end.

Definition apply_change (c : Change) (t : Table) : Table :=
  match c with
  | Added r => t ++ [r]
  | Changed old new => replace_row old new t
  | Dropped old => drop_row old t
  end.

(** Writes made through a transaction and not yet committed, oldest first. *)
Abbreviation Pending := (list (Kind * Change)).

Definition db_change (k : Kind) (c : Change) (db : DB) : DB :=
  db_set k (apply_change c (db_get k db)) db.

(** What a transaction reads: the committed rows with its own writes on top. *)
Definition view (p : Pending) (db : DB) : DB :=
  List.fold_left (fun acc kc => db_change (fst kc) (snd kc) acc) p db.

Definition apply_changes (cs : list Change) (t : Table) : Table :=
  List.fold_left (fun acc c => apply_change c acc) cs t.

(** The rows of a model a transaction holds locked, as they are committed,
    and the rows it has written. *)
Definition rows_locked (k : Kind) (p : Pending) : Table :=
  List.flat_map
    (fun kc => if bool_decide (fst kc = k)
               then match snd kc with
                    | Changed old _ | Dropped old => [old]
                    | Added _ => []
                    end
               else []) p.

Definition rows_written (k : Kind) (p : Pending) : Table :=
  List.flat_map
    (fun kc => if bool_decide (fst kc = k)
               then match snd kc with
                    | Added new | Changed _ new => [new]
                    | Dropped _ => []
                    end
               else []) p.

Section Writes.
Context `{Collation}.

Definition db_apply (k : Kind) (m : option Mutation) (db : DB) : DB :=
  match m with
  | Some m' => db_set k (apply_mutation m' (db_get k db)) db
  | None => db
  end.

(** The rows a write changes, on the table it was evaluated on. *)
Definition changes_of (m : Mutation) (t : Table) : list Change :=
  match m with
  | Insert r => [Added r]
  | PatchFirst w data =>
      match find_first w t with
      | Some r => [Changed r (patch data r)]
      | None => []
      end
  | PatchAll w data =>
      List.map (fun r => Changed r (patch data r)) (select (Some w) t)
  | RemoveFirst w =>
      match find_first w t with
      | Some r => [Dropped r]
      | None => []
      end
  | RemoveAll w => List.map Dropped (select (Some w) t)
  end.

(** The rows of [t] a query would write. *)
Definition targets (q : Query) (t : Table) : Table :=
  match q with
  | Update w _ | Delete w =>
      match find_first w t with
      | Some r => [r]
      | None => []
      end
  | UpdateMany w _ | DeleteMany w => select (Some w) t
  | _ => []
  end.

(** A statement of another connection waits for the open transaction when
    it would write a row the transaction holds locked, or give a unique
    column a value of a row the transaction has written or holds
    locked. *)
Definition waits (k : Kind) (q : Query) (t : Table) (p : Pending) : bool :=
  existsb (fun r => bool_decide (r ∈ rows_locked k p)) (targets q t)
  || match q with
     | Create data => conflicts k data (rows_written k p ++ rows_locked k p)
     | Update w data =>
         match find_first w t with
         | Some _ => conflicts k data (rows_written k p ++ rows_locked k p)
         | None => false
         end
     | _ => false
     end.
End Writes.

(** The connection a delegate is bound to: the service's own ([this.prisma])
    or a transaction client ([tx]), identified by its transaction. *)
Abbreviation TransactionClient := nat.

Inductive Conn : Type :=
| ambient
| scoped (tx : TransactionClient).

(** [this.prisma.user], [tx.plan], ...: a model of a connection. *)
Record Delegate : Type := { conn : Conn; model : Kind }.

Inductive IsolationLevel : Type :=
| ReadUncommitted | ReadCommitted | RepeatableRead | Serializable.

Record TxOptions : Type := {
  maxWait : option Z;
  timeout : option Z;
  isolationLevel : option IsolationLevel
}.

(** The client's defaults: 2 s to start a transaction, 5 s to run it. *)
Definition max_wait (o : option TxOptions) : Z := default 2000 (o ≫= maxWait).

Definition time_limit (o : option TxOptions) : Z := default 5000 (o ≫= timeout).

Inductive Event : Type :=
| EvBegin (tx : TransactionClient) (o : option TxOptions)
| EvCommit (tx : TransactionClient)
| EvRollback (tx : TransactionClient)
| EvCall (d : Delegate) (q : Query) (m : option Mutation).

(** The client and the database behind it.  [open_tx] is the transaction
    that can take calls, with its uncommitted writes; [failed_tx] is the
    transaction that is under way and can take no call any more, with the
    error its client answers with, and [held] the writes of it whose rows
    the database still holds locked; [time_left] is the time before the
    engine closes the transaction under way; [acquire_wait] is the time
    the engine needs to hand out a transaction, which depends on what else
    the process is doing. *)
Record World : Type := {
  committed : DB;
  open_tx : option (TransactionClient * Pending);
  next_tx : TransactionClient;
  clock : Z;
  trace : list Event;
  time_left : Z;
  failed_tx : option (TransactionClient * Error);
  held : Pending;
  acquire_wait : Z
}.

(** The transaction under way. *)
Definition current_tx (w : World) : option TransactionClient :=
  match open_tx w with
  | Some (tx, _) => Some tx
  | None => fst <$> failed_tx w
  end.

Definition emit (ev : Event) (w : World) : World :=
  {| committed := committed w; open_tx := open_tx w; next_tx := next_tx w;
     clock := clock w + 1; trace := trace w ++ [ev];
     time_left := time_left w; failed_tx := failed_tx w; held := held w;
     acquire_wait := acquire_wait w |}.

Definition set_committed (db : DB) (w : World) : World :=
  {| committed := db; open_tx := open_tx w; next_tx := next_tx w;
     clock := clock w; trace := trace w;
     time_left := time_left w; failed_tx := failed_tx w; held := held w;
     acquire_wait := acquire_wait w |}.

Definition set_open_tx (o : option (TransactionClient * Pending)) (w : World) : World :=
  {| committed := committed w; open_tx := o; next_tx := next_tx w;
     clock := clock w; trace := trace w;
     time_left := time_left w; failed_tx := failed_tx w; held := held w;
     acquire_wait := acquire_wait w |}.

Definition tick (w : World) : World :=
  {| committed := committed w; open_tx := open_tx w; next_tx := next_tx w;
     clock := clock w + 1; trace := trace w;
     time_left := time_left w; failed_tx := failed_tx w; held := held w;
     acquire_wait := acquire_wait w |}.

(** A statement has failed in the open transaction: the database refuses
    every later command of the transaction, and holds its locks until it
    ends. *)
Definition abort_tx (w : World) : World :=
  match open_tx w with
  | Some (tx, p) =>
      {| committed := committed w; open_tx := None; next_tx := next_tx w;
         clock := clock w; trace := trace w;
         time_left := time_left w; failed_tx := Some (tx, TransactionAborted);
         held := p; acquire_wait := acquire_wait w |}
  | None => w
  end.

(** The engine closes the transaction under way and rolls it back: its
    writes and its locks are gone, and its client answers with the timeout
    error from now on. *)
Definition expire_tx (w : World) : World :=
  match current_tx w with
  | Some tx =>
      {| committed := committed w; open_tx := None; next_tx := next_tx w;
         clock := clock w; trace := trace w;
         time_left := time_left w; failed_tx := Some (tx, Timeout);
         held := []; acquire_wait := acquire_wait w |}
  | None => w
  end.

(** [ms] milliseconds go by.  A transaction that is under way for as
    long as its time limit is closed by the engine. *)
Definition pass_time (ms : Z) (w : World) : World :=
  let ms := Z.max 0 ms in
  let w' := {| committed := committed w; open_tx := open_tx w;
               next_tx := next_tx w; clock := clock w + ms; trace := trace w;
               time_left := time_left w - ms; failed_tx := failed_tx w;
               held := held w; acquire_wait := acquire_wait w |} in
  if time_left w <=? ms then expire_tx w' else w'.

(** A failed statement aborts the transaction it ran in: the database
    refuses every later command of the transaction.  The errors the client
    raises itself, for a record it did not find, do not. *)
Definition aborts (e : Error) : bool :=
  match e with
  | ConstraintViolation => true
  | _ => false
  end.

(** The error a client that can take no call answers with. *)
Definition refusal (d : Delegate) (w : World) : Error :=
  match conn d, failed_tx w with
  | scoped tx, Some (tx', e) => if Nat.eqb tx tx' then e else InvalidScopeUse
  | _, _ => InvalidScopeUse
  end.

(** Asynchronous code over the client: what a repository method or a work
    function does, up to the store calls it awaits and the time it lets
    pass. *)
Inductive Prog : Type -> Type :=
| Ret {R : Type} (r : R) : Prog R
| Throw {R : Type} (e : Error) : Prog R
| Call {R : Type} (d : Delegate) (q : Query) (k : JsVal -> Prog R) : Prog R
| NewDate {R : Type} (k : Z -> Prog R) : Prog R
| TryCatch {A R : Type} (body : Prog A) (handler : Error -> Prog A)
    (k : A -> Prog R) : Prog R
| Delay {R : Type} (ms : Z) (k : Prog R) : Prog R.

(** [await p] followed by the rest of an async function. *)
Fixpoint bind {A B : Type} (p : Prog A) {struct p} : (A -> Prog B) -> Prog B :=
  match p in Prog T return (T -> Prog B) -> Prog B with
  | Ret a => fun f => f a
  | Throw e => fun _ => Throw e
  | Call d q k => fun f => Call d q (fun v => bind (k v) f)
  | NewDate k => fun f => NewDate (fun t => bind (k t) f)
  | TryCatch body handler k =>
      fun f => TryCatch body handler (fun a => bind (k a) f)
  | Delay ms k => fun f => Delay ms (bind k f)
  end.

(** A query of the ambient client that has not been awaited
    ([this.prisma.user.count()], a [PrismaPromise]): nothing is sent until
    it is awaited or handed to [$transaction]. *)
Record PrismaPromise : Type := { pp_model : Kind; pp_query : Query }.

Fixpoint run_sequentially (tx : TransactionClient) (ops : list PrismaPromise)
  : Prog (list JsVal) :=
  match ops with
  | [] => Ret []
  | op :: ops' =>
      Call {| conn := scoped tx; model := pp_model op |} (pp_query op)
        (fun v => bind (run_sequentially tx ops') (fun vs => Ret (v :: vs)))
  end.

Section Client.
Context `{Collation}.

(** The transaction under way stands in the way of a statement of the
    ambient connection. *)
Definition blocked (d : Delegate) (q : Query) (w : World) : bool :=
  waits (model d) q (db_get (model d) (committed w))
    match open_tx w with
    | Some (_, p) => p
    | None => held w
    end.

(** The statement waits until the engine closes the transaction, and then
    runs on the committed rows. *)
Definition wait_for_locks (d : Delegate) (q : Query) (w : World) : World :=
  if blocked d q w then pass_time (time_left w) w else w.

(** [await delegate.method(args)].  The call itself takes no time. *)
Definition store_call (d : Delegate) (q : Query) (w : World) : Settled JsVal * World :=
  match conn d with
  | ambient =>
      let w := wait_for_locks d q w in
      match run_query (model d) q (db_get (model d) (committed w)) with
      | fulfilled (v, m) =>
          (fulfilled v,
           emit (EvCall d q m) (set_committed (db_apply (model d) m (committed w)) w))
      | rejected e => (rejected e, emit (EvCall d q None) w)
      end
  | scoped tx =>
      match open_tx w with
      | Some (tx', p) =>
          if Nat.eqb tx tx' then
            let t := db_get (model d) (view p (committed w)) in
            match run_query (model d) q t with
            | fulfilled (v, Some m) =>
                (fulfilled v,
                 emit (EvCall d q (Some m))
                   (set_open_tx
                      (Some (tx', p ++ List.map (pair (model d)) (changes_of m t))) w))
            | fulfilled (v, None) => (fulfilled v, emit (EvCall d q None) w)
            | rejected e =>
                (rejected e,
                 emit (EvCall d q None)
                   (if aborts e then abort_tx w else w))
            end
          else (rejected (refusal d w), emit (EvCall d q None) w)
      | None => (rejected (refusal d w), emit (EvCall d q None) w)
      end
  end.

Fixpoint run {R : Type} (p : Prog R) (w : World) {struct p} : Settled R * World :=
  match p with
  | Ret r => (fulfilled r, w)
  | Throw e => (rejected e, w)
  | Call d q k =>
      match store_call d q w with
      | (fulfilled v, w') => run (k v) w'
      | (rejected e, w') => (rejected e, w')
      end
  | NewDate k => run (k (clock w)) (tick w)
  | TryCatch body handler k =>
      match run body w with
      | (fulfilled a, w') => run (k a) w'
      | (rejected e, w') =>
          match run (handler e) w' with
          | (fulfilled a, w'') => run (k a) w''
          | (rejected e', w'') => (rejected e', w'')
          end
      end
  | Delay ms k => run k (pass_time ms w)
  end.

(** [prisma.$transaction(fn, options)]: wait for a transaction, for
    [maxWait] at most; call [fn] with its client; commit when the promise
    fulfils, roll back and reject with the same error when it rejects.
    The engine closes a transaction that is open for [timeout]: its writes
    are dropped, its client and the commit answer with the transaction
    error.  In a transaction a failed statement has aborted the database
    answers the commit by rolling back, without an error.

    The isolation level is handed to the engine.  It decides what a
    transaction sees of the rows other connections commit while it is
    open; the store answers a read through a transaction from the rows
    committed at the time of the read with the transaction's writes on
    top, which is read committed, the default, and what the stricter
    levels give as well as long as no other connection writes between the
    first call of the transaction and its end. *)
Definition begin_transaction (options : option TxOptions) (w : World) : World :=
  pass_time 0
    (emit (EvBegin (next_tx w) options)
       {| committed := committed w; open_tx := Some (next_tx w, []);
          next_tx := S (next_tx w);
          clock := clock w + Z.max 0 (acquire_wait w); trace := trace w;
          time_left := time_limit options; failed_tx := None; held := [];
          acquire_wait := acquire_wait w |}).

Definition end_transaction (ev : Event) (db : DB) (w : World) : World :=
  emit ev
    {| committed := db; open_tx := None; next_tx := next_tx w;
       clock := clock w; trace := trace w;
       time_left := 0; failed_tx := None; held := [];
       acquire_wait := acquire_wait w |}.

Definition commit_transaction (tx : TransactionClient) (w : World) : World :=
  let p := match open_tx w with Some (_, p) => p | None => [] end in
  end_transaction (EvCommit tx) (view p (committed w)) w.

Definition rollback_transaction (tx : TransactionClient) (w : World) : World :=
  end_transaction (EvRollback tx) (committed w) w.

(** The engine has closed the transaction for running out of time. *)
Definition timed_out (w : World) : bool :=
  match failed_tx w with
  | Some (_, e) => bool_decide (e = Timeout)
  | None => false
  end.

Definition settle_transaction {T : Type} (tx : TransactionClient)
    (r : Settled T) (w : World) : Settled T * World :=
  match r with
  | fulfilled v =>
      match open_tx w with
      | Some _ => (fulfilled v, commit_transaction tx w)
      | None =>
          if timed_out w then (rejected Timeout, rollback_transaction tx w)
          else (fulfilled v, rollback_transaction tx w)
      end
  | rejected e => (rejected e, rollback_transaction tx w)
  end.

(** No transaction could be had within [maxWait]. *)
Definition wait_in_vain (options : option TxOptions) (w : World) : World :=
  {| committed := committed w; open_tx := open_tx w; next_tx := next_tx w;
     clock := clock w + Z.max 0 (max_wait options); trace := trace w;
     time_left := time_left w; failed_tx := failed_tx w; held := held w;
     acquire_wait := acquire_wait w |}.

Definition transaction {T : Type} (fn : TransactionClient -> Prog T)
    (options : option TxOptions) (w : World) : Settled T * World :=
  if max_wait options <? acquire_wait w
  then (rejected Timeout, wait_in_vain options w)
  else
    let tx := next_tx w in
    match run (fn tx) (begin_transaction options w) with
    | (r, w') => settle_transaction tx r w'
    end.

(** [prisma.$transaction([...])]: the queries run one after the other in
    one transaction; the promise fulfils with their values in the order of
    the array, or rejects with the first error after rolling back.  This
    form takes no bound on waiting or running time. *)
Definition transaction_array (ops : list PrismaPromise) (w : World)
  : Settled (list JsVal) * World :=
  let tx := next_tx w in
  match run (run_sequentially tx ops) (begin_transaction None w) with
  | (r, w') => settle_transaction tx r w'
  end.
End Client.

(** ** Repositories *)

(** [{ f: v }], one key of a where object. *)
Definition key (f : string) (v : Value) : Where := WField f (equals v).

(** [x > n] on a resolved value; only a number compares. *)
Definition js_gt (x : JsVal) (n : Z) : bool :=
  match x with
  | JNumber c => (n <? c)%Z
  | _ => false
  end.

(** [result.count]. *)
Definition js_count (x : JsVal) : JsVal :=
  match x with
  | JBatchPayload c => JNumber c
  | _ => JNull
  end.

(** The abstract method of [BaseRepository]: the delegate of the
    repository's model, on the transaction client when one is passed. *)
Class Repository : Type := {
  getDelegate : option TransactionClient -> Delegate
}.

(** [options?: { skip?, take?, orderBy? }] of [findMany]. *)
Record FindOptions : Type := {
  skip : option nat;
  take : option nat;
  orderBy : option (string * SortOrder)
}.

Module BaseRepository.
Section Methods.
Context (self : Repository).

  (** [tx ? this.getDelegate(tx) : this.getDelegate()] *)
Definition resolve (tx : option TransactionClient) : Delegate :=
    match tx with
    | Some t => getDelegate (Some t)
    | None => getDelegate None
    end.

Definition findById (id : string) (tx : option TransactionClient) : Prog JsVal :=
    let delegate := resolve tx in
    Call delegate (FindUnique (WAnd [key "id" (VStr id)])) Ret.

Definition findMany (where_ : option Where) (options : option FindOptions)
      (tx : option TransactionClient) : Prog JsVal :=
    let delegate := resolve tx in
    Call delegate
      (FindMany {| fm_where := where_;
                   fm_skip := options ≫= skip;
                   fm_take := options ≫= take;
                   fm_orderBy := options ≫= orderBy |}) Ret.

Definition create (data : Record) (tx : option TransactionClient) : Prog JsVal :=
    let delegate := resolve tx in
    Call delegate (Create data) Ret.

Definition update (id : string) (data : Record) (tx : option TransactionClient)
    : Prog JsVal :=
    let delegate := resolve tx in
    Call delegate (Update (WAnd [key "id" (VStr id)]) data) Ret.

Definition delete (id : string) (tx : option TransactionClient) : Prog JsVal :=
    let delegate := resolve tx in
    Call delegate (Delete (WAnd [key "id" (VStr id)])) Ret.

Definition softDelete (id : string) (tx : option TransactionClient) : Prog JsVal :=
    let delegate := resolve tx in
    NewDate (fun now =>
      Call delegate
        (Update (WAnd [key "id" (VStr id)]) {[ "deletedAt" := VDate now ]}) Ret).

Definition count (where_ : option Where) (tx : option TransactionClient)
    : Prog JsVal :=
    let delegate := resolve tx in
    Call delegate (Count where_ None) Ret.

Definition exists_ (where_ : option Where) (tx : option TransactionClient)
    : Prog JsVal :=
    let delegate := resolve tx in
    Call delegate (Count where_ (Some 1%nat))
      (fun count => Ret (JBoolean (js_gt count 0))).
End Methods.
End BaseRepository.

Module UsersRepository.
Definition getDelegate (tx : option TransactionClient) : Delegate :=
    match tx with
    | Some t => {| conn := scoped t; model := user |}
    | None => {| conn := ambient; model := user |}
    end.

Definition self : Repository := Build_Repository getDelegate.

Definition findByEmail (email : string) (tx : option TransactionClient)
    : Prog JsVal :=
    let delegate := match tx with
                    | Some t => {| conn := scoped t; model := user |}
                    | None => {| conn := ambient; model := user |}
                    end in
    Call delegate (FindUnique (WAnd [key "email" (VStr email)])) Ret.

Definition findActiveByEmail (email : string) (tx : option TransactionClient)
    : Prog JsVal :=
    let delegate := match tx with
                    | Some t => {| conn := scoped t; model := user |}
                    | None => {| conn := ambient; model := user |}
                    end in
    Call delegate
      (FindFirst (WAnd [key "email" (VStr email); key "deletedAt" VNull])) Ret.

Definition createUser (data : Record) (tx : option TransactionClient)
    : Prog JsVal :=
    let delegate := match tx with
                    | Some t => {| conn := scoped t; model := user |}
                    | None => {| conn := ambient; model := user |}
                    end in
    Call delegate (Create data) Ret.

Definition updateUser (id : string) (data : Record)
      (tx : option TransactionClient) : Prog JsVal :=
    let delegate := match tx with
                    | Some t => {| conn := scoped t; model := user |}
                    | None => {| conn := ambient; model := user |}
                    end in
    Call delegate (Update (WAnd [key "id" (VStr id)]) data) Ret.

(** [findByAcademyRole] filters and includes through the [academyUsers]
    relation; relations between models are not part of this store and the
    method is left out.  It resolves its delegate as the methods above. *)
End UsersRepository.

(** [...(token && { token })]: the key is added for a non-empty string. *)
Definition optional_key (f : string) (v : option string) : list Where :=
  match v with
  | Some s => if bool_decide (s = "") then [] else [key f (VStr s)]
  | None => []
  end.

Module RefreshTokenRepository.
Definition getDelegate (tx : option TransactionClient) : Delegate :=
    match tx with
    | Some t => {| conn := scoped t; model := userRefreshToken |}
    | None => {| conn := ambient; model := userRefreshToken |}
    end.

Definition self : Repository := Build_Repository getDelegate.

(** [findValidToken] includes the [user] relation in its result and is
    left out for the same reason as [findByAcademyRole]. *)

Definition createToken (data : Record) (tx : option TransactionClient)
    : Prog JsVal :=
    let delegate := match tx with
                    | Some t => {| conn := scoped t; model := userRefreshToken |}
                    | None => {| conn := ambient; model := userRefreshToken |}
                    end in
    Call delegate (Create data) Ret.

Definition revokeToken (id : string) (tx : option TransactionClient)
    : Prog JsVal :=
    let delegate := match tx with
                    | Some t => {| conn := scoped t; model := userRefreshToken |}
                    | None => {| conn := ambient; model := userRefreshToken |}
                    end in
    NewDate (fun now =>
      Call delegate
        (Update (WAnd [key "id" (VStr id)]) {[ "revokedAt" := VDate now ]}) Ret).

Definition revokeUserTokens (userId : string) (token : option string)
      (tx : option TransactionClient) : Prog JsVal :=
    let delegate := match tx with
                    | Some t => {| conn := scoped t; model := userRefreshToken |}
                    | None => {| conn := ambient; model := userRefreshToken |}
                    end in
    NewDate (fun now =>
      Call delegate
        (UpdateMany
           (WAnd ([key "userId" (VStr userId)] ++ optional_key "token" token
                  ++ [key "revokedAt" VNull]))
           {[ "revokedAt" := VDate now ]})
        (fun result => Ret (js_count result))).

Definition cleanExpiredTokens (tx : option TransactionClient) : Prog JsVal :=
    let delegate := match tx with
                    | Some t => {| conn := scoped t; model := userRefreshToken |}
                    | None => {| conn := ambient; model := userRefreshToken |}
                    end in
    NewDate (fun now =>
      Call delegate
        (DeleteMany (WAnd [WOr [WAnd [WField "expiresAt" (lt (VDate now))];
                                WAnd [WField "revokedAt" (not_ VNull)]]]))
        (fun result => Ret (js_count result))).
End RefreshTokenRepository.

Module AcademiesRepository.
  (** Declared without the [tx] parameter. *)
Definition getDelegate : Delegate := {| conn := ambient; model := academy |}.

  (** Called by the base class as [this.getDelegate(tx)]: the extra
      argument is dropped. *)
Definition self : Repository := Build_Repository (fun _ => getDelegate).

Definition findBySlug (slug : string) : Prog JsVal :=
    Call {| conn := ambient; model := academy |}
      (FindFirst (WAnd [key "slug" (VStr slug); key "deletedAt" VNull])) Ret.

Definition findActiveAcademies : Prog JsVal :=
    Call {| conn := ambient; model := academy |}
      (FindMany {| fm_where := Some (WAnd [key "deletedAt" VNull]);
                   fm_skip := None; fm_take := None;
                   fm_orderBy := Some ("name", asc) |}) Ret.

Section Geo.
    (** The two floating-point expressions of [searchByLocation], in the
        unit the coordinates are stored in:
        [radiusKm / 111] and
        [radiusKm / (111 * Math.cos((latitude * Math.PI) / 180))]. *)
Variable latDeltaOf : Z -> Z.
Variable lonDeltaOf : Z -> Z -> Z.

Definition searchByLocation (latitude longitude : Z) (radiusKm : option Z)
      : Prog JsVal :=
      let radiusKm := default 10 radiusKm in
      let latDelta := latDeltaOf radiusKm in
      let lonDelta := lonDeltaOf radiusKm latitude in
      Call {| conn := ambient; model := academy |}
        (FindMany
           {| fm_where := Some (WAnd
                [key "deletedAt" VNull;
                 WAnd [WField "latitude" (gte (VNum (latitude - latDelta)));
                       WField "latitude" (lte (VNum (latitude + latDelta)))];
                 WAnd [WField "longitude" (gte (VNum (longitude - lonDelta)));
                       WField "longitude" (lte (VNum (longitude + lonDelta)))]]);
              fm_skip := None; fm_take := None; fm_orderBy := None |}) Ret.
End Geo.

Definition createAcademy (data : Record) : Prog JsVal :=
    Call {| conn := ambient; model := academy |} (Create data) Ret.

Definition updateAcademy (id : string) (data : Record) : Prog JsVal :=
    Call {| conn := ambient; model := academy |}
      (Update (WAnd [key "id" (VStr id)]) data) Ret.
End AcademiesRepository.

Module PlansRepository.
  (** Declared without the [tx] parameter. *)
Definition getDelegate : Delegate := {| conn := ambient; model := plan |}.

Definition self : Repository := Build_Repository (fun _ => getDelegate).

Definition findByAcademy (academyId : string) : Prog JsVal :=
    Call {| conn := ambient; model := plan |}
      (FindMany {| fm_where := Some (WAnd [key "academyId" (VStr academyId);
                                           key "deletedAt" VNull]);
                   fm_skip := None; fm_take := None;
                   fm_orderBy := Some ("price", asc) |}) Ret.

Definition findActivePlans (academyId : string) : Prog JsVal :=
    Call {| conn := ambient; model := plan |}
      (FindMany {| fm_where := Some (WAnd [key "academyId" (VStr academyId);
                                           key "deletedAt" VNull;
                                           key "isActive" (VBool true)]);
                   fm_skip := None; fm_take := None;
                   fm_orderBy := Some ("price", asc) |}) Ret.

Definition createPlan (data : Record) : Prog JsVal :=
    Call {| conn := ambient; model := plan |} (Create data) Ret.

Definition updatePlan (id : string) (data : Record) : Prog JsVal :=
    Call {| conn := ambient; model := plan |}
      (Update (WAnd [key "id" (VStr id)]) data) Ret.
End PlansRepository.

(** ** Unit of work *)

Module UnitOfWork.
Section WithClient.
Context `{Collation}.

Definition execute {T : Type} (work : TransactionClient -> Prog T)
    : World -> Settled T * World :=
    transaction work None.

Definition executeWithOptions {T : Type} (work : TransactionClient -> Prog T)
      (options : option TxOptions) : World -> Settled T * World :=
    transaction work options.

Definition batch (operations : list PrismaPromise)
    : World -> Settled (list JsVal) * World :=
    transaction_array operations.
End WithClient.
End UnitOfWork.

(** ** What a call reads *)

(** The table a delegate's call is evaluated on: the committed rows for the
    ambient client, the transaction's view for the client of the open
    transaction, none for a client whose transaction is not open or can
    take no call any more. *)
Definition visible (d : Delegate) (w : World) : option Table :=
  match conn d with
  | ambient => Some (db_get (model d) (committed w))
  | scoped tx =>
      match open_tx w with
      | Some (tx', p) =>
          if Nat.eqb tx tx' then Some (db_get (model d) (view p (committed w)))
          else None
      | None => None
      end
  end.

Section Aborting.
Context `{Collation}.

(** The call is a statement that fails in the transaction of its client,
    on the table [t] it reads, and so aborts it. *)
Definition call_aborts (d : Delegate) (q : Query) (t : Table) : bool :=
  match conn d, run_query (model d) q t with
  | scoped _, rejected e => aborts e
  | _, _ => false
  end.
End Aborting.

Definition value_of {A : Type} (r : Settled (A * option Mutation)) : Settled A :=
  match r with
  | fulfilled (v, _) => fulfilled v
  | rejected e => rejected e
  end.

Definition write_of {A : Type} (r : Settled (A * option Mutation)) : option Mutation :=
  match r with
  | fulfilled (_, m) => m
  | rejected _ => None
  end.

(** The outcome of a lookup by a key column: the row found, which is one
    of the table with that key, or [null] when the table has none. *)
Definition found_or_null (f : string) (v : Value) (t : Table) (out : Settled JsVal)
  : Prop :=
  (exists r, out = fulfilled (JRecord r) /\ In r t /\ field r f = v)
  \/ (out = fulfilled JNull /\ forall r, In r t -> field r f <> v).

(** The writes recorded in a stretch of the trace, on the connections
    [sel] selects, oldest first. *)
Definition is_call (ev : Event) : bool :=
  match ev with
  | EvCall _ _ _ => true
  | _ => false
  end.

Definition is_ambient (c : Conn) : bool :=
  match c with
  | ambient => true
  | scoped _ => false
  end.

Definition is_scoped (c : Conn) : bool := negb (is_ambient c).

Definition writes_on (sel : Conn -> bool) (evs : list Event)
  : list (Kind * Mutation) :=
  List.flat_map
    (fun ev => match ev with
               | EvCall d _ (Some m) => if sel (conn d) then [(model d, m)] else []
               | _ => []
               end) evs.

Section Effects.
Context `{Collation}.

(** Writes applied to the committed rows one after the other. *)
Definition replay (ms : list (Kind * Mutation)) (db : DB) : DB :=
  List.fold_left (fun acc km => db_apply (fst km) (Some (snd km)) acc) ms db.

(** What running asynchronous code can do to the world: append delegate
    calls to the trace, apply its ambient writes to the committed rows and
    let time pass.  It cannot start a transaction or end the one under
    way; that one it can write through, or lose to a failed statement or
    to the clock. *)
Definition effects (w w' : World) (evs : list Event) : Prop :=
  trace w' = trace w ++ evs
  /\ forallb is_call evs = true
  /\ next_tx w' = next_tx w
  /\ acquire_wait w' = acquire_wait w
  /\ committed w' = replay (writes_on is_ambient evs) (committed w)
  /\ current_tx w' = current_tx w
  /\ time_left w' <= time_left w
  /\ (open_tx w = None -> open_tx w' = None)
  /\ (open_tx w = None -> timed_out w = true -> timed_out w' = true)
  /\ (open_tx w' <> None -> failed_tx w' = failed_tx w).
End Effects.

(** Transaction numbers in the trace are below the next one to be given. *)
Definition well_numbered (w : World) : bool :=
  forallb
    (fun ev => match ev with
               | EvBegin t _ | EvCommit t | EvRollback t => Nat.ltb t (next_tx w)
               | EvCall _ _ _ => true
               end) (trace w).

Section Sequences.
Context `{Collation}.

(** The queries of a list evaluated one after the other on a database,
    each seeing the writes of the ones before it: the values in the order
    of the list and the database reached, or the first error. *)
Fixpoint eval_sequence (ops : list PrismaPromise) (db : DB)
  : Settled (list JsVal * DB) :=
  match ops with
  | [] => fulfilled ([], db)
  | op :: ops' =>
      match run_query (pp_model op) (pp_query op) (db_get (pp_model op) db) with
      | rejected e => rejected e
      | fulfilled (v, m) =>
          match eval_sequence ops' (db_apply (pp_model op) m db) with
          | fulfilled (vs, db') => fulfilled (v :: vs, db')
          | rejected e => rejected e
          end
      end
  end.

(** The value an operation resolves to when awaited on its own. *)
Definition direct_value (op : PrismaPromise) (db : DB) : Settled JsVal :=
  value_of (run_query (pp_model op) (pp_query op) (db_get (pp_model op) db)).

(** No operation of the list depends on the ones before it: on the
    database they have written, it settles as it does on [db0], where
    none of them has run. *)
Fixpoint independent_from (db0 : DB) (ops : list PrismaPromise) (db : DB) : bool :=
  match ops with
  | [] => true
  | op :: rest =>
      bool_decide (direct_value op db = direct_value op db0)
      && match run_query (pp_model op) (pp_query op) (db_get (pp_model op) db) with
         | fulfilled (_, m) => independent_from db0 rest (db_apply (pp_model op) m db)
         | rejected _ => true
         end
  end.

(** The operations of a list have no data dependency on one another. *)
Definition independent (ops : list PrismaPromise) (db : DB) : bool :=
  independent_from db ops db.
End Sequences.

Definition is_read (q : Query) : bool :=
  match q with
  | FindUnique _ | FindFirst _ | FindMany _ | Count _ _ => true
  | _ => false
  end.

(** No operation of the list touches a model an earlier one writes: one
    way of having no data dependency. *)
Fixpoint on_separate_models (ops : list PrismaPromise) : bool :=
  match ops with
  | [] => true
  | op :: rest =>
      (is_read (pp_query op)
       || forallb (fun o => negb (bool_decide (pp_model o = pp_model op))) rest)
      && on_separate_models rest
  end.

(** ** Sample data *)

Definition empty_db : DB :=
  {| users := []; refreshTokens := []; academies := []; plans := [] |}.

Definition fresh_world : World :=
  {| committed := empty_db; open_tx := None; next_tx := 0%nat;
     clock := 1000; trace := [];
     time_left := 0; failed_tx := None; held := []; acquire_wait := 0 |}.

Definition alice : Record :=
  {[ "id" := VStr "u1"; "email" := VStr "alice@x.com" ]}.

Definition token_of_alice : Record :=
  {[ "id" := VStr "t1"; "userId" := VStr "u1"; "token" := VStr "r4nd0m" ]}.

Definition gym : Record := {[ "id" := VStr "a1"; "slug" := VStr "gym" ]}.

Definition monthly : Record := {[ "id" := VStr "p1"; "academyId" := VStr "a1" ]}.

(** The connection a call is meant for, given the scope argument. *)
Definition scope_conn (tx : option TransactionClient) : Conn :=
  match tx with
  | Some t => scoped t
  | None => ambient
  end.

(** Work functions in the style of [examples/user-registration.service.ts]
    and of the guide. *)
Definition register_user_with_token (tx : TransactionClient) : Prog JsVal :=
  bind (UsersRepository.createUser alice (Some tx)) (fun user_ =>
  bind (RefreshTokenRepository.createToken token_of_alice (Some tx)) (fun _ =>
  Ret user_)).

Definition register_then_fail (tx : TransactionClient) : Prog JsVal :=
  bind (UsersRepository.createUser alice (Some tx)) (fun _ =>
  bind (RefreshTokenRepository.createToken token_of_alice (Some tx)) (fun _ =>
  Throw (Exception "boom"))).

Definition user_and_plan_then_fail (tx : TransactionClient) : Prog JsVal :=
  bind (UsersRepository.createUser alice (Some tx)) (fun _ =>
  bind (PlansRepository.createPlan monthly) (fun _ =>
  Throw (Exception "boom"))).

Definition academy_in_scope_then_fail (tx : TransactionClient) : Prog JsVal :=
  bind (BaseRepository.create AcademiesRepository.self gym (Some tx)) (fun _ =>
  Throw (Exception "boom")).

Definition world_with_plan : World :=
  {| committed := {| users := []; refreshTokens := []; academies := [];
                     plans := [monthly] |};
     open_tx := None; next_tx := 0%nat; clock := 1000; trace := [];
     time_left := 0; failed_tx := None; held := []; acquire_wait := 0 |}.

Definition soft_delete_plan_then_fail (tx : TransactionClient) : Prog JsVal :=
  bind (BaseRepository.softDelete PlansRepository.self "p1" (Some tx)) (fun _ =>
  Throw (Exception "boom")).

Definition bob : Record :=
  {[ "id" := VStr "u2"; "email" := VStr "bob@x.com" ]}.


(** A work function that creates a user and then waits. *)
Definition register_slowly (ms : Z) (tx : TransactionClient) : Prog JsVal :=
  bind (UsersRepository.createUser alice (Some tx)) (fun user_ =>
  Delay ms (Ret user_)).

(** A work function that waits and then throws an error of its own. *)
Definition wait_and_fail (ms : Z) (tx : TransactionClient) : Prog JsVal :=
  bind (UsersRepository.createUser alice (Some tx)) (fun _ =>
  Delay ms (Throw (Exception "boom"))).

(** ** Callers *)

(** [x.f] on a resolved value. *)
Definition js_field (x : JsVal) (f : string) : Value :=
  match x with
  | JRecord r => field r f
  | _ => VNull
  end.

(** [{ success: true }]. *)
Record Success : Type := { success : bool }.

(** [const [a, b] = xs]: positions the array does not have are
    [undefined]. *)
Definition destructure2 (xs : list JsVal) : JsVal * JsVal :=
  (List.nth 0 xs JNull, List.nth 1 xs JNull).

Module UserRegistrationService.
Section WithClient.
Context `{Collation}.

Section WithDefaults.
(** The defaults the client fills in for the columns a create leaves out;
    the schema that fixes them is not part of the sources. *)
Context (with_defaults : Kind -> gmap string Value -> gmap string Value).

(** [user: { connect: { id: user.id } }] is written by the client as the
    foreign-key column [userId], the column [revokeUserTokens] filters on;
    the user connected to is the one created in the same transaction. *)
Definition registerUserWithToken (userData : Record) (token : string)
    (expiresAt : Z) : World -> Settled (JsVal * JsVal) * World :=
  UnitOfWork.execute (fun tx =>
    bind (UsersRepository.createUser userData (Some tx)) (fun user_ =>
    bind (RefreshTokenRepository.createToken
            (with_defaults userRefreshToken
               {[ "userId" := js_field user_ "id";
                  "token" := VStr token;
                  "expiresAt" := VDate expiresAt ]}) (Some tx)) (fun refreshToken =>
    Ret (user_, refreshToken)))).
End WithDefaults.

Definition deleteUserWithTokens (userId : string)
  : World -> Settled Success * World :=
  UnitOfWork.execute (fun tx =>
    bind (RefreshTokenRepository.revokeUserTokens userId None (Some tx)) (fun _ =>
    bind (BaseRepository.softDelete UsersRepository.self userId (Some tx)) (fun _ =>
    Ret {| success := true |}))).

Definition batchExample (w : World) : Settled (JsVal * JsVal) * World :=
  let take10 := {| fm_where := None; fm_skip := None; fm_take := Some 10%nat;
                   fm_orderBy := None |} in
  match UnitOfWork.batch [ {| pp_model := user; pp_query := FindMany take10 |};
                           {| pp_model := userRefreshToken;
                              pp_query := FindMany take10 |} ] w with
  | (fulfilled xs, w') => (fulfilled (destructure2 xs), w')
  | (rejected e, w') => (rejected e, w')
  end.

Definition withCustomOptions (userData : Record)
  : World -> Settled JsVal * World :=
  UnitOfWork.executeWithOptions
    (fun tx => UsersRepository.createUser userData (Some tx))
    (Some {| maxWait := Some 5000; timeout := Some 10000;
             isolationLevel := Some Serializable |}).
End WithClient.
End UserRegistrationService.

(** ** Password strategy *)

(** Strings are read as sequences of code units, one [ascii] per unit. *)
Definition code_units (s : string) : list nat :=
  List.map Ascii.nat_of_ascii (String.list_ascii_of_string s).

(** [/[lo-hi]/.test(s)]. *)
Definition test_range (lo hi : nat) (s : string) : bool :=
  existsb (fun c => Nat.leb lo c && Nat.leb c hi) (code_units s).

Module PasswordStrategy.
Record Validation : Type := { valid : bool; errors : list string }.

Definition validate (password : string) : Validation :=
  let errors := [] in
  let errors := if Nat.ltb (String.length password) 8
                then errors ++ ["Password must be at least 8 characters long"]
                else errors in
  let errors := if negb (test_range 65 90 password)
                then errors ++ ["Password must contain at least 1 uppercase letter"]
                else errors in
  let errors := if negb (test_range 97 122 password)
                then errors ++ ["Password must contain at least 1 lowercase letter"]
                else errors in
  let errors := if negb (test_range 48 57 password)
                then errors ++ ["Password must contain at least 1 number"]
                else errors in
  {| valid := Nat.eqb (length errors) 0; errors := errors |}.
End PasswordStrategy.

(** ** Token strategy *)

(** A JS number as far as the token strategy needs it: [NaN], an integer
    that a double holds exactly, or a double beyond that range, whose
    value is not followed. *)
Inductive JsNumber : Type :=
| NaN
| Num (z : Z)
| Beyond.

Definition safe (z : Z) : JsNumber :=
  if Z.abs z <=? 2 ^ 53 then Num z else Beyond.

Definition js_mul (a b : JsNumber) : JsNumber :=
  match a, b with
  | NaN, _ | _, NaN => NaN
  | Num x, Num y => safe (x * y)
  | _, _ => Beyond
  end.

Definition js_add (a b : JsNumber) : JsNumber :=
  match a, b with
  | NaN, _ | _, NaN => NaN
  | Num x, Num y => safe (x + y)
  | _, _ => Beyond
  end.

(** White space [parseInt] skips, among the code units below 256. *)
Definition is_space (c : nat) : bool :=
  (Nat.leb 9 c && Nat.leb c 13) || Nat.eqb c 32 || Nat.eqb c 160.

Definition is_digit (c : nat) : bool := Nat.leb 48 c && Nat.leb c 57.

Fixpoint skip_spaces (cs : list nat) : list nat :=
  match cs with
  | c :: cs' => if is_space c then skip_spaces cs' else cs
  | [] => []
  end.

Fixpoint leading_digits (cs : list nat) : list nat :=
  match cs with
  | c :: cs' => if is_digit c then c :: leading_digits cs' else []
  | [] => []
  end.

Definition decimal (ds : list nat) : Z :=
  List.fold_left (fun acc d => 10 * acc + (Z.of_nat d - 48)) ds 0.

(** [parseInt(s, 10)]. *)
Definition parseInt10 (s : string) : JsNumber :=
  let cs := skip_spaces (code_units s) in
  let '(sign, cs) := match cs with
                     | 45%nat :: cs' => (-1, cs')
                     | 43%nat :: cs' => (1, cs')
                     | _ => (1, cs)
                     end in
  match leading_digits cs with
  | [] => NaN
  | ds => safe (sign * decimal ds)
  end.

(** [s.slice(0, -1)] and [s.slice(-1)]. *)
Definition all_but_last (s : string) : string :=
  String.string_of_list_ascii (List.removelast (String.list_ascii_of_string s)).

Definition last_unit (s : string) : string :=
  match List.rev (String.list_ascii_of_string s) with
  | c :: _ => String c EmptyString
  | [] => EmptyString
  end.

(** [x || fallback] on an optional string: [undefined] and the empty
    string are falsy. *)
Definition or_else (x : option string) (fallback : string) : string :=
  match x with
  | Some s => if bool_decide (s = "") then fallback else s
  | None => fallback
  end.

(** [s.replace('d', '')]: the first [d] is removed. *)
Fixpoint remove_first_d (cs : list Ascii.ascii) : list Ascii.ascii :=
  match cs with
  | c :: cs' => if Nat.eqb (Ascii.nat_of_ascii c) 100 then cs'
                else c :: remove_first_d cs'
  | [] => []
  end.

Definition replace_d (s : string) : string :=
  String.string_of_list_ascii (remove_first_d (String.list_ascii_of_string s)).

(** What [new Date(x)] holds: a time in milliseconds within the range of
    dates, no time at all, or a time computed from a number that is not
    followed. *)
Inductive JsDate : Type :=
| InvalidDate
| DateAt (ms : Z)
| DateBeyond.

Definition new_Date (x : JsNumber) : JsDate :=
  match x with
  | NaN => InvalidDate
  | Num z => if Z.abs z <=? 8640000000000000 then DateAt z else InvalidDate
  | Beyond => DateBeyond
  end.

Module TokenStrategy.
Section WithConfig.
(** [this.config.get<string>(key)]. *)
Context (config : string -> option string).

Definition parseTimeToSeconds (time : string) : JsNumber :=
  let value := parseInt10 (all_but_last time) in
  let unit_ := last_unit time in
  if bool_decide (unit_ = "s") then value
  else if bool_decide (unit_ = "m") then js_mul value (Num 60)
  else if bool_decide (unit_ = "h") then js_mul (js_mul value (Num 60)) (Num 60)
  else if bool_decide (unit_ = "d")
       then js_mul (js_mul (js_mul value (Num 24)) (Num 60)) (Num 60)
  else Num 900.

Definition getAccessTokenExpirySeconds : JsNumber :=
  let expiresIn := or_else (config "JWT_EXPIRES_IN") "15m" in
  parseTimeToSeconds expiresIn.

(** [now] is what [Date.now()] returns. *)
Definition getRefreshTokenExpiry (now : Z) : JsDate :=
  let days := parseInt10
                (or_else (replace_d <$> config "REFRESH_TOKEN_EXPIRES_IN") "7") in
  new_Date (js_add (safe now)
              (js_mul (js_mul (js_mul (js_mul days (Num 24)) (Num 60)) (Num 60))
                 (Num 1000))).
End WithConfig.
End TokenStrategy.

(** ** Services *)

(** The HTTP exceptions the services throw. *)
Inductive HttpException : Type :=
| UnauthorizedException (message : string)
| ConflictException (message : string)
| BadRequestException (messages : list string).

(** What a service call is rejected with: an exception of its own or the
    error of a repository call it awaited. *)
Inductive Failure : Type :=
| Http (h : HttpException)
| Store (e : Error).

Inductive Outcome (A : Type) : Type :=
| returned (a : A)
| threw (f : Failure).
Arguments returned {A} a.
Arguments threw {A} f.

(** [LoggerService]: [log] writes at level info, [warn] and [debug] at
    their own.  A message is a template literal: text and interpolated
    values. *)
Inductive LogLevel : Type := info | warn | debug.

Inductive Fragment : Type :=
| Text (s : string)
| Interp (v : Value).

Record LogLine : Type := {
  level : LogLevel;
  message : list Fragment;
  context : string
}.

Record Env : Type := { world : World; logs : list LogLine }.

(** A service method: code over the store and the logger that returns or
    throws. *)
Definition Service (A : Type) : Type := Env -> Outcome A * Env.

Definition sret {A : Type} (a : A) : Service A := fun env => (returned a, env).

Definition sthrow {A : Type} (h : HttpException) : Service A :=
  fun env => (threw (Http h), env).

Definition sbind {A B : Type} (m : Service A) (k : A -> Service B) : Service B :=
  fun env =>
    match m env with
    | (returned a, env') => k a env'
    | (threw f, env') => (threw f, env')
    end.

Notation "'let*' x ':=' m 'in' k" := (sbind m (fun x => k))
  (at level 10, x name, k at level 200).
Notation "'run*' m 'in' k" := (sbind m (fun _ => k))
  (at level 10, k at level 200).

Definition log_ (l : LogLevel) (msg : list Fragment) (ctx : string) : Service unit :=
  fun env =>
    (returned tt,
     {| world := world env;
        logs := logs env ++ [{| level := l; message := msg; context := ctx |}] |}).

Section Awaiting.
Context `{Collation}.

(** [await] of a repository call. *)
Definition await (p : Prog JsVal) : Service JsVal :=
  fun env =>
    match run p (world env) with
    | (fulfilled v, w') => (returned v, {| world := w'; logs := logs env |})
    | (rejected e, w') => (threw (Store e), {| world := w'; logs := logs env |})
    end.
End Awaiting.

(** [Date.now()]. *)
Definition date_now : Service Z :=
  fun env => (returned (clock (world env)),
              {| world := tick (world env); logs := logs env |}).

(** Truthiness of a column value and of a resolved value. *)
Definition truthy (v : Value) : bool :=
  match v with
  | VNull => false
  | VBool b => b
  | VNum n => negb (n =? 0)
  | VStr s => negb (bool_decide (s = ""))
  | VDate _ => true
  end.

Definition js_truthy (x : JsVal) : bool :=
  match x with
  | JNull => false
  | JNumber n => negb (n =? 0)
  | JBoolean b => b
  | JRecord _ | JArray _ | JBatchPayload _ => true
  end.

(** [{ id: user.id, email: user.email, name: user.name }]. *)
Record UserView : Type := { u_id : Value; u_email : Value; u_name : Value }.

Definition view_of (user_ : JsVal) : UserView :=
  {| u_id := js_field user_ "id"; u_email := js_field user_ "email";
     u_name := js_field user_ "name" |}.

(** The letter [a] with an acute accent, one code unit. *)
Definition a_acute : string := String (Ascii.ascii_of_nat 225) EmptyString.

Module JwtStrategy.
Section WithClient.
Context `{Collation}.

Definition validate (sub : string) : Service UserView :=
  let* user_ := await (BaseRepository.findById UsersRepository.self sub None) in
  if negb (js_truthy user_) || truthy (js_field user_ "deletedAt")
  then sthrow (UnauthorizedException "User not found or inactive")
  else sret (view_of user_).
End WithClient.
End JwtStrategy.

Record TokenPair : Type := {
  accessToken : string;
  refreshToken : string;
  expiresIn : JsNumber
}.

Record AuthResult : Type := {
  r_accessToken : string;
  r_refreshToken : string;
  r_expiresIn : JsNumber;
  r_user : UserView
}.

Module AuthService.
Section Collaborators.
(** The injected collaborators, as far as they are not repositories:
    [bcrypt] behind the password strategy, the token strategy, and the
    defaults the client fills in for the columns a create leaves out (the
    schema is not part of the sources). *)
Context `{Collation}.
Context (hash : string -> string).
Context (compare : string -> Value -> bool).
Context (generateTokenPair : JsVal -> TokenPair).
Context (getRefreshTokenExpiry : Z -> Value).
Context (with_defaults : Kind -> gmap string Value -> gmap string Value).

Definition context_ : string := "AuthService".

Definition makeTokens (user_ : JsVal) : Service AuthResult :=
  let tokenPair := generateTokenPair user_ in
  let* now := date_now in
  let expiresAt := getRefreshTokenExpiry now in
  let* _ := await (RefreshTokenRepository.createToken
                (with_defaults userRefreshToken
                   {[ "userId" := js_field user_ "id";
                      "token" := VStr (refreshToken tokenPair);
                      "expiresAt" := expiresAt ]}) None) in
  sret {| r_accessToken := accessToken tokenPair;
          r_refreshToken := refreshToken tokenPair;
          r_expiresIn := expiresIn tokenPair;
          r_user := view_of user_ |}.

(** [phone: data.phone] sets the column only when a phone is given. *)
Definition user_data (email_ name_ password_ : string) (phone : option string)
  : gmap string Value :=
  let base : gmap string Value :=
    {[ "email" := VStr email_; "name" := VStr name_;
       "password" := VStr password_ ]} in
  match phone with
  | Some ph => <[ "phone" := VStr ph ]> base
  | None => base
  end.

Definition register (email_ name_ password_ : string) (phone : option string)
  : Service AuthResult :=
  run* log_ info [Text "Registration attempt for email: "; Text email_] context_ in
  let validation := PasswordStrategy.validate password_ in
  if negb (PasswordStrategy.valid validation) then
    run* log_ warn [Text "Weak password attempt: ";
               Text (String.concat ", " (PasswordStrategy.errors validation))]
      context_ in
    sthrow (BadRequestException (PasswordStrategy.errors validation))
  else
    let* emailExists := await (UsersRepository.findByEmail email_ None) in
    if js_truthy emailExists then
      run* log_ warn [Text "Registration failed: Email already exists "; Text email_]
        context_ in
      sthrow (ConflictException ("Email j" ++ a_acute ++ " cadastrado")%string)
    else
      let hashedPassword := hash password_ in
      let* user_ := await (UsersRepository.createUser
                        (with_defaults user
                           (user_data email_ name_ hashedPassword phone)) None) in
      run* log_ info [Text "User registered successfully: ";
                 Interp (js_field user_ "id")] context_ in
      makeTokens user_.

Definition login (email_ password_ : string) : Service AuthResult :=
  run* log_ info [Text "Login attempt for email: "; Text email_] context_ in
  let* user_ := await (UsersRepository.findByEmail email_ None) in
  if negb (js_truthy user_) || truthy (js_field user_ "deletedAt") then
    run* log_ warn [Text "Login failed: User not found "; Text email_] context_ in
    sthrow (UnauthorizedException ("Credenciais inv" ++ a_acute ++ "lidas")%string)
  else
    let valid := compare password_ (js_field user_ "password") in
    if negb valid then
      run* log_ warn [Text "Login failed: Invalid password for "; Text email_]
        context_ in
      sthrow (UnauthorizedException ("Credenciais inv" ++ a_acute ++ "lidas")%string)
    else
      run* log_ info [Text "User logged in successfully: ";
                 Interp (js_field user_ "id")] context_ in
      makeTokens user_.

Definition logout (userId token : string) : Service unit :=
  run* log_ info [Text "Logout for user: "; Text userId] context_ in
  let* _ := await (RefreshTokenRepository.revokeUserTokens userId (Some token) None) in
  sret tt.
End Collaborators.
End AuthService.

(** * Properties *)

(** ** Tables *)

Section TableFacts.
Context `{Collation}.

Lemma matches_key (f : string) (v : Value) (r : Record) :
  matches (WAnd [key f v]) r = true <-> field r f = v.
Proof.
  simpl. unfold value_eqb. rewrite andb_true_r. apply bool_decide_eq_true.
Qed.

Lemma find_first_Some (w : Where) (t : Table) (r : Record) :
  find_first w t = Some r -> In r t /\ matches w r = true.
Proof. apply find_some. Qed.

Lemma find_first_None (w : Where) (t : Table) :
  find_first w t = None -> forall r, In r t -> matches w r = false.
Proof. apply find_none. Qed.

(** The first matching row splits the table; [patch_first] rewrites that
    row and no other. *)
Lemma patch_first_split (w : Where) (data : Record) (t : Table) (r : Record) :
  find_first w t = Some r ->
  exists t1 t2,
    t = t1 ++ r :: t2
    /\ (forall r', In r' t1 -> matches w r' = false)
    /\ patch_first w data t = t1 ++ patch data r :: t2.
Proof.
  induction t as [|x t IH]; simpl; [done|].
  destruct (matches w x) eqn:Hx.
  - intros [= ->]. exists [], t. by repeat split.
  - intros Hf. destruct (IH Hf) as (t1 & t2 & -> & Hno & ->).
    exists (x :: t1), t2. split; [done|]. split; [|done].
    intros r' [<-|Hin]; [done | by apply Hno].
Qed.

Lemma first_match_split (w : Where) (t : Table) (r : Record) :
  find_first w t = Some r ->
  exists t1 t2,
    t = t1 ++ r :: t2
    /\ (forall r', In r' t1 -> matches w r' = false)
    /\ matches w r = true
    /\ remove_first w t = t1 ++ t2
    /\ forall data, patch_first w data t = t1 ++ patch data r :: t2.
Proof.
  induction t as [|x t IH]; simpl; [done|].
  destruct (matches w x) eqn:Hx.
  - intros [= ->]. exists [], t. by repeat split.
  - intros Hf. destruct (IH Hf) as (t1 & t2 & -> & Hno & Hm & -> & Hp).
    exists (x :: t1), t2. split; [done|]. split.
    { intros r' [<-|Hin]; [done | by apply Hno]. }
    split; [done|]. split; [done|].
    intros data. simpl. by rewrite Hp.
Qed.

Lemma positive_size_iff (p : gmap string Value -> bool) (t : Table) :
  (0 <? size_of (List.filter p t)) = true <-> exists r, In r t /\ p r = true.
Proof.
  unfold size_of. rewrite Z.ltb_lt. split.
  - destruct (List.filter p t) as [|r l] eqn:Hf; simpl; [lia|].
    intros _. exists r. apply filter_In. rewrite Hf. by left.
  - intros (r & Hr). apply filter_In in Hr.
    destruct (List.filter p t); [done | simpl; lia].
Qed.

Lemma capped_count_positive (t : Table) :
  (0 <? size_of (take_rows (Some 1%nat) t)) = (0 <? size_of t).
Proof. by destruct t as [|r [|r' t]]. Qed.

(** ** Changes of rows *)

Lemma replace_row_at (old new : Record) (t1 t2 : Table) :
  (forall x, In x t1 -> x <> old) ->
  replace_row old new (t1 ++ old :: t2) = t1 ++ new :: t2.
Proof.
  induction t1 as [|x t1 IH]; simpl; intros Hno.
  - by rewrite bool_decide_eq_true_2.
  - rewrite bool_decide_eq_false_2 by (apply Hno; by left).
    rewrite IH; [done|]. intros y Hy. apply Hno. by right.
Qed.

Lemma drop_row_at (old : Record) (t1 t2 : Table) :
  (forall x, In x t1 -> x <> old) ->
  drop_row old (t1 ++ old :: t2) = t1 ++ t2.
Proof.
  induction t1 as [|x t1 IH]; simpl; intros Hno.
  - by rewrite bool_decide_eq_true_2.
  - rewrite bool_decide_eq_false_2 by (apply Hno; by left).
    rewrite IH; [done|]. intros y Hy. apply Hno. by right.
Qed.

Lemma replace_row_same (r : Record) (t : Table) : replace_row r r t = t.
Proof.
  induction t as [|x t IH]; simpl; [done|].
  destruct (bool_decide (x = r)) eqn:Hx; [|by rewrite IH].
  by apply bool_decide_eq_true in Hx as ->.
Qed.

Lemma patch_idem (data r : Record) : patch data (patch data r) = patch data r.
Proof. unfold patch. by rewrite (assoc_L (∪)), (idemp_L (∪)). Qed.

(** A row of [pre] that is a fixed point of the patch whenever it matches
    stays as it is when a matching row is replaced by its patch. *)
Lemma replace_row_patched (w : Where) (data : Record) (pre t : Table) (r : Record) :
  (forall x, In x pre -> matches w x = true -> patch data x = x) ->
  matches w r = true ->
  replace_row r (patch data r) (pre ++ r :: t) = pre ++ patch data r :: t.
Proof.
  induction pre as [|x pre IH]; simpl; intros Hpre Hr.
  - by rewrite bool_decide_eq_true_2.
  - destruct (bool_decide (x = r)) eqn:Hx.
    + apply bool_decide_eq_true in Hx as ->.
      rewrite (Hpre r (or_introl eq_refl) Hr). done.
    + rewrite IH; [done| |done]. intros y Hy. apply Hpre. by right.
Qed.

Lemma changes_patch_all (w : Where) (data : Record) (t : Table) :
  forall pre,
    (forall x, In x pre -> matches w x = true -> patch data x = x) ->
    apply_changes (List.map (fun r => Changed r (patch data r)) (select (Some w) t))
      (pre ++ t)
    = pre ++ patch_all w data t.
Proof.
  unfold select, apply_changes, patch_all.
  induction t as [|x t IH]; intros pre Hpre; simpl; [done|].
  destruct (matches w x) eqn:Hx; simpl.
  - rewrite (replace_row_patched w) by done.
    change (pre ++ patch data x :: t) with (pre ++ [patch data x] ++ t).
    rewrite app_assoc, IH.
    + by rewrite <- app_assoc.
    + intros y Hy Hm. apply in_app_or in Hy as [Hy|[<-|[]]].
      * by apply Hpre.
      * apply patch_idem.
  - change (pre ++ x :: t) with (pre ++ [x] ++ t).
    rewrite app_assoc, IH.
    + by rewrite <- app_assoc.
    + intros y Hy Hm. apply in_app_or in Hy as [Hy|[<-|[]]].
      * by apply Hpre.
      * congruence.
Qed.

Lemma changes_remove_all (w : Where) (t : Table) :
  forall pre,
    (forall x, In x pre -> matches w x = false) ->
    apply_changes (List.map Dropped (select (Some w) t)) (pre ++ t)
    = pre ++ remove_all w t.
Proof.
  unfold select, apply_changes, remove_all.
  induction t as [|x t IH]; intros pre Hpre; simpl; [done|].
  destruct (matches w x) eqn:Hx; simpl.
  - rewrite drop_row_at; [by apply IH|].
    intros y Hy ->. apply Hpre in Hy. congruence.
  - change (pre ++ x :: t) with (pre ++ [x] ++ t).
    rewrite app_assoc, IH.
    + by rewrite <- app_assoc.
    + intros y Hy. apply in_app_or in Hy as [Hy|[<-|[]]]; [by apply Hpre | done].
Qed.

(** The rows a write changes, changed one by one, give the table the
    write gives. *)
Lemma apply_changes_of (m : Mutation) (t : Table) :
  apply_changes (changes_of m t) t = apply_mutation m t.
Proof.
  destruct m as [r|w data|w data|w|w]; simpl.
  - done.
  - destruct (find_first w t) as [r|] eqn:Hf.
    + destruct (first_match_split _ _ _ Hf) as (t1 & t2 & -> & Hno & Hm & _ & Hp).
      rewrite Hp. unfold apply_changes. simpl. apply replace_row_at.
      intros x Hx ->. apply Hno in Hx. congruence.
    + unfold apply_changes. simpl. symmetry.
      pose proof (find_first_None _ _ Hf) as Hno. clear Hf.
      induction t as [|x t IH]; simpl; [done|].
      rewrite (Hno x (or_introl eq_refl)). f_equal. apply IH.
      intros y Hy. apply Hno. by right.
  - exact (changes_patch_all w data t [] (fun _ F => match F with end)).
  - destruct (find_first w t) as [r|] eqn:Hf.
    + destruct (first_match_split _ _ _ Hf) as (t1 & t2 & -> & Hno & Hm & Hrm & _).
      rewrite Hrm. unfold apply_changes. simpl. apply drop_row_at.
      intros x Hx ->. apply Hno in Hx. congruence.
    + unfold apply_changes. simpl. symmetry.
      pose proof (find_first_None _ _ Hf) as Hno. clear Hf.
      induction t as [|x t IH]; simpl; [done|].
      rewrite (Hno x (or_introl eq_refl)). f_equal. apply IH.
      intros y Hy. apply Hno. by right.
  - exact (changes_remove_all w t [] (fun _ F => match F with end)).
Qed.
End TableFacts.

(** ** Store calls *)

Section StoreCalls.
Context `{Collation}.

Lemma db_get_set_eq (k : Kind) (t : Table) (db : DB) :
  db_get k (db_set k t db) = t.
Proof. by destruct k. Qed.

Lemma db_get_set_ne (k k' : Kind) (t : Table) (db : DB) :
  k ≠ k' -> db_get k (db_set k' t db) = db_get k db.
Proof. by destruct k, k'. Qed.

Lemma db_get_apply_eq (k : Kind) (m : Mutation) (db : DB) :
  db_get k (db_apply k (Some m) db) = apply_mutation m (db_get k db).
Proof. apply db_get_set_eq. Qed.

Lemma db_get_apply_ne (k k' : Kind) (m : option Mutation) (db : DB) :
  k ≠ k' -> db_get k (db_apply k' m db) = db_get k db.
Proof. destruct m; [apply db_get_set_ne | done]. Qed.

Lemma view_app (p q : Pending) (db : DB) :
  view (p ++ q) db = view q (view p db).
Proof. apply fold_left_app. Qed.

Lemma view_changes_eq (k : Kind) (cs : list Change) (db : DB) :
  db_get k (view (List.map (pair k) cs) db) = apply_changes cs (db_get k db).
Proof.
  revert db. induction cs as [|c cs IH]; intros db; simpl; [done|].
  rewrite IH. unfold db_change. simpl. by rewrite db_get_set_eq.
Qed.

Lemma view_changes_ne (k k' : Kind) (cs : list Change) (db : DB) :
  k ≠ k' -> db_get k (view (List.map (pair k') cs) db) = db_get k db.
Proof.
  intros Hk. revert db. induction cs as [|c cs IH]; intros db; simpl; [done|].
  rewrite IH. unfold db_change. simpl. by rewrite db_get_set_ne.
Qed.

(** What a transaction sees after a write of its own is what the write
    gives on what it saw before. *)
Lemma view_write (k : Kind) (m : Mutation) (p : Pending) (db : DB) :
  let t := db_get k (view p db) in
  db_get k (view (p ++ List.map (pair k) (changes_of m t)) db) = apply_mutation m t.
Proof.
  cbn zeta. by rewrite view_app, view_changes_eq, apply_changes_of.
Qed.

Lemma abort_tx_keeps (w : World) :
  committed (abort_tx w) = committed w /\ trace (abort_tx w) = trace w
  /\ next_tx (abort_tx w) = next_tx w /\ acquire_wait (abort_tx w) = acquire_wait w
  /\ clock (abort_tx w) = clock w /\ time_left (abort_tx w) = time_left w.
Proof. unfold abort_tx. by destruct (open_tx w) as [[tx p]|]. Qed.

Lemma expire_tx_keeps (w : World) :
  committed (expire_tx w) = committed w /\ trace (expire_tx w) = trace w
  /\ next_tx (expire_tx w) = next_tx w /\ acquire_wait (expire_tx w) = acquire_wait w
  /\ clock (expire_tx w) = clock w /\ time_left (expire_tx w) = time_left w.
Proof. unfold expire_tx. by destruct (current_tx w). Qed.

Lemma pass_time_keeps (ms : Z) (w : World) :
  committed (pass_time ms w) = committed w /\ trace (pass_time ms w) = trace w
  /\ next_tx (pass_time ms w) = next_tx w
  /\ acquire_wait (pass_time ms w) = acquire_wait w.
Proof.
  unfold pass_time. destruct (time_left w <=? Z.max 0 ms); [|done].
  unfold expire_tx. by destruct (current_tx _).
Qed.

Lemma wait_for_locks_keeps (d : Delegate) (q : Query) (w : World) :
  committed (wait_for_locks d q w) = committed w
  /\ trace (wait_for_locks d q w) = trace w
  /\ next_tx (wait_for_locks d q w) = next_tx w
  /\ acquire_wait (wait_for_locks d q w) = acquire_wait w.
Proof.
  unfold wait_for_locks. destruct (blocked d q w); [apply pass_time_keeps | done].
Qed.

Lemma store_call_value (d : Delegate) (q : Query) (w : World) (t : Table) :
  visible d w = Some t ->
  fst (store_call d q w) = value_of (run_query (model d) q t).
Proof.
  unfold visible, store_call. destruct (conn d) as [|tx].
  - intros [= <-]. cbn zeta.
    rewrite (proj1 (wait_for_locks_keeps d q w)).
    by destruct (run_query _ _ _) as [[v m]|e].
  - destruct (open_tx w) as [[tx' p]|]; [|done].
    destruct (Nat.eqb tx tx'); [|done].
    intros [= <-]. cbn zeta. by destruct (run_query _ _ _) as [[v [m|]]|e].
Qed.

Lemma store_call_closed (d : Delegate) (q : Query) (w : World) :
  visible d w = None ->
  store_call d q w = (rejected (refusal d w), emit (EvCall d q None) w).
Proof.
  unfold visible, store_call. destruct (conn d) as [|tx]; [done|].
  destruct (open_tx w) as [[tx' p]|]; [|done].
  by destruct (Nat.eqb tx tx').
Qed.

Lemma store_call_trace (d : Delegate) (q : Query) (w : World) :
  exists m, trace (snd (store_call d q w)) = trace w ++ [EvCall d q m].
Proof.
  unfold store_call. destruct (conn d) as [|tx].
  - cbn zeta. destruct (run_query _ _ _) as [[v m]|e]; eexists; simpl;
      by rewrite (proj1 (proj2 (wait_for_locks_keeps d q w))).
  - destruct (open_tx w) as [[tx' p]|]; [|eexists; reflexivity].
    destruct (Nat.eqb tx tx'); [|eexists; reflexivity].
    cbn zeta. destruct (run_query _ _ _) as [[v [m|]]|e]; eexists; try reflexivity.
    simpl. destruct (aborts e); [|done].
    by rewrite (proj1 (proj2 (abort_tx_keeps _))).
Qed.

(** A read is recorded as a call that writes nothing. *)
Lemma read_call_trace (d : Delegate) (q : Query) (w : World) :
  is_read q = true ->
  trace (snd (store_call d q w)) = trace w ++ [EvCall d q None].
Proof.
  intros Hq. destruct (store_call_trace d q w) as [m Hm]. rewrite Hm.
  assert (m = None) as ->; [|done].
  revert Hm. unfold store_call. destruct (conn d) as [|tx].
  - cbn zeta. destruct q; try done; simpl;
      rewrite (proj1 (proj2 (wait_for_locks_keeps _ _ w))); intros Hm;
      by apply app_inv_head in Hm as [= <-].
  - destruct (open_tx w) as [[tx' p]|];
      [|intros Hm; by apply app_inv_head in Hm as [= <-]].
    destruct (Nat.eqb tx tx'); [|intros Hm; by apply app_inv_head in Hm as [= <-]].
    cbn zeta. destruct q; try done; simpl; intros Hm;
      by apply app_inv_head in Hm as [= <-].
Qed.

(** The table a call leaves behind for its own delegate. *)
Lemma store_call_visible (d : Delegate) (q : Query) (w : World) (t : Table) :
  visible d w = Some t ->
  visible d (snd (store_call d q w)) =
    if call_aborts d q t then None
    else Some (match write_of (run_query (model d) q t) with
               | Some m => apply_mutation m t
               | None => t
               end).
Proof.
  unfold visible, store_call, call_aborts. destruct (conn d) as [|tx].
  - intros [= <-]. cbn zeta.
    rewrite (proj1 (wait_for_locks_keeps d q w)).
    destruct (run_query _ _ _) as [[v [m|]]|e]; simpl;
      rewrite ?(proj1 (wait_for_locks_keeps d q w)); try done.
    by rewrite db_get_set_eq.
  - destruct (open_tx w) as [[tx' p]|] eqn:Hopen; [|done].
    destruct (Nat.eqb tx tx') eqn:Htx; [|done].
    intros [= <-]. cbn zeta.
    destruct (run_query _ _ _) as [[v [m|]]|e]; simpl;
      rewrite ?Hopen, ?Htx; try done.
    + by rewrite view_write.
    + destruct (aborts e); simpl; [|by rewrite Hopen, Htx].
      unfold abort_tx. by rewrite Hopen.
Qed.

(** A call leaves the tables of the other models as they were, unless it
    aborts its transaction. *)
Lemma store_call_frame (d : Delegate) (q : Query) (w : World) (k : Kind) :
  k ≠ model d ->
  match visible d w with
  | Some t => call_aborts d q t = false
  | None => True
  end ->
  visible {| conn := conn d; model := k |} (snd (store_call d q w)) =
  visible {| conn := conn d; model := k |} w.
Proof.
  intros Hk. unfold visible, store_call, call_aborts. simpl.
  destruct (conn d) as [|tx].
  - intros _. cbn zeta. destruct (run_query _ _ _) as [[v m]|e]; simpl;
      rewrite ?(proj1 (wait_for_locks_keeps d q w)); [|done].
    by rewrite db_get_apply_ne.
  - destruct (open_tx w) as [[tx' p]|] eqn:Hopen; simpl; rewrite ?Hopen; [|done].
    destruct (Nat.eqb tx tx') eqn:Htx; simpl; rewrite ?Hopen, ?Htx; [|done].
    cbn zeta. destruct (run_query _ _ _) as [[v [m|]]|e]; simpl;
      rewrite ?Hopen, ?Htx; try done.
    + intros _. by rewrite view_app, view_changes_ne.
    + intros ->. by rewrite Hopen, Htx.
Qed.

(** A call through a transaction client leaves the committed rows alone. *)
Lemma store_call_scoped_committed (d : Delegate) (q : Query) (w : World) (tx : TransactionClient) :
  conn d = scoped tx -> committed (snd (store_call d q w)) = committed w.
Proof.
  intros Hd. unfold store_call. rewrite Hd.
  destruct (open_tx w) as [[tx' p]|]; [|done].
  destruct (Nat.eqb tx tx'); [|done].
  cbn zeta. destruct (run_query _ _ _) as [[v [m|]]|e]; try done.
  simpl. destruct (aborts e); [|done]. apply abort_tx_keeps.
Qed.

Lemma run_call_ret (d : Delegate) (q : Query) (w : World) :
  run (Call d q Ret) w = store_call d q w.
Proof. simpl. by destruct (store_call d q w) as [[v|e] w']. Qed.

Lemma run_NewDate {R : Type} (k : Z -> Prog R) (w : World) :
  run (NewDate k) w = run (k (clock w)) (tick w).
Proof. reflexivity. Qed.

Lemma tick_visible (d : Delegate) (w : World) : visible d (tick w) = visible d w.
Proof. reflexivity. Qed.

Lemma tick_refusal (d : Delegate) (w : World) : refusal d (tick w) = refusal d w.
Proof. reflexivity. Qed.
End StoreCalls.

(** ** Baseline operations *)

Section Baseline.
Context `{Collation}.

(** C10.  [exists(where, tx?)] issues one count capped at one row and
    answers whether it is positive; on the table the call reads, that is
    the same as the uncapped [count(where, tx?)] being positive, which
    holds exactly when some row matches the filter.  With a client that
    can take no call both calls are rejected alike. *)
Theorem exists_agrees_with_count (self : Repository) (where_ : option Where)
    (tx : option TransactionClient) (w : World) :
  let d := BaseRepository.resolve self tx in
  trace (snd (run (BaseRepository.exists_ self where_ tx) w))
    = trace w ++ [EvCall d (Count where_ (Some 1%nat)) None]
  /\ match visible d w with
     | Some t =>
         let n := size_of (select where_ t) in
         fst (run (BaseRepository.count self where_ tx) w) = fulfilled (JNumber n)
         /\ fst (run (BaseRepository.exists_ self where_ tx) w)
              = fulfilled (JBoolean (0 <? n))
         /\ ((0 <? n) = true <-> exists r, In r t /\ matches_opt where_ r = true)
     | None =>
         fst (run (BaseRepository.count self where_ tx) w) = rejected (refusal d w)
         /\ fst (run (BaseRepository.exists_ self where_ tx) w)
              = rejected (refusal d w)
     end.
Proof.
  intros d. unfold BaseRepository.exists_, BaseRepository.count. fold d.
  rewrite run_call_ret. simpl run. split.
  - pose proof (read_call_trace d (Count where_ (Some 1%nat)) w eq_refl) as Hm.
    by destruct (store_call d _ w) as [[v|e] w'].
  - destruct (visible d w) as [t|] eqn:Hv.
    + pose proof (store_call_value d (Count where_ None) w t Hv) as Hc.
      pose proof (store_call_value d (Count where_ (Some 1%nat)) w t Hv) as He.
      change (value_of (run_query (model d) (Count where_ (Some 1%nat)) t))
        with (fulfilled (JNumber (size_of (take_rows (Some 1%nat) (select where_ t)))))
        in He.
      split; [exact Hc|]. split.
      * destruct (store_call d (Count where_ (Some 1%nat)) w) as [[v|e] w'];
          cbn [fst] in He; [|done].
        injection He as ->. cbn [fst js_gt].
        exact (f_equal (fun b => fulfilled (JBoolean b))
                 (capped_count_positive (select where_ t))).
      * apply positive_size_iff.
    + rewrite !store_call_closed by done. done.
Qed.

(** C9.  [findById(id, tx?)] of any repository and
    [UsersRepository.findByEmail(email, tx?)] fulfil with a row of the
    table they read that carries the key when the table has one, and with
    [null] when it has none: a missing row is never an error.  The only
    rejection is the one of a client that can take no call. *)
Theorem find_absent_is_null (self : Repository) (id email : string)
    (tx : option TransactionClient) (w : World) :
  match visible (BaseRepository.resolve self tx) w with
  | Some t => found_or_null "id" (VStr id) t
                (fst (run (BaseRepository.findById self id tx) w))
  | None => fst (run (BaseRepository.findById self id tx) w)
              = rejected (refusal (BaseRepository.resolve self tx) w)
  end
  /\ match visible (UsersRepository.getDelegate tx) w with
     | Some t => found_or_null "email" (VStr email) t
                   (fst (run (UsersRepository.findByEmail email tx) w))
     | None => fst (run (UsersRepository.findByEmail email tx) w)
                 = rejected (refusal (UsersRepository.getDelegate tx) w)
     end.
Proof.
  assert (Hlookup : forall d f v,
    match visible d w with
    | Some t => found_or_null f v t
                  (fst (run (Call d (FindUnique (WAnd [key f v])) Ret) w))
    | None => fst (run (Call d (FindUnique (WAnd [key f v])) Ret) w)
                = rejected (refusal d w)
    end).
  { intros d f v. rewrite run_call_ret.
    destruct (visible d w) as [t|] eqn:Hv.
    - rewrite (store_call_value d _ w t Hv). cbn [run_query value_of].
      destruct (find_first (WAnd [key f v]) t) as [r|] eqn:Hf.
      + left. exists r. apply find_first_Some in Hf as [Hin Hm].
        by apply matches_key in Hm.
      + right. split; [done|]. intros r Hin Hk.
        apply (find_first_None _ _ Hf) in Hin.
        apply matches_key in Hk. congruence.
    - by rewrite store_call_closed. }
  split.
  - apply Hlookup.
  - replace (UsersRepository.findByEmail email tx)
      with (Call (UsersRepository.getDelegate tx)
              (FindUnique (WAnd [key "email" (VStr email)])) Ret)
      by by destruct tx.
    apply Hlookup.
Qed.

Lemma no_conflict_on_deletedAt (k : Kind) (v : Value) (t : Table) :
  conflicts k {[ "deletedAt" := v ]} t = false.
Proof.
  unfold conflicts.
  destruct k; simpl; by rewrite ?lookup_singleton_ne.
Qed.

Lemma patch_singleton (f : string) (v : Value) (r : Record) :
  patch {[ f := v ]} r = <[ f := v ]> r.
Proof. unfold patch. by rewrite insert_union_singleton_l. Qed.

(** An update that sets the deletion time aborts no transaction: it meets
    no unique column. *)
Lemma softDelete_aborts_nothing (d : Delegate) (w : Where) (now : Z) (t : Table) :
  call_aborts d (Update w {[ "deletedAt" := VDate now ]}) t = false.
Proof.
  unfold call_aborts. destruct (conn d); [done|]. cbn [run_query].
  destruct (find_first w t); [|done]. by rewrite no_conflict_on_deletedAt.
Qed.

(** C8.  [softDelete(id, tx?)] on the table it reads: when no row has the
    id it is rejected with NotFound and the table is as before; otherwise
    it fulfils with the first row carrying the id, its [deletedAt] set to
    the time read by [new Date()] and its other columns as they were, and
    the table differs in that row only.  The tables of the other models
    are as before. *)
Theorem softDelete_marks_one_row (self : Repository) (id : string)
    (tx : option TransactionClient) (w : World) :
  let d := BaseRepository.resolve self tx in
  let out := run (BaseRepository.softDelete self id tx) w in
  (forall k, k <> model d ->
     visible {| conn := conn d; model := k |} (snd out)
     = visible {| conn := conn d; model := k |} w)
  /\ match visible d w with
     | Some t =>
         ((forall r, In r t -> field r "id" <> VStr id)
          /\ fst out = rejected NotFound
          /\ visible d (snd out) = Some t)
         \/ (exists t1 r t2,
               let r' := <[ "deletedAt" := VDate (clock w) ]> r in
               t = t1 ++ r :: t2
               /\ (forall r0, In r0 t1 -> field r0 "id" <> VStr id)
               /\ field r "id" = VStr id
               /\ fst out = fulfilled (JRecord r')
               /\ visible d (snd out) = Some (t1 ++ r' :: t2)
               /\ r' !! "deletedAt" = Some (VDate (clock w))
               /\ forall f, f <> "deletedAt" -> r' !! f = r !! f)
     | None => fst out = rejected (refusal d w)
     end.
Proof.
  intros d out. subst out. unfold BaseRepository.softDelete. fold d.
  rewrite run_NewDate, run_call_ret.
  set (q := Update (WAnd [key "id" (VStr id)]) {[ "deletedAt" := VDate (clock w) ]}).
  split.
  - intros k Hk. rewrite store_call_frame; [done..|].
    destruct (visible d (tick w)); [apply softDelete_aborts_nothing | done].
  - rewrite <- (tick_visible d w), <- (tick_refusal d w).
    destruct (visible d (tick w)) as [t|] eqn:Hv; [|by rewrite store_call_closed].
    rewrite (store_call_value d q _ t Hv), (store_call_visible d q _ t Hv).
    subst q. rewrite softDelete_aborts_nothing. cbn [run_query].
    destruct (find_first (WAnd [key "id" (VStr id)]) t) as [r|] eqn:Hf.
    + right. rewrite no_conflict_on_deletedAt. cbn [value_of write_of apply_mutation].
      destruct (patch_first_split _ {[ "deletedAt" := VDate (clock w) ]} _ _ Hf)
        as (t1 & t2 & Ht & Hno & Hp).
      apply find_first_Some in Hf as [_ Hm]. apply matches_key in Hm.
      exists t1, r, t2. cbn zeta. rewrite Hp, patch_singleton.
      split; [done|]. split.
      { intros r0 Hin Hk. apply Hno in Hin. apply matches_key in Hk. congruence. }
      split; [done|]. split; [done|]. split; [done|]. split.
      * apply lookup_insert_eq.
      * intros f Hne. by rewrite lookup_insert_ne.
    + left. cbn [value_of write_of]. split; [|done].
      intros r Hin Hk. apply (find_first_None _ _ Hf) in Hin.
      apply matches_key in Hk. congruence.
Qed.
End Baseline.

(** ** Asynchronous code *)

Section Asynchronous.
Context `{Collation}.

Lemma effects_refl (w w' : World) :
  trace w' = trace w -> next_tx w' = next_tx w ->
  acquire_wait w' = acquire_wait w -> committed w' = committed w ->
  open_tx w' = open_tx w -> failed_tx w' = failed_tx w ->
  time_left w' = time_left w -> effects w w' [].
Proof.
  intros Ht Hn Ha Hc Ho Hf Hl. unfold effects, current_tx, timed_out. simpl.
  rewrite app_nil_r, Ho, Hf, Hl. repeat split; try done; try lia.
Qed.

Lemma writes_on_app (sel : Conn -> bool) (evs1 evs2 : list Event) :
  writes_on sel (evs1 ++ evs2) = writes_on sel evs1 ++ writes_on sel evs2.
Proof. apply flat_map_app. Qed.

Lemma replay_app (ms1 ms2 : list (Kind * Mutation)) (db : DB) :
  replay (ms1 ++ ms2) db = replay ms2 (replay ms1 db).
Proof. apply fold_left_app. Qed.

Lemma effects_trans (w w' w'' : World) (evs1 evs2 : list Event) :
  effects w w' evs1 -> effects w' w'' evs2 -> effects w w'' (evs1 ++ evs2).
Proof.
  intros (Ht1 & Hc1 & Hn1 & Ha1 & Hd1 & Hx1 & Hl1 & Ho1 & Hto1 & Hf1)
         (Ht2 & Hc2 & Hn2 & Ha2 & Hd2 & Hx2 & Hl2 & Ho2 & Hto2 & Hf2).
  unfold effects. rewrite !writes_on_app, replay_app, forallb_app.
  rewrite Ht2, Ht1, Hc1, Hc2, Hn2, Hn1, Ha2, Ha1, Hd2, Hd1, Hx2, Hx1.
  split; [by rewrite app_assoc|]. split; [done|]. split; [done|].
  split; [done|]. split; [done|]. split; [done|]. split; [lia|].
  split; [auto|]. split; [auto|].
  intros Hopen. rewrite Hf2 by done. apply Hf1.
  intros Hnone. by apply Hopen, Ho2.
Qed.

(** Time that goes by writes nothing and records nothing. *)
Lemma pass_time_effects (ms : Z) (w : World) : effects w (pass_time ms w) [].
Proof.
  unfold effects, pass_time. rewrite app_nil_r.
  destruct (time_left w <=? Z.max 0 ms).
  - unfold expire_tx, current_tx, timed_out. simpl.
    destruct (open_tx w) as [[tx p]|] eqn:Ho; simpl.
    + repeat split; try done; try lia.
    + destruct (failed_tx w) as [[tx e]|] eqn:Hf; simpl; rewrite ?Ho, ?Hf; simpl;
        repeat split; try done; try lia.
  - unfold current_tx, timed_out. simpl. repeat split; try done; try lia.
Qed.

Lemma store_call_effects (d : Delegate) (q : Query) (w : World) :
  exists m, effects w (snd (store_call d q w)) [EvCall d q m].
Proof.
  destruct d as [[|tx] k]; unfold store_call; cbn [conn model].
  - cbn zeta. set (w0 := wait_for_locks _ q w).
    assert (H0 : effects w w0 []).
    { unfold w0, wait_for_locks. destruct (blocked _ q w).
      - apply pass_time_effects.
      - by apply effects_refl. }
    destruct (run_query _ _ _) as [[v m]|e]; [exists m | exists None];
      (eapply (effects_trans w w0 _ [] [_]); [exact H0|]);
      unfold effects, writes_on, current_tx, timed_out; simpl.
    + repeat split; try done; try lia. destruct m; by rewrite ?app_nil_r.
    + repeat split; try done; try lia.
  - destruct (open_tx w) as [[tx' p]|] eqn:Hopen.
    + destruct (Nat.eqb tx tx').
      * cbn zeta. destruct (run_query _ _ _) as [[v [m|]]|e];
          [exists (Some m) | exists None | exists None];
          unfold effects, writes_on, current_tx, timed_out; simpl;
          rewrite ?Hopen, ?app_nil_r.
        -- repeat split; try done; try lia.
        -- repeat split; try done; try lia.
        -- destruct (aborts e); unfold abort_tx; rewrite ?Hopen; simpl;
             rewrite ?Hopen; repeat split; try done; try lia.
      * exists None. unfold effects, writes_on, current_tx, timed_out; simpl.
        rewrite ?Hopen, ?app_nil_r. repeat split; try done; try lia.
    + exists None. unfold effects, writes_on, current_tx, timed_out; simpl.
      rewrite ?Hopen. repeat split; try done; try lia.
Qed.

(** Whatever asynchronous code does to the database, it does through
    delegate calls: it opens no transaction and neither commits nor rolls
    one back, and its ambient writes reach the committed rows at once. *)
Lemma run_effects {R : Type} (p : Prog R) :
  forall w, exists evs, effects w (snd (run p w)) evs.
Proof.
  induction p as [R r|R e|R d q k IH|R k IH|A R body IHb handler IHh k IHk|R ms k IH];
    intros w; simpl.
  - exists []. by apply effects_refl.
  - exists []. by apply effects_refl.
  - destruct (store_call_effects d q w) as [m Hm].
    destruct (store_call d q w) as [[v|e] w']; simpl in *.
    + destruct (IH v w') as [evs Hevs]. eexists. eapply effects_trans; eauto.
    + eauto.
  - destruct (IH (clock w) (tick w)) as [evs Hevs]. exists evs.
    rewrite <- (app_nil_l evs). eapply effects_trans; [|exact Hevs].
    by apply effects_refl.
  - destruct (IHb w) as [evs1 H1].
    destruct (run body w) as [[a|e] w']; simpl in *.
    + destruct (IHk a w') as [evs2 H2]. eexists. eapply effects_trans; eauto.
    + destruct (IHh e w') as [evs2 H2].
      destruct (run (handler e) w') as [[a|e'] w'']; simpl in *.
      * destruct (IHk a w'') as [evs3 H3]. eexists.
        eapply effects_trans; [|exact H3]. eapply effects_trans; eauto.
      * eexists. eapply effects_trans; eauto.
  - destruct (IH (pass_time ms w)) as [evs Hevs]. exists evs.
    rewrite <- (app_nil_l evs). eapply effects_trans; [|exact Hevs].
    apply pass_time_effects.
Qed.

Lemma run_bind {A B : Type} (p : Prog A) (f : A -> Prog B) :
  forall w,
    run (bind p f) w =
    match run p w with
    | (fulfilled a, w') => run (f a) w'
    | (rejected e, w') => (rejected e, w')
    end.
Proof.
  revert B f.
  induction p as [R r|R e|R d q k IH|R k IH|A R body IHb handler IHh k IHk|R ms k IH];
    intros B f w; simpl; try done.
  - destruct (store_call d q w) as [[v|e] w']; [apply IH | done].
  - destruct (run body w) as [[a|e] w']; [apply IHk|].
    destruct (run (handler e) w') as [[a|e'] w'']; [apply IHk | done].
Qed.

(** ** Transactions *)

(** The world a transaction starts in. *)
Lemma begin_transaction_spec (options : option TxOptions) (w : World) :
  let b := begin_transaction options w in
  trace b = trace w ++ [EvBegin (next_tx w) options]
  /\ committed b = committed w
  /\ next_tx b = S (next_tx w)
  /\ acquire_wait b = acquire_wait w
  /\ time_left b = time_limit options
  /\ if 0 <? time_limit options
     then open_tx b = Some (next_tx w, []) /\ failed_tx b = None
     else open_tx b = None /\ failed_tx b = Some (next_tx w, Timeout).
Proof.
  cbn zeta. unfold begin_transaction, pass_time. cbn [Z.max time_left emit].
  change (Z.max 0 0) with 0. rewrite Z.sub_0_r.
  destruct (time_limit options <=? 0) eqn:Hl.
  - apply Z.leb_le in Hl. rewrite (proj2 (Z.ltb_ge _ _)) by lia.
    unfold expire_tx, current_tx. by simpl.
  - apply Z.leb_gt in Hl. rewrite (proj2 (Z.ltb_lt _ _)) by lia. by simpl.
Qed.

(** What [$transaction(fn, options)] does once the transaction is there:
    one run of [fn] with the new client, on the world the transaction
    starts in, and then the commit when [fn] fulfilled with the
    transaction still able to take calls, and nothing of what went through
    the transaction otherwise. *)
Lemma transaction_spec {T : Type} (fn : TransactionClient -> Prog T)
    (options : option TxOptions) (w : World) :
  let tx := next_tx w in
  let inner := run (fn tx) (begin_transaction options w) in
  let out := transaction fn options w in
  if max_wait options <? acquire_wait w
  then fst out = rejected Timeout
       /\ committed (snd out) = committed w
       /\ trace (snd out) = trace w
       /\ next_tx (snd out) = next_tx w
  else
    open_tx (snd out) = None
    /\ next_tx (snd out) = S tx
    /\ exists evs,
         trace (snd inner) = trace w ++ EvBegin tx options :: evs
         /\ forallb is_call evs = true
         /\ committed (snd inner) = replay (writes_on is_ambient evs) (committed w)
         /\ match fst inner with
            | fulfilled v =>
                match open_tx (snd inner) with
                | Some _ =>
                    fst out = fulfilled v
                    /\ (forall k,
                          visible {| conn := scoped tx; model := k |} (snd inner)
                          = Some (db_get k (committed (snd out))))
                    /\ trace (snd out) = trace (snd inner) ++ [EvCommit tx]
                | None =>
                    fst out = (if timed_out (snd inner) then rejected Timeout
                               else fulfilled v)
                    /\ committed (snd out) = committed (snd inner)
                    /\ trace (snd out) = trace (snd inner) ++ [EvRollback tx]
                    /\ exists e, failed_tx (snd inner) = Some (tx, e)
                end
            | rejected e =>
                fst out = rejected e
                /\ committed (snd out) = committed (snd inner)
                /\ trace (snd out) = trace (snd inner) ++ [EvRollback tx]
            end.
Proof.
  cbn zeta. unfold transaction.
  destruct (max_wait options <? acquire_wait w); [done|].
  destruct (begin_transaction_spec options w) as (Hbt & Hbc & Hbn & _ & _ & Hbo).
  cbn zeta in Hbt, Hbc, Hbn, Hbo.
  assert (Hcur : current_tx (begin_transaction options w) = Some (next_tx w)).
  { unfold current_tx.
    destruct (0 <? time_limit options); destruct Hbo as [-> Hbf]; [done|].
    by rewrite Hbf. }
  clear Hbo.
  destruct (run_effects (fn (next_tx w)) (begin_transaction options w))
    as (evs & Ht & Hc & Hn & _ & Hd & Hx & _).
  rewrite Hcur in Hx. rewrite Hbc in Hd.
  assert (Ht' : trace (snd (run (fn (next_tx w)) (begin_transaction options w)))
                = trace w ++ EvBegin (next_tx w) options :: evs)
    by (by rewrite Ht, Hbt, <- app_assoc).
  destruct (run (fn (next_tx w)) (begin_transaction options w)) as [[v|e] w'];
    cbn [fst snd] in *.
  - unfold settle_transaction, current_tx in *.
    destruct (open_tx w') as [[tx' p']|] eqn:Hopen.
    + injection Hx as ->.
      split; [done|]. split; [simpl; congruence|].
      exists evs. split; [exact Ht'|]. split; [exact Hc|]. split; [exact Hd|].
      split; [done|]. split; [|done].
      intros k. unfold visible. simpl. by rewrite Hopen, Nat.eqb_refl.
    + assert (Hf : exists e, failed_tx w' = Some (next_tx w, e)).
      { destruct (failed_tx w') as [[tx' e]|]; [|done].
        injection Hx as ->. by exists e. }
      destruct (timed_out w'); (split; [done|]); (split; [simpl; congruence|]);
        exists evs; (split; [exact Ht'|]); (split; [exact Hc|]);
        (split; [exact Hd|]); by repeat split.
  - split; [done|]. split; [simpl; congruence|].
    exists evs. split; [exact Ht'|]. split; [exact Hc|]. split; [exact Hd|].
    by repeat split.
Qed.



(** ** Bounds on waiting and running time *)



End Asynchronous.

Section AsynchronousExamples.
#[local] Existing Instance binary_collation.





(** The time limit holds for [execute] as well, with the client's five
    seconds. *)
Example slow_work_is_not_committed :
  let out := UnitOfWork.execute (register_slowly 6000) fresh_world in
  fst out = rejected Timeout /\ users (committed (snd out)) = [].
Proof. vm_compute. by split. Qed.

(** A work function that throws after the time limit is answered with
    its own error. *)
Example late_failure_keeps_its_error :
  let out := UnitOfWork.execute (wait_and_fail 6000) fresh_world in
  fst out = rejected (Exception "boom") /\ users (committed (snd out)) = [].
Proof. vm_compute. by split. Qed.
End AsynchronousExamples.

(** ** Batches *)

Section Batches.
Context `{Collation}.

Lemma db_set_get (k : Kind) (db : DB) : db_set k (db_get k db) db = db.
Proof. by destruct k, db. Qed.

Lemma db_set_set (k : Kind) (t1 t2 : Table) (db : DB) :
  db_set k t2 (db_set k t1 db) = db_set k t2 db.
Proof. by destruct k. Qed.

Lemma view_changes (k : Kind) (cs : list Change) (db : DB) :
  view (List.map (pair k) cs) db = db_set k (apply_changes cs (db_get k db)) db.
Proof.
  revert db. induction cs as [|c cs IH]; intros db; simpl.
  - by rewrite db_set_get.
  - rewrite IH. unfold db_change. by rewrite db_get_set_eq, db_set_set.
Qed.

(** The writes a transaction queues for a query give its view the
    database the query gives. *)
Lemma view_write_db (k : Kind) (m : Mutation) (p : Pending) (db : DB) :
  view (p ++ List.map (pair k) (changes_of m (db_get k (view p db)))) db
  = db_apply k (Some m) (view p db).
Proof.
  rewrite view_app, view_changes, apply_changes_of. done.
Qed.

(** Inside its transaction a batch is the sequential evaluation of its
    queries on the transaction's view; the committed rows stay as they
    are until the commit. *)
Lemma run_sequentially_eval (tx : TransactionClient) (ops : list PrismaPromise) :
  forall (w : World) (p : Pending),
    open_tx w = Some (tx, p) ->
    let out := run (run_sequentially tx ops) w in
    committed (snd out) = committed w
    /\ match eval_sequence ops (view p (committed w)) with
       | fulfilled (vs, db') =>
           fst out = fulfilled vs
           /\ exists p', open_tx (snd out) = Some (tx, p')
                         /\ view p' (committed w) = db'
       | rejected e => fst out = rejected e
       end.
Proof.
  induction ops as [|op ops IH]; intros w p Hopen; cbn zeta.
  - simpl. split; [done|]. split; [done|]. by exists p.
  - cbn [run_sequentially eval_sequence run]. unfold store_call. cbn [conn model].
    rewrite Hopen, Nat.eqb_refl. cbn zeta.
    destruct (run_query (pp_model op) (pp_query op)
                (db_get (pp_model op) (view p (committed w)))) as [[v [m|]]|e].
    + rewrite run_bind.
      set (w' := emit _ _).
      specialize (IH w' _ eq_refl). cbn zeta in IH.
      change (committed w') with (committed w) in IH.
      rewrite view_write_db in IH.
      destruct IH as [Hc IH].
      destruct (run (run_sequentially tx ops) w') as [[vs|e] w'']; cbn [fst snd] in *.
      * split; [exact Hc|].
        destruct (eval_sequence ops _) as [[vs' db']|e]; [|done].
        destruct IH as [[= ->] Hp]. by split.
      * split; [exact Hc|].
        destruct (eval_sequence ops _) as [[vs' db']|e']; [by destruct IH | done].
    + rewrite run_bind.
      set (w' := emit _ _).
      specialize (IH w' p Hopen). cbn zeta in IH.
      change (committed w') with (committed w) in IH.
      destruct IH as [Hc IH]. cbn [db_apply].
      destruct (run (run_sequentially tx ops) w') as [[vs|e] w'']; cbn [fst snd] in *.
      * split; [exact Hc|].
        destruct (eval_sequence ops _) as [[vs' db']|e]; [|done].
        destruct IH as [[= ->] Hp]. by split.
      * split; [exact Hc|].
        destruct (eval_sequence ops _) as [[vs' db']|e']; [by destruct IH | done].
    + split; [|done]. cbn [snd]. simpl.
      destruct (aborts e); [|done]. apply abort_tx_keeps.
Qed.

(** A batch as a whole: the sequential evaluation of its queries on the
    committed rows, applied entirely or not at all. *)
Lemma batch_eval (ops : list PrismaPromise) (w : World) :
  let out := UnitOfWork.batch ops w in
  match eval_sequence ops (committed w) with
  | fulfilled (vs, db') => fst out = fulfilled vs /\ committed (snd out) = db'
  | rejected e => fst out = rejected e /\ committed (snd out) = committed w
  end.
Proof.
  cbn zeta. unfold UnitOfWork.batch, transaction_array.
  destruct (begin_transaction_spec None w) as (_ & Hbc & _ & _ & _ & Hbo & _).
  cbn zeta in Hbc, Hbo. change (0 <? time_limit None) with true in Hbo.
  cbn iota in Hbo.
  pose proof (run_sequentially_eval (next_tx w) ops
                (begin_transaction None w) [] Hbo) as [Hc H'].
  cbn zeta in Hc, H'. rewrite Hbc in *.
  cbn [view fold_left] in H'.
  destruct (run (run_sequentially (next_tx w) ops) (begin_transaction None w))
    as [[vs|e] w']; cbn [fst snd] in *.
  - destruct (eval_sequence ops (committed w)) as [[vs' db']|e]; [|done].
    destruct H' as [[= ->] (p' & Hp & Hv)]. unfold settle_transaction.
    rewrite Hp. split; [done|].
    unfold commit_transaction. simpl. by rewrite Hp, Hc.
  - destruct (eval_sequence ops (committed w)) as [[vs' db']|e']; [by destruct H'|].
    injection H' as ->. by split.
Qed.

(** C4, as the code has it.  [batch(operations)] runs its operations one
    after the other in one transaction: when it fulfils, the values are
    those of the sequential evaluation and all the writes are committed;
    when a member operation fails it rejects with that error and the
    committed rows are the ones before the call, so no member operation
    has a visible effect. *)
Theorem batch_is_all_or_nothing (ops : list PrismaPromise) (w : World) :
  let out := UnitOfWork.batch ops w in
  match fst out with
  | fulfilled vs =>
      eval_sequence ops (committed w) = fulfilled (vs, committed (snd out))
  | rejected e =>
      eval_sequence ops (committed w) = rejected e
      /\ committed (snd out) = committed w
  end.
Proof.
  cbn zeta. pose proof (batch_eval ops w) as Hb. cbn zeta in Hb.
  destruct (eval_sequence ops (committed w)) as [[vs db']|e];
    destruct Hb as [-> <-]; done.
Qed.

Lemma read_no_write (k : Kind) (q : Query) (t : Table) :
  is_read q = true -> write_of (run_query k q t) = None.
Proof. by destruct q. Qed.

(** Operations without a data dependency settle, one after the other, as
    each does on the database none of them has touched. *)
Lemma eval_sequence_independent (db0 : DB) (ops : list PrismaPromise) :
  forall db,
    independent_from db0 ops db = true ->
    match eval_sequence ops db with
    | fulfilled (vs, _) =>
        Forall2 (fun op v => direct_value op db0 = fulfilled v) ops vs
    | rejected e =>
        exists i op, ops !! i = Some op /\ direct_value op db0 = rejected e
    end.
Proof.
  induction ops as [|op ops IH]; intros db Hind; [by constructor|].
  cbn [independent_from] in Hind. apply andb_true_iff in Hind as [Hop Hind].
  apply bool_decide_eq_true in Hop. unfold direct_value in Hop.
  cbn [eval_sequence].
  destruct (run_query (pp_model op) (pp_query op) (db_get (pp_model op) db))
    as [[v m]|e] eqn:Hq.
  - specialize (IH _ Hind).
    destruct (eval_sequence ops (db_apply (pp_model op) m db)) as [[vs db']|e].
    + constructor; [|done]. unfold direct_value. by rewrite <- Hop.
    + destruct IH as (i & op' & Hi & He). by exists (S i), op'.
  - exists 0%nat, op. split; [done|]. unfold direct_value. by rewrite <- Hop.
Qed.

Lemma separate_models_from (db0 : DB) (ops : list PrismaPromise) :
  forall db,
    (forall op, In op ops -> db_get (pp_model op) db = db_get (pp_model op) db0) ->
    on_separate_models ops = true ->
    independent_from db0 ops db = true.
Proof.
  induction ops as [|op ops IH]; intros db Hsame Hsep; [done|].
  cbn [on_separate_models independent_from] in *.
  apply andb_true_iff in Hsep as [Hop Hsep]. apply andb_true_iff. split.
  - apply bool_decide_eq_true. unfold direct_value.
    by rewrite (Hsame op (or_introl eq_refl)).
  - pose proof (read_no_write (pp_model op) (pp_query op)
                  (db_get (pp_model op) db)) as Hread.
    destruct (run_query (pp_model op) (pp_query op) (db_get (pp_model op) db))
      as [[v m]|e]; [|done].
    cbn [write_of] in Hread. apply IH; [|done].
    intros o Ho. rewrite <- (Hsame o (or_intror Ho)).
    destruct m as [m|]; [|done].
    apply db_get_apply_ne. apply orb_true_iff in Hop as [Hr|Hd].
    + by specialize (Hread Hr).
    + rewrite forallb_forall in Hd. specialize (Hd o Ho).
      apply negb_true_iff, bool_decide_eq_false in Hd. exact Hd.
Qed.

(** Operations none of which touches a model an earlier one writes have no
    data dependency. *)
Lemma separate_models_are_independent (ops : list PrismaPromise) (db : DB) :
  on_separate_models ops = true -> independent ops db = true.
Proof. intros Hsep. by apply separate_models_from. Qed.

(** C5.  For operations without a data dependency on one another, when
    each succeeds on its own [batch] fulfils with as many values as there
    are operations, and the value at each position is the one the
    operation at that position resolves to on its own; and when [batch]
    rejects, its error is the one an operation of the list is rejected
    with on its own. *)
Theorem batch_preserves_order (ops : list PrismaPromise) (w : World) :
  independent ops (committed w) = true ->
  (Forall (fun op => exists v, direct_value op (committed w) = fulfilled v) ops ->
   exists vs,
     fst (UnitOfWork.batch ops w) = fulfilled vs
     /\ length vs = length ops
     /\ forall (i : nat) (op : PrismaPromise),
          ops !! i = Some op ->
          exists v, vs !! i = Some v
                    /\ direct_value op (committed w) = fulfilled v)
  /\ (forall e,
        fst (UnitOfWork.batch ops w) = rejected e ->
        exists i op, ops !! i = Some op
                     /\ direct_value op (committed w) = rejected e).
Proof.
  intros Hind.
  pose proof (eval_sequence_independent (committed w) ops (committed w) Hind) as He.
  pose proof (batch_eval ops w) as Hb. cbn zeta in Hb.
  destruct (eval_sequence ops (committed w)) as [[vs db']|e].
  - destruct Hb as [Hout _]. split.
    + intros _. exists vs. split; [exact Hout|]. split.
      * symmetry. by eapply Forall2_length.
      * intros i op Hi. by eapply Forall2_lookup_l in He.
    + intros e. by rewrite Hout.
  - destruct Hb as [Hout _]. destruct He as (i & op & Hi & Hop). split.
    + intros Hok. rewrite Forall_lookup in Hok.
      destruct (Hok i op Hi) as [v Hv]. congruence.
    + intros e'. rewrite Hout. intros [= <-]. by exists i, op.
Qed.
End Batches.

Section BatchExamples.
#[local] Existing Instance binary_collation.

(** C4, as the claim has it, fails: a batch whose first operation creates
    a user and whose second one updates a plan that does not exist is
    rejected, and the user, whose creation on its own succeeds and is
    visible, is not there afterwards. *)
Lemma batch_rolls_back_earlier_members :
  let ops := [ {| pp_model := user; pp_query := Create alice |};
               {| pp_model := plan;
                  pp_query := Update (WAnd [key "id" (VStr "p9")]) monthly |} ] in
  users (committed (snd (run (UsersRepository.createUser alice None) fresh_world)))
    = [alice]
  /\ fst (UnitOfWork.batch ops fresh_world) = rejected NotFound
  /\ users (committed (snd (UnitOfWork.batch ops fresh_world))) = [].
Proof. vm_compute. by repeat split. Qed.

Lemma batch_preserves_order_witness :
  let ops := [ {| pp_model := user; pp_query := Create alice |};
               {| pp_model := user; pp_query := Create bob |};
               {| pp_model := academy; pp_query := Count None None |} ] in
  independent ops (committed fresh_world) = true
  /\ exists vs,
       fst (UnitOfWork.batch ops fresh_world) = fulfilled vs
       /\ length vs = length ops
       /\ forall (i : nat) (op : PrismaPromise),
            ops !! i = Some op ->
            exists v, vs !! i = Some v
                      /\ direct_value op (committed fresh_world) = fulfilled v.
Proof.
  cbn zeta. split; [vm_compute; reflexivity|].
  apply batch_preserves_order; [vm_compute; reflexivity|].
  repeat constructor; eexists; reflexivity.
Defined.

End BatchExamples.

(** ** The scenarios of the guide *)

Section Scenarios.
#[local] Existing Instance binary_collation.

(** A unit of work that creates a user and its token commits both. *)
Example registration_commits :
  let out := UnitOfWork.execute register_user_with_token fresh_world in
  fst out = fulfilled (JRecord alice)
  /\ users (committed (snd out)) = [alice]
  /\ refreshTokens (committed (snd out)) = [token_of_alice].
Proof. vm_compute. by repeat split. Qed.

(** A unit of work that fails after two writes leaves neither. *)
Example failed_registration_leaves_nothing :
  let out := UnitOfWork.execute register_then_fail fresh_world in
  fst out = rejected (Exception "boom")
  /\ committed (snd out) = empty_db
  /\ fst (run (UsersRepository.findByEmail "alice@x.com" None) (snd out))
       = fulfilled JNull.
Proof. vm_compute. by repeat split. Qed.

(** Creating two users with one email is a constraint violation. *)
Example duplicate_email_is_rejected :
  let w := snd (run (UsersRepository.createUser alice None) fresh_world) in
  fst (run (UsersRepository.createUser
              {[ "id" := VStr "u2"; "email" := VStr "alice@x.com" ]} None) w)
  = rejected ConstraintViolation.
Proof. vm_compute. reflexivity. Qed.

(** Updating a row that does not exist is NotFound. *)
Example update_of_missing_row :
  fst (run (BaseRepository.update UsersRepository.self "nobody" alice None)
         fresh_world)
  = rejected NotFound.
Proof. vm_compute. reflexivity. Qed.
End Scenarios.

(** ** Scope threading *)

(** The delegate resolution of the users and refresh-token repositories
    follows the scope argument of the call. *)
Lemma getDelegate_follows_scope (tx : option TransactionClient) :
  BaseRepository.resolve UsersRepository.self tx
    = {| conn := scope_conn tx; model := user |}
  /\ BaseRepository.resolve RefreshTokenRepository.self tx
    = {| conn := scope_conn tx; model := userRefreshToken |}.
Proof. by destruct tx. Qed.

(** The one of the academies and plans repositories does not. *)
Lemma getDelegate_without_parameter (tx : option TransactionClient) :
  BaseRepository.resolve AcademiesRepository.self tx
    = {| conn := ambient; model := academy |}
  /\ BaseRepository.resolve PlansRepository.self tx
    = {| conn := ambient; model := plan |}.
Proof. by destruct tx. Qed.

(** The methods of the users repository send their one call on the
    connection of the scope argument. *)
Lemma users_methods_thread_scope (email id : string) (data : Record)
    (tx : option TransactionClient) :
  let d := {| conn := scope_conn tx; model := user |} in
  UsersRepository.findByEmail email tx
    = Call d (FindUnique (WAnd [key "email" (VStr email)])) Ret
  /\ UsersRepository.findActiveByEmail email tx
    = Call d (FindFirst (WAnd [key "email" (VStr email); key "deletedAt" VNull])) Ret
  /\ UsersRepository.createUser data tx = Call d (Create data) Ret
  /\ UsersRepository.updateUser id data tx
    = Call d (Update (WAnd [key "id" (VStr id)]) data) Ret.
Proof. by destruct tx. Qed.

Lemma academies_methods_are_ambient (latDeltaOf : Z -> Z) (lonDeltaOf : Z -> Z -> Z)
    (slug id : string) (latitude longitude : Z) (radiusKm : option Z)
    (data : Record) :
  let d := {| conn := ambient; model := academy |} in
  (exists q, AcademiesRepository.findBySlug slug = Call d q Ret)
  /\ (exists q, AcademiesRepository.findActiveAcademies = Call d q Ret)
  /\ (exists q, AcademiesRepository.searchByLocation latDeltaOf lonDeltaOf
                  latitude longitude radiusKm = Call d q Ret)
  /\ AcademiesRepository.createAcademy data = Call d (Create data) Ret
  /\ AcademiesRepository.updateAcademy id data
     = Call d (Update (WAnd [key "id" (VStr id)]) data) Ret.
Proof. cbn zeta. repeat split; try done; eexists; reflexivity. Qed.

Section ScopeThreading.
Context `{Collation}.

Lemma tokens_methods_thread_scope (id : string) (data : Record)
    (tx : option TransactionClient) (w : World) :
  let d := {| conn := scope_conn tx; model := userRefreshToken |} in
  RefreshTokenRepository.createToken data tx = Call d (Create data) Ret
  /\ run (RefreshTokenRepository.revokeToken id tx) w
    = store_call d (Update (WAnd [key "id" (VStr id)])
                      {[ "revokedAt" := VDate (clock w) ]}) (tick w).
Proof.
  destruct tx; (split; [done|]);
    unfold RefreshTokenRepository.revokeToken;
    by rewrite run_NewDate, run_call_ret.
Qed.

(** The methods of the academies and plans repositories have no scope
    parameter; their one call goes to the ambient connection whatever
    transaction is open. *)
Lemma plans_methods_are_ambient (id : string) (data : Record) (w : World) :
  exists m1 m2,
    trace (snd (run (PlansRepository.createPlan data) w))
      = trace w ++ [EvCall {| conn := ambient; model := plan |} (Create data) m1]
    /\ trace (snd (run (PlansRepository.updatePlan id data) w))
      = trace w ++ [EvCall {| conn := ambient; model := plan |}
                      (Update (WAnd [key "id" (VStr id)]) data) m2].
Proof.
  unfold PlansRepository.createPlan, PlansRepository.updatePlan.
  rewrite !run_call_ret.
  destruct (store_call_trace {| conn := ambient; model := plan |} (Create data) w)
    as [m1 H1].
  destruct (store_call_trace {| conn := ambient; model := plan |}
              (Update (WAnd [key "id" (VStr id)]) data) w) as [m2 H2].
  by exists m1, m2.
Qed.

(** Transaction control stays with the unit of work all the same: no
    asynchronous code, so no repository method, opens a transaction,
    commits one or rolls one back; the transaction it runs in is the same
    before and after, and where none is open none is open afterwards. *)
Lemma repositories_never_control_transactions {R : Type} (p : Prog R) (w : World) :
  exists evs,
    trace (snd (run p w)) = trace w ++ evs
    /\ forallb is_call evs = true
    /\ next_tx (snd (run p w)) = next_tx w
    /\ current_tx (snd (run p w)) = current_tx w
    /\ (open_tx w = None -> open_tx (snd (run p w)) = None).
Proof.
  destruct (run_effects p w) as (evs & Ht & Hc & Hn & _ & _ & Hx & _ & Ho & _).
  by exists evs.
Qed.

(** ** Numbering of transactions *)

Lemma calls_are_numbered (n : TransactionClient) (evs : list Event) :
  forallb is_call evs = true ->
  forallb (fun ev => match ev with
                     | EvBegin t _ | EvCommit t | EvRollback t => Nat.ltb t n
                     | EvCall _ _ _ => true
                     end) evs = true.
Proof.
  induction evs as [|ev evs IH]; [done|]. simpl.
  rewrite !andb_true_iff. intros [Hev Hevs]. split; [|by apply IH].
  by destruct ev.
Qed.

(** Every transaction leaves the numbering in order, so the next
    transaction again gets a client no earlier one had. *)
Lemma transaction_keeps_numbering {T : Type} (fn : TransactionClient -> Prog T)
    (options : option TxOptions) (w : World) :
  well_numbered w = true ->
  well_numbered (snd (transaction fn options w)) = true.
Proof.
  intros Hwf. pose proof (transaction_spec fn options w) as Hs. cbn zeta in Hs.
  destruct (max_wait options <? acquire_wait w).
  { destruct Hs as (_ & _ & Ht & Hn). unfold well_numbered in *.
    by rewrite Ht, Hn. }
  destruct Hs as (_ & Hn & evs & Ht & Hc & _ & Hs).
  assert (Hout : exists ev,
             trace (snd (transaction fn options w))
             = trace w ++ EvBegin (next_tx w) options :: evs ++ [ev]
             /\ (ev = EvCommit (next_tx w) \/ ev = EvRollback (next_tx w))).
  { destruct (fst (run (fn (next_tx w)) (begin_transaction options w))).
    - destruct (open_tx (snd (run (fn (next_tx w)) (begin_transaction options w)))).
      + destruct Hs as (_ & _ & ->). rewrite Ht, <- app_assoc. eauto.
      + destruct Hs as (_ & _ & -> & _). rewrite Ht, <- app_assoc. eauto.
    - destruct Hs as (_ & _ & ->). rewrite Ht, <- app_assoc. eauto. }
  destruct Hout as (ev & Hout & Hev).
  unfold well_numbered in *. rewrite Hout, Hn.
  rewrite forallb_app. apply andb_true_iff. split.
  - rewrite forallb_forall in *. intros ev' Hin. specialize (Hwf ev' Hin).
    destruct ev' as [t o|t|t|d q m]; try done;
      apply Nat.ltb_lt in Hwf; apply Nat.ltb_lt; lia.
  - cbn [forallb]. rewrite forallb_app. rewrite !andb_true_iff. split.
    + apply Nat.ltb_lt. lia.
    + split; [by apply calls_are_numbered|].
      simpl. rewrite andb_true_r.
      destruct Hev as [-> | ->]; apply Nat.ltb_lt; lia.
Qed.
End ScopeThreading.

Section ScopeExamples.
#[local] Existing Instance binary_collation.

(** C2, on an input the code gets wrong.  A unit of work creates a user
    through its scope, creates a plan with [PlansRepository.createPlan],
    which has no scope parameter, and throws: the user is rolled back, the
    plan stays. *)
Theorem createPlan_escapes_the_unit_of_work :
  let out := UnitOfWork.execute user_and_plan_then_fail fresh_world in
  fst out = rejected (Exception "boom")
  /\ users (committed (snd out)) = []
  /\ plans (committed (snd out)) = [monthly]
  /\ trace (snd out)
     = [ EvBegin 0%nat None;
         EvCall {| conn := scoped 0%nat; model := user |} (Create alice)
           (Some (Insert alice));
         EvCall {| conn := ambient; model := plan |} (Create monthly)
           (Some (Insert monthly));
         EvRollback 0%nat ].
Proof. vm_compute. by repeat split. Qed.

(** C7, on an input the code gets wrong.  With a scope,
    [AcademiesRepository] and [PlansRepository] still resolve the ambient
    delegate, so a row created through [create(data, tx)] survives the
    rollback of [tx]. *)
Theorem getDelegate_drops_the_scope :
  BaseRepository.resolve AcademiesRepository.self (Some 7%nat)
    = {| conn := ambient; model := academy |}
  /\ BaseRepository.resolve PlansRepository.self (Some 7%nat)
    = {| conn := ambient; model := plan |}
  /\ BaseRepository.resolve UsersRepository.self (Some 7%nat)
    = {| conn := scoped 7%nat; model := user |}
  /\ let out := UnitOfWork.execute academy_in_scope_then_fail fresh_world in
     fst out = rejected (Exception "boom")
     /\ academies (committed (snd out)) = [gym].
Proof. vm_compute. by repeat split. Qed.

(** C6, on an input the code gets wrong.  [softDelete("p1", tx)] of the
    plans repository, called inside a unit of work with its scope, is
    executed on the ambient connection: the trace has the call outside
    the scope, and the plan is still marked deleted after the rollback. *)
Theorem softDelete_of_plan_runs_outside_its_scope :
  let out := UnitOfWork.execute soft_delete_plan_then_fail world_with_plan in
  let data := {[ "deletedAt" := VDate 1001 ]} in
  fst out = rejected (Exception "boom")
  /\ plans (committed (snd out)) = [ <[ "deletedAt" := VDate 1001 ]> monthly ]
  /\ trace (snd out)
     = [ EvBegin 0%nat None;
         EvCall {| conn := ambient; model := plan |}
           (Update (WAnd [key "id" (VStr "p1")]) data)
           (Some (PatchFirst (WAnd [key "id" (VStr "p1")]) data));
         EvRollback 0%nat ].
Proof. vm_compute. by repeat split. Qed.
End ScopeExamples.

(** * Further properties of the repositories and their callers *)

(** ** Reading *)

Section Reading.
Context `{Collation}.

Lemma run_Call {R : Type} (d : Delegate) (q : Query) (k : JsVal -> Prog R)
    (w : World) :
  run (Call d q k) w =
  match store_call d q w with
  | (fulfilled v, w') => run (k v) w'
  | (rejected e, w') => (rejected e, w')
  end.
Proof. reflexivity. Qed.

Lemma read_never_aborts (d : Delegate) (q : Query) (t : Table) :
  is_read q = true -> call_aborts d q t = false.
Proof. unfold call_aborts. destruct (conn d), q; try done; simpl; by destruct (find_first _ _). Qed.

(** A read leaves the table it reads as it is. *)
Lemma read_keeps_visible (d : Delegate) (q : Query) (w : World) :
  is_read q = true ->
  visible d (snd (store_call d q w)) = visible d w.
Proof.
  intros Hq. destruct (visible d w) as [t|] eqn:Hv.
  - rewrite (store_call_visible d q w t Hv).
    by rewrite read_never_aborts, read_no_write.
  - by rewrite store_call_closed.
Qed.

(** [findMany(where, undefined, tx?)] lists exactly the rows of the table
    that match the filter, and [count(where, tx?)] is the length of that
    list. *)
Theorem findMany_lists_what_count_counts (self : Repository)
    (where_ : option Where) (tx : option TransactionClient) (w : World) :
  let d := BaseRepository.resolve self tx in
  match visible d w with
  | Some t =>
      exists rows,
        fst (run (BaseRepository.findMany self where_ None tx) w)
          = fulfilled (JArray rows)
        /\ fst (run (BaseRepository.count self where_ tx) w)
          = fulfilled (JNumber (size_of rows))
        /\ forall r, In r rows <-> In r t /\ matches_opt where_ r = true
  | None =>
      fst (run (BaseRepository.findMany self where_ None tx) w)
        = rejected (refusal d w)
      /\ fst (run (BaseRepository.count self where_ tx) w)
        = rejected (refusal d w)
  end.
Proof.
  intros d. unfold BaseRepository.findMany, BaseRepository.count. fold d.
  rewrite !run_call_ret.
  destruct (visible d w) as [t|] eqn:Hv.
  - exists (select where_ t).
    rewrite !(store_call_value d _ w t Hv).
    split; [done|]. split; [done|].
    intros r. unfold select. by rewrite filter_In.
  - by rewrite !store_call_closed.
Qed.

(** ** Writing *)

Lemma find_first_none_iff (w : Where) (t : Table) :
  find_first w t = None <-> forall r, In r t -> matches w r = false.
Proof.
  split; [apply find_first_None|].
  induction t as [|x t IH]; simpl; [done|]. intros Hall.
  rewrite (Hall x (or_introl eq_refl)). apply IH. intros r Hr. apply Hall. by right.
Qed.

Lemma find_first_app (w : Where) (t1 t2 : Table) :
  (forall r, In r t1 -> matches w r = false) ->
  find_first w (t1 ++ t2) = find_first w t2.
Proof.
  induction t1 as [|x t1 IH]; simpl; [done|]. intros Hall.
  rewrite (Hall x (or_introl eq_refl)). apply IH. intros r Hr. apply Hall. by right.
Qed.

Lemma key_mismatch (f : string) (v : Value) (r : Record) :
  matches (WAnd [key f v]) r = false <-> field r f <> v.
Proof.
  rewrite <- matches_key. by destruct (matches (WAnd [key f v]) r).
Qed.

(** A row accepted by the constraint check shares no non-null value of a
    unique column with the rows of the table. *)
Lemma accepted_row_is_new (k : Kind) (f : string) (data : Record) (t : Table)
    (v : Value) :
  In f (unique_fields k) ->
  conflicts k data t = false ->
  data !! f = Some v -> v <> VNull ->
  forall r, In r t -> field r f <> v.
Proof.
  unfold conflicts. intros Hf Hc Hd Hv r Hr Heq.
  assert (Hex : existsb
    (fun f => match data !! f with
              | Some v => negb (value_eqb v VNull)
                          && existsb (fun r => value_eqb (field r f) v) t
              | None => false
              end) (unique_fields k) = true); [|congruence].
  apply existsb_exists. exists f. split; [done|]. rewrite Hd.
  apply andb_true_iff. split.
  - unfold value_eqb. by rewrite bool_decide_eq_false_2.
  - apply existsb_exists. exists r. split; [done|].
    unfold value_eqb. by apply bool_decide_eq_true.
Qed.

Lemma id_is_unique (k : Kind) : In "id" (unique_fields k).
Proof. destruct k; simpl; auto. Qed.

(** A rejected call leaves the committed rows as they are. *)
Lemma rejected_call_commits_nothing (d : Delegate) (q : Query) (w : World) (e : Error) :
  fst (store_call d q w) = rejected e ->
  committed (snd (store_call d q w)) = committed w.
Proof.
  destruct (conn d) as [|tx] eqn:Hd.
  - unfold store_call. rewrite Hd. cbn zeta.
    destruct (run_query _ _ _) as [[v m]|e']; [done|]. intros _. simpl.
    apply wait_for_locks_keeps.
  - intros _. by apply (store_call_scoped_committed d q w tx).
Qed.

(** [create(data, tx?)] then [findById(data.id, tx?)] on the same
    connection: when a unique column of [data] is already taken the
    creation is rejected as a constraint violation and nothing is written;
    outside a transaction the table is as before, and a transaction the
    call went through is aborted and answers no further call.  Otherwise
    the row is appended and the lookup by its id returns exactly that
    row. *)
Theorem create_then_findById (self : Repository) (data : Record) (id : string)
    (tx : option TransactionClient) (w : World) (t : Table) :
  let d := BaseRepository.resolve self tx in
  let out := run (BaseRepository.create self data tx) w in
  visible d w = Some t ->
  data !! "id" = Some (VStr id) ->
  if conflicts (model d) data t
  then fst out = rejected ConstraintViolation
       /\ committed (snd out) = committed w
       /\ visible d (snd out)
          = match conn d with ambient => Some t | scoped _ => None end
  else fst out = fulfilled (JRecord data)
       /\ visible d (snd out) = Some (t ++ [data])
       /\ fst (run (BaseRepository.findById self id tx) (snd out))
          = fulfilled (JRecord data).
Proof.
  intros d out Hv Hid. subst out.
  unfold BaseRepository.create, BaseRepository.findById. fold d.
  rewrite !run_call_ret.
  pose proof (store_call_value d (Create data) w t Hv) as Hval.
  pose proof (store_call_visible d (Create data) w t Hv) as Hvis.
  unfold call_aborts in Hvis. cbn [run_query] in Hval, Hvis.
  destruct (conflicts (model d) data t) eqn:Hc; cbn [value_of write_of] in *.
  - split; [done|]. split; [by eapply rejected_call_commits_nothing|].
    rewrite Hvis. by destruct (conn d).
  - assert (Hvis' : visible d (snd (store_call d (Create data) w))
                    = Some (t ++ [data])) by (rewrite Hvis; by destruct (conn d)).
    split; [done|]. split; [done|].
    rewrite (store_call_value d _ _ _ Hvis'). cbn [run_query value_of apply_mutation].
    rewrite find_first_app.
    + simpl. unfold field, value_eqb. rewrite Hid. simpl.
      by rewrite bool_decide_eq_true_2.
    + intros r Hr. apply key_mismatch.
      eapply (accepted_row_is_new (model d) "id"); eauto using id_is_unique.
Qed.

(** [delete(id, tx?)]: rejected with NotFound, the table unchanged, when
    no row has the id; otherwise it fulfils with the first row carrying
    the id and the table loses that row and no other.  When no later row
    carries the id a lookup by it then returns [null]. *)
Theorem delete_removes_one_row (self : Repository) (id : string)
    (tx : option TransactionClient) (w : World) :
  let d := BaseRepository.resolve self tx in
  let out := run (BaseRepository.delete self id tx) w in
  match visible d w with
  | Some t =>
      ((forall r, In r t -> field r "id" <> VStr id)
       /\ fst out = rejected NotFound
       /\ visible d (snd out) = Some t)
      \/ (exists t1 r t2,
            t = t1 ++ r :: t2
            /\ (forall r0, In r0 t1 -> field r0 "id" <> VStr id)
            /\ field r "id" = VStr id
            /\ fst out = fulfilled (JRecord r)
            /\ visible d (snd out) = Some (t1 ++ t2)
            /\ ((forall r0, In r0 t2 -> field r0 "id" <> VStr id) ->
                fst (run (BaseRepository.findById self id tx) (snd out))
                = fulfilled JNull))
  | None => fst out = rejected (refusal d w)
  end.
Proof.
  intros d out. subst out.
  unfold BaseRepository.delete, BaseRepository.findById. fold d.
  rewrite !run_call_ret.
  destruct (visible d w) as [t|] eqn:Hv; [|by rewrite store_call_closed].
  pose proof (store_call_value d (Delete (WAnd [key "id" (VStr id)])) w t Hv) as Hval.
  pose proof (store_call_visible d (Delete (WAnd [key "id" (VStr id)])) w t Hv) as Hvis.
  unfold call_aborts in Hvis. cbn [run_query] in Hval, Hvis.
  destruct (find_first (WAnd [key "id" (VStr id)]) t) as [r|] eqn:Hf;
    cbn [value_of write_of apply_mutation aborts] in *.
  - assert (Hvis' : visible d (snd (store_call d (Delete (WAnd [key "id" (VStr id)])) w))
                    = Some (remove_first (WAnd [key "id" (VStr id)]) t))
      by (rewrite Hvis; by destruct (conn d)).
    clear Hvis.
    right. destruct (first_match_split _ _ _ Hf) as (t1 & t2 & Ht & Hno & Hm & Hrm & _).
    exists t1, r, t2. rewrite Hrm in Hvis'.
    split; [done|]. split; [intros r0 Hr0; by apply key_mismatch, Hno|].
    split; [by apply matches_key|]. split; [done|]. split; [done|].
    intros Hlater. rewrite (store_call_value d _ _ _ Hvis'). cbn [run_query value_of].
    replace (find_first (WAnd [key "id" (VStr id)]) (t1 ++ t2)) with (@None Record);
      [done|].
    symmetry. apply find_first_none_iff. intros r0 Hr0. apply key_mismatch.
    apply in_app_or in Hr0 as [Hr0|Hr0]; [by apply key_mismatch, Hno | by apply Hlater].
  - left. split; [|split; [done|rewrite Hvis; by destruct (conn d)]].
    intros r Hr. apply key_mismatch.
    by apply (find_first_None _ _ Hf).
Qed.

(** [update(id, data, tx?)]: NotFound and no change when no row has the
    id; a constraint violation and nothing written when [data] would give
    the row a unique value another row has (outside a transaction the
    table is as before; a transaction the call went through is aborted and
    answers no further call); otherwise the first row with the id takes
    the columns of [data] and keeps its other columns, and no other row
    changes. *)
Theorem update_patches_one_row (self : Repository) (id : string) (data : Record)
    (tx : option TransactionClient) (w : World) :
  let d := BaseRepository.resolve self tx in
  let out := run (BaseRepository.update self id data tx) w in
  match visible d w with
  | Some t =>
      ((forall r, In r t -> field r "id" <> VStr id)
       /\ fst out = rejected NotFound
       /\ visible d (snd out) = Some t)
      \/ (exists t1 r t2,
            t = t1 ++ r :: t2
            /\ (forall r0, In r0 t1 -> field r0 "id" <> VStr id)
            /\ field r "id" = VStr id
            /\ if conflicts (model d) data (t1 ++ t2)
               then fst out = rejected ConstraintViolation
                    /\ committed (snd out) = committed w
                    /\ visible d (snd out)
                       = match conn d with ambient => Some t | scoped _ => None end
               else fst out = fulfilled (JRecord (patch data r))
                    /\ visible d (snd out) = Some (t1 ++ patch data r :: t2)
                    /\ forall f, patch data r !! f
                                 = match data !! f with
                                   | Some v => Some v
                                   | None => r !! f
                                   end)
  | None => fst out = rejected (refusal d w)
  end.
Proof.
  intros d out. subst out. unfold BaseRepository.update. fold d.
  rewrite run_call_ret.
  destruct (visible d w) as [t|] eqn:Hv; [|by rewrite store_call_closed].
  set (q := Update (WAnd [key "id" (VStr id)]) data).
  pose proof (store_call_value d q w t Hv) as Hval.
  pose proof (store_call_visible d q w t Hv) as Hvis.
  pose proof (rejected_call_commits_nothing d q w) as Hrej.
  unfold call_aborts in Hvis. subst q. cbn [run_query] in Hval, Hvis.
  destruct (find_first (WAnd [key "id" (VStr id)]) t) as [r|] eqn:Hf.
  - right.
    destruct (first_match_split _ _ _ Hf) as (t1 & t2 & Ht & Hno & Hm & Hrm & Hp).
    exists t1, r, t2. rewrite Hrm in Hval, Hvis.
    split; [done|]. split; [intros r0 Hr0; by apply key_mismatch, Hno|].
    split; [by apply matches_key|].
    destruct (conflicts (model d) data (t1 ++ t2));
      cbn [value_of write_of apply_mutation aborts] in *.
    + split; [done|]. split; [by eapply Hrej|]. rewrite Hvis. by destruct (conn d).
    + rewrite Hp in Hvis. split; [done|].
      split; [rewrite Hvis; by destruct (conn d)|].
      intros f. unfold patch. rewrite lookup_union.
      by destruct (data !! f), (r !! f).
  - left. cbn [value_of write_of aborts] in *.
    split; [|split; [done|rewrite Hvis; by destruct (conn d)]].
    intros r Hr. apply key_mismatch. by apply (find_first_None _ _ Hf).
Qed.
End Reading.

Section ReadingExamples.
#[local] Existing Instance binary_collation.

Lemma create_then_findById_witness :
  visible (BaseRepository.resolve UsersRepository.self None) fresh_world = Some []
  /\ alice !! "id" = Some (VStr "u1")
  /\ fst (run (BaseRepository.findById UsersRepository.self "u1" None)
            (snd (run (BaseRepository.create UsersRepository.self alice None)
                    fresh_world)))
     = fulfilled (JRecord alice).
Proof.
  split; [reflexivity|]. split; [reflexivity|].
  pose proof (create_then_findById UsersRepository.self alice "u1" None
                fresh_world [] eq_refl eq_refl) as H.
  exact (proj2 (proj2 H)).
Defined.
End ReadingExamples.

(** ** Users and their tokens *)

Lemma users_resolve (tx : option TransactionClient) :
  BaseRepository.resolve UsersRepository.self tx = UsersRepository.getDelegate tx.
Proof. by destruct tx. Qed.

Lemma email_is_unique : In "email" (unique_fields user).
Proof. simpl. auto. Qed.

Lemma tokens_resolve (tx : option TransactionClient) :
  RefreshTokenRepository.getDelegate tx
  = {| conn := scope_conn tx; model := userRefreshToken |}.
Proof. by destruct tx. Qed.

Lemma forallb_last_false {A : Type} (f : A -> bool) (l : list A) (x : A) :
  f x = false -> forallb f (l ++ [x]) = false.
Proof. intros Hx. rewrite forallb_app. simpl. by rewrite Hx, andb_false_r. Qed.

Section UsersAndTokens.
Context `{Collation}.

(** A user created through the scope of an open transaction is read back
    through that scope at once, by its email, while the rows outside any
    scope, and so every lookup outside the scope, stay as they were.  A
    creation that breaks a unique column is rejected and changes
    nothing. *)
Theorem createUser_in_scope_is_private (data : Record) (email : string)
    (tx : TransactionClient) (p : Pending) (w : World) :
  let t := db_get user (view p (committed w)) in
  let out := run (UsersRepository.createUser data (Some tx)) w in
  open_tx w = Some (tx, p) ->
  data !! "email" = Some (VStr email) ->
  committed (snd out) = committed w
  /\ (forall e, fst (run (UsersRepository.findByEmail e None) (snd out))
                = fst (run (UsersRepository.findByEmail e None) w))
  /\ if conflicts user data t
     then fst out = rejected ConstraintViolation
     else fst out = fulfilled (JRecord data)
          /\ fst (run (UsersRepository.findByEmail email (Some tx)) (snd out))
             = fulfilled (JRecord data).
Proof.
  intros t out Hopen Hemail. subst out.
  unfold UsersRepository.createUser, UsersRepository.findByEmail.
  rewrite !run_call_ret.
  set (d := {| conn := scoped tx; model := user |}).
  set (a := {| conn := ambient; model := user |}).
  assert (Hv : visible d w = Some t).
  { unfold visible. simpl. by rewrite Hopen, Nat.eqb_refl. }
  assert (Hc : committed (snd (store_call d (Create data) w)) = committed w)
    by by apply (store_call_scoped_committed d _ w tx).
  split; [done|]. split.
  - intros e. rewrite !run_call_ret.
    rewrite (store_call_value a _ w (db_get user (committed w)) eq_refl).
    rewrite (store_call_value a _ _ (db_get user (committed w))); [done|].
    unfold visible. simpl. by rewrite Hc.
  - pose proof (store_call_value d (Create data) w t Hv) as Hval.
    pose proof (store_call_visible d (Create data) w t Hv) as Hvis.
    unfold call_aborts in Hvis. cbn [run_query model conn d] in Hval, Hvis.
    destruct (conflicts user data t) eqn:Hcf; cbn [value_of write_of] in *; [done|].
    split; [done|].
    rewrite (store_call_value d _ _ _ Hvis). cbn [run_query value_of apply_mutation].
    rewrite find_first_app.
    + simpl. unfold field, value_eqb. rewrite Hemail. simpl.
      by rewrite bool_decide_eq_true_2.
    + intros r Hr. apply key_mismatch.
      eapply (accepted_row_is_new user "email"); eauto using email_is_unique.
Qed.

(** After [softDelete(id, tx?)] of the one user with a given id and email,
    [findActiveByEmail] no longer finds the user while [findByEmail] still
    does, with the deletion time on the row. *)
Theorem softDelete_hides_user_from_active_lookup (id email : string)
    (tx : option TransactionClient) (w : World) (t1 t2 : Table) (r : Record) :
  let d := UsersRepository.getDelegate tx in
  let w' := snd (run (BaseRepository.softDelete UsersRepository.self id tx) w) in
  visible d w = Some (t1 ++ r :: t2) ->
  field r "id" = VStr id ->
  field r "email" = VStr email ->
  (forall r0, In r0 (t1 ++ t2) ->
     field r0 "id" <> VStr id /\ field r0 "email" <> VStr email) ->
  fst (run (UsersRepository.findActiveByEmail email tx) w') = fulfilled JNull
  /\ fst (run (UsersRepository.findByEmail email tx) w')
     = fulfilled (JRecord (<[ "deletedAt" := VDate (clock w) ]> r)).
Proof.
  intros d w' Hv Hid Hemail Hothers. subst w'.
  unfold BaseRepository.softDelete. rewrite users_resolve. fold d.
  rewrite run_NewDate, run_call_ret.
  set (data := {[ "deletedAt" := VDate (clock w) ]} : Record).
  set (q := Update (WAnd [key "id" (VStr id)]) data).
  assert (Hf : find_first (WAnd [key "id" (VStr id)]) (t1 ++ r :: t2) = Some r).
  { rewrite find_first_app.
    - simpl. unfold value_eqb. by rewrite Hid, bool_decide_eq_true_2.
    - intros r0 Hr0. apply key_mismatch, Hothers, in_or_app. by left. }
  destruct (first_match_split _ _ _ Hf) as (s1 & s2 & Hs & Hno & _ & _ & Hp).
  assert (Hvis : visible d (snd (store_call d q (tick w)))
                 = Some (t1 ++ <[ "deletedAt" := VDate (clock w) ]> r :: t2)).
  { rewrite (store_call_visible d q (tick w) _ Hv). subst q data.
    rewrite softDelete_aborts_nothing. cbn [run_query].
    set (data := {[ "deletedAt" := VDate (clock w) ]} : Record).
    assert (Hnc : forall k l, conflicts k data l = false)
      by (intros; apply no_conflict_on_deletedAt).
    rewrite Hf, Hnc. cbn [write_of apply_mutation].
    f_equal. clear Hp.
    assert (Hgen : forall l, (forall r0, In r0 l -> field r0 "id" <> VStr id) ->
              patch_first (WAnd [key "id" (VStr id)]) data (l ++ r :: t2)
              = l ++ patch data r :: t2).
    { induction l as [|x l IH]; intros Hl; simpl.
      - unfold value_eqb. by rewrite Hid, bool_decide_eq_true_2.
      - unfold value_eqb at 1. rewrite bool_decide_eq_false_2.
        + simpl. f_equal. apply IH. intros r0 Hr0. apply Hl. by right.
        + apply Hl. by left. }
    rewrite Hgen; [subst data; by rewrite patch_singleton|].
    intros r0 Hr0. apply Hothers, in_or_app. by left. }
  assert (Hr' : field (<[ "deletedAt" := VDate (clock w) ]> r) "email" = VStr email).
  { unfold field in *. by rewrite lookup_insert_ne. }
  assert (Hdel : field (<[ "deletedAt" := VDate (clock w) ]> r) "deletedAt"
                 = VDate (clock w)).
  { unfold field. by rewrite lookup_insert_eq. }
  replace (UsersRepository.findActiveByEmail email tx)
    with (Call d (FindFirst (WAnd [key "email" (VStr email); key "deletedAt" VNull])) Ret)
    by by destruct tx.
  replace (UsersRepository.findByEmail email tx)
    with (Call d (FindUnique (WAnd [key "email" (VStr email)])) Ret)
    by by destruct tx.
  rewrite !run_call_ret, !(store_call_value d _ _ _ Hvis).
  cbn [run_query value_of]. split.
  - replace (find_first _ _) with (@None Record); [done|].
    symmetry. apply find_first_none_iff. intros r0 Hr0. simpl.
    apply in_app_or in Hr0 as [Hr0|[<-|Hr0]].
    + unfold value_eqb at 1. rewrite bool_decide_eq_false_2; [done|].
      apply Hothers, in_or_app. by left.
    + rewrite Hdel. unfold value_eqb at 2. by rewrite andb_false_r.
    + unfold value_eqb at 1. rewrite bool_decide_eq_false_2; [done|].
      apply Hothers, in_or_app. by right.
  - rewrite find_first_app.
    + simpl. unfold value_eqb. by rewrite Hr', bool_decide_eq_true_2.
    + intros r0 Hr0. apply key_mismatch, Hothers, in_or_app. by left.
Qed.

Lemma run_call_map {R : Type} (d : Delegate) (q : Query) (f : JsVal -> R) (w : World) :
  run (Call d q (fun v => Ret (f v))) w =
  (match fst (store_call d q w) with
   | fulfilled v => fulfilled (f v)
   | rejected e => rejected e
   end, snd (store_call d q w)).
Proof. rewrite run_Call. by destruct (store_call d q w) as [[v|e] w']. Qed.

Lemma select_patch_all_nil (wh : Where) (data : Record) (t : Table) :
  (forall r, matches wh r = true -> matches wh (patch data r) = false) ->
  select (Some wh) (patch_all wh data t) = [].
Proof.
  intros Hoff. unfold select, patch_all. induction t as [|r t IH]; [done|].
  simpl. destruct (matches wh r) eqn:Hr.
  - by rewrite (Hoff r Hr).
  - by rewrite Hr.
Qed.

Lemma matches_WAnd (ws : list Where) (r : Record) :
  matches (WAnd ws) r = forallb (fun w' => matches w' r) ws.
Proof. reflexivity. Qed.

(** The filter of [revokeUserTokens]: the tokens of the user, the given
    one only when a token is given, that are not revoked yet. *)
Lemma revoked_rows_no_longer_match (userId : string) (token : option string)
    (now : Z) (r : Record) :
  matches (WAnd ([key "userId" (VStr userId)] ++ optional_key "token" token
                 ++ [key "revokedAt" VNull]))
    (patch {[ "revokedAt" := VDate now ]} r) = false.
Proof.
  rewrite matches_WAnd, app_assoc. apply forallb_last_false.
  rewrite patch_singleton. simpl. unfold field. rewrite lookup_insert_eq.
  simpl. unfold value_eqb. by rewrite bool_decide_eq_false_2.
Qed.

(** A bulk update or deletion aborts no transaction. *)
Lemma bulk_write_aborts_nothing (d : Delegate) (wh : Where) (data : Record) (t : Table) :
  call_aborts d (UpdateMany wh data) t = false
  /\ call_aborts d (DeleteMany wh) t = false.
Proof. unfold call_aborts. by destruct (conn d). Qed.

(** [revokeUserTokens(userId, token?, tx?)] answers with the number of
    tokens it revoked: the rows of the user (only the given token when one
    is given) that were not revoked yet.  Those rows get the time read as
    [revokedAt], the other rows stay as they are, and the same call made
    again revokes nothing and answers 0. *)
Theorem revokeUserTokens_is_idempotent (userId : string) (token : option string)
    (tx : option TransactionClient) (w : World) :
  let d := RefreshTokenRepository.getDelegate tx in
  let wh := WAnd ([key "userId" (VStr userId)] ++ optional_key "token" token
                  ++ [key "revokedAt" VNull]) in
  let out := run (RefreshTokenRepository.revokeUserTokens userId token tx) w in
  let again := run (RefreshTokenRepository.revokeUserTokens userId token tx)
                 (snd out) in
  match visible d w with
  | Some t =>
      fst out = fulfilled (JNumber (size_of (select (Some wh) t)))
      /\ visible d (snd out)
         = Some (List.map (fun r => if matches wh r
                                    then <[ "revokedAt" := VDate (clock w) ]> r
                                    else r) t)
      /\ fst again = fulfilled (JNumber 0)
      /\ visible d (snd again) = visible d (snd out)
  | None => fst out = rejected (refusal d w)
  end.
Proof.
  intros d wh out again. subst out again.
  replace (RefreshTokenRepository.revokeUserTokens userId token tx)
    with (NewDate (fun now =>
            Call d (UpdateMany wh {[ "revokedAt" := VDate now ]})
              (fun result => Ret (js_count result))))
    by by destruct tx.
  rewrite !run_NewDate, !run_call_map. cbn [fst snd].
  rewrite <- (tick_refusal d w).
  destruct (visible d w) as [t|] eqn:Hv; [|by rewrite store_call_closed].
  rewrite <- (tick_visible d w) in Hv.
  set (q := UpdateMany wh {[ "revokedAt" := VDate (clock w) ]}).
  pose proof (store_call_visible d q _ t Hv) as Hvis.
  rewrite (store_call_value d q _ t Hv).
  subst q. rewrite (proj1 (bulk_write_aborts_nothing d _ _ _)) in Hvis.
  cbn [run_query value_of write_of apply_mutation js_count] in *.
  set (w1 := snd (store_call d _ (tick w))) in *.
  rewrite <- (tick_visible d w1) in Hvis.
  set (q := UpdateMany wh {[ "revokedAt" := VDate (clock w1) ]}).
  pose proof (store_call_visible d q _ _ Hvis) as Hvis2.
  rewrite (store_call_value d q _ _ Hvis).
  subst q. rewrite (proj1 (bulk_write_aborts_nothing d _ _ _)) in Hvis2.
  cbn [run_query value_of write_of apply_mutation js_count] in *.
  rewrite tick_visible in Hvis.
  assert (Hnone : select (Some wh) (patch_all wh {[ "revokedAt" := VDate (clock w) ]} t)
                  = []).
  { apply select_patch_all_nil. intros r _. apply revoked_rows_no_longer_match. }
  split; [done|]. split.
  { rewrite Hvis. f_equal. unfold patch_all. apply map_ext. intros r.
    by rewrite patch_singleton. }
  split; [by rewrite Hnone|].
  rewrite Hvis2, Hvis. f_equal. clearbody wh.
  assert (Hid : forall l data, select (Some wh) l = [] -> patch_all wh data l = l).
  { intros l data. unfold select, patch_all. induction l as [|r l IH]; [done|].
    simpl. destruct (matches wh r); [done|]. intros Hl. by rewrite IH. }
  by apply Hid.
Qed.

Lemma removed_plus_kept (wh : Where) (t : Table) :
  size_of t = size_of (select (Some wh) t) + size_of (remove_all wh t).
Proof.
  unfold size_of, select, remove_all, matches_opt.
  rewrite <- Nat2Z.inj_add. f_equal.
  induction t as [|r t IH]; [done|]. cbn [List.filter].
  destruct (matches wh r); cbn [negb length]; lia.
Qed.

(** [cleanExpiredTokens(tx?)] deletes the tokens that expired before the
    time read or that are revoked, and answers with their number: the rows
    kept are exactly the rows that are neither. *)
Theorem cleanExpiredTokens_keeps_the_valid (tx : option TransactionClient)
    (w : World) :
  let d := RefreshTokenRepository.getDelegate tx in
  let out := run (RefreshTokenRepository.cleanExpiredTokens tx) w in
  match visible d w with
  | Some t =>
      exists (n : Z) (kept : Table),
        fst out = fulfilled (JNumber n)
        /\ visible d (snd out) = Some kept
        /\ size_of t = n + size_of kept
        /\ forall r, In r kept <->
             In r t
             /\ value_ltb (field r "expiresAt") (VDate (clock w)) = false
             /\ field r "revokedAt" = VNull
  | None => fst out = rejected (refusal d w)
  end.
Proof.
  intros d out. subst out.
  set (wh := fun now => WAnd [WOr [WAnd [WField "expiresAt" (lt (VDate now))];
                                   WAnd [WField "revokedAt" (not_ VNull)]]]).
  replace (RefreshTokenRepository.cleanExpiredTokens tx)
    with (NewDate (fun now =>
            Call d (DeleteMany (wh now)) (fun result => Ret (js_count result))))
    by by destruct tx.
  rewrite run_NewDate, run_call_map. cbn [fst snd].
  rewrite <- (tick_refusal d w).
  destruct (visible d w) as [t|] eqn:Hv; [|by rewrite store_call_closed].
  rewrite <- (tick_visible d w) in Hv.
  rewrite (store_call_value d _ _ t Hv), (store_call_visible d _ _ t Hv).
  rewrite (proj2 (bulk_write_aborts_nothing d _ ∅ _)).
  cbn [run_query value_of write_of apply_mutation js_count].
  eexists _, _. split; [reflexivity|]. split; [reflexivity|]. split.
  - apply removed_plus_kept.
  - intros r. unfold remove_all. rewrite filter_In.
    assert (Hm : negb (matches (wh (clock w)) r) = true <->
                 value_ltb (field r "expiresAt") (VDate (clock w)) = false
                 /\ field r "revokedAt" = VNull).
    { simpl. rewrite !andb_true_r, orb_false_r, negb_true_iff, orb_false_iff.
      rewrite andb_diag, negb_false_iff. unfold value_eqb.
      by rewrite bool_decide_eq_true. }
    by rewrite Hm.
Qed.
End UsersAndTokens.

Section UsersAndTokensExamples.
#[local] Existing Instance binary_collation.

Lemma createUser_in_scope_is_private_witness :
  let w := begin_transaction None fresh_world in
  open_tx w = Some (0%nat, [])
  /\ alice !! "email" = Some (VStr "alice@x.com")
  /\ committed (snd (run (UsersRepository.createUser alice (Some 0%nat)) w))
     = committed w.
Proof.
  cbn zeta. split; [reflexivity|]. split; [reflexivity|].
  exact (proj1 (createUser_in_scope_is_private alice "alice@x.com" 0%nat []
                  (begin_transaction None fresh_world) eq_refl eq_refl)).
Defined.

Lemma softDelete_hides_user_from_active_lookup_witness :
  let w := snd (run (UsersRepository.createUser alice None) fresh_world) in
  let w' := snd (run (BaseRepository.softDelete UsersRepository.self "u1" None) w) in
  visible (UsersRepository.getDelegate None) w = Some ([] ++ alice :: [])
  /\ fst (run (UsersRepository.findActiveByEmail "alice@x.com" None) w')
     = fulfilled JNull.
Proof.
  cbn zeta. split; [reflexivity|].
  refine (proj1 (softDelete_hides_user_from_active_lookup "u1" "alice@x.com" None
                   (snd (run (UsersRepository.createUser alice None) fresh_world))
                   [] [] alice eq_refl eq_refl eq_refl _)).
  intros r0 [].
Defined.
End UsersAndTokensExamples.

(** ** Ordered queries of academies and plans *)

Lemma compare_le_trans (a b c : string) :
  String.compare a b <> Gt -> String.compare b c <> Gt -> String.compare a c <> Gt.
Proof.
  destruct (String.compare a b) eqn:Hab; [| |done];
    destruct (String.compare b c) eqn:Hbc; try done; intros _ _.
  - apply String.compare_eq_iff in Hab as ->. by rewrite Hbc.
  - apply String.compare_eq_iff in Hab as ->. by rewrite Hbc.
  - apply String.compare_eq_iff in Hbc as <-. by rewrite Hab.
  - assert (Hac : String.compare a c = Lt); [|by rewrite Hac].
    apply String_as_OT.cmp_lt.
    eapply String_as_OT.lt_trans; by apply String_as_OT.cmp_lt.
Qed.

Lemma compare_total (a b : string) :
  String.compare a b = Gt -> String.compare b a = Lt.
Proof. rewrite (String.compare_antisym a b). by destruct (String.compare b a). Qed.

Section Sorting.
Context `{Collation}.

Lemma str_compare_trans (a b c : string) :
  str_compare a b <> Gt -> str_compare b c <> Gt -> str_compare a c <> Gt.
Proof.
  unfold str_compare.
  pose proof (compare_le_trans (sort_key a) (sort_key b) (sort_key c)) as Hk.
  destruct (String.compare (sort_key a) (sort_key b)) eqn:Hab; [| |done];
    destruct (String.compare (sort_key b) (sort_key c)) eqn:Hbc; try done.
  - apply String.compare_eq_iff in Hab, Hbc. rewrite Hab, Hbc.
    rewrite (proj2 (String_as_OT.cmp_eq _ _) eq_refl). apply compare_le_trans.
  - apply String.compare_eq_iff in Hab. rewrite Hab, Hbc. done.
  - apply String.compare_eq_iff in Hbc. rewrite <- Hbc, Hab. done.
  - intros _ _. destruct (String.compare (sort_key a) (sort_key c)) eqn:Hac; try done.
    + apply String.compare_eq_iff in Hac. rewrite Hac in Hab.
      apply String_as_OT.cmp_lt in Hab, Hbc.
      pose proof (String_as_OT.lt_trans _ _ _ Hab Hbc) as Hcc.
      apply String_as_OT.cmp_lt in Hcc.
      by rewrite (proj2 (String_as_OT.cmp_eq _ _) eq_refl) in Hcc.
    + by specialize (Hk ltac:(done) ltac:(done)).
Qed.

Lemma str_compare_total (a b : string) :
  str_compare a b = Gt -> str_compare b a = Lt.
Proof.
  unfold str_compare.
  rewrite (String.compare_antisym (sort_key b) (sort_key a)).
  destruct (String.compare (sort_key a) (sort_key b)); simpl; try done.
  apply compare_total.
Qed.

(** The order of a column is a total preorder. *)
Lemma sorts_le_total (a b : Value) : sorts_le a b = false -> sorts_le b a = true.
Proof.
  destruct a as [|x|x|x|x], b as [|y|y|y|y]; simpl; try done.
  - by destruct x, y.
  - rewrite Z.leb_gt, Z.leb_le. lia.
  - rewrite negb_false_iff, negb_true_iff, bool_decide_eq_true, bool_decide_eq_false.
    intros Hg. by rewrite (str_compare_total _ _ Hg).
  - rewrite Z.leb_gt, Z.leb_le. lia.
Qed.

Lemma sorts_le_trans (a b c : Value) :
  sorts_le a b = true -> sorts_le b c = true -> sorts_le a c = true.
Proof.
  destruct a as [|x|x|x|x], b as [|y|y|y|y], c as [|z|z|z|z]; simpl; try done.
  - by destruct x, y, z.
  - rewrite !Z.leb_le. lia.
  - rewrite !negb_true_iff, !bool_decide_eq_false. apply str_compare_trans.
  - rewrite !Z.leb_le. lia.
Qed.

Lemma before_total (f : string) (o : SortOrder) (a b : Record) :
  before f o a b = false -> before f o b a = true.
Proof. destruct o; simpl; apply sorts_le_total. Qed.

Lemma before_trans (f : string) (o : SortOrder) (a b c : Record) :
  before f o a b = true -> before f o b c = true -> before f o a c = true.
Proof.
  destruct o; simpl; [apply sorts_le_trans|].
  intros Hab Hbc. by apply (sorts_le_trans _ _ _ Hbc Hab).
Qed.

Lemma insert_sorted_perm (f : string) (o : SortOrder) (r : Record) (t : Table) :
  insert_sorted f o r t ≡ₚ r :: t.
Proof.
  induction t as [|x t IH]; simpl; [done|].
  destruct (before f o r x); [done|]. rewrite IH. apply Permutation_swap.
Qed.

Lemma order_by_perm (ob : option (string * SortOrder)) (t : Table) :
  order_by ob t ≡ₚ t.
Proof.
  destruct ob as [[f o]|]; simpl; [|done].
  induction t as [|x t IH]; simpl; [done|].
  by rewrite insert_sorted_perm, IH.
Qed.

Lemma insert_sorted_ordered (f : string) (o : SortOrder) (r : Record) (t : Table) :
  ordered f o t = true -> ordered f o (insert_sorted f o r t) = true.
Proof.
  induction t as [|x t IH]; [done|]. intros Ht.
  cbn [insert_sorted]. destruct (before f o r x) eqn:Hrx.
  - cbn [ordered]. by rewrite Hrx.
  - assert (Hxr : before f o x r = true) by by apply before_total.
    destruct t as [|y t].
    + simpl. by rewrite Hxr.
    + cbn [ordered] in Ht. apply andb_true_iff in Ht as [Hxy Ht].
      specialize (IH Ht). cbn [insert_sorted] in *.
      destruct (before f o r y); cbn [ordered] in *.
      * by rewrite Hxr, IH.
      * by rewrite Hxy, IH.
Qed.

Lemma order_by_ordered (f : string) (o : SortOrder) (t : Table) :
  ordered f o (order_by (Some (f, o)) t) = true.
Proof.
  simpl. induction t as [|x t IH]; [done|]. simpl.
  by apply insert_sorted_ordered.
Qed.

(** In an ordered list every row may come before every later one, not
    only before its neighbour. *)
Lemma ordered_head (f : string) (o : SortOrder) (t : Table) :
  forall a,
    ordered f o (a :: t) = true ->
    Forall (fun x => before f o a x = true) t /\ ordered f o t = true.
Proof.
  induction t as [|x t IH]; intros a Ht; [by split|].
  cbn [ordered] in Ht. apply andb_true_iff in Ht as [Hax Ht].
  split; [|done]. constructor; [done|].
  destruct (IH x Ht) as [Hx _].
  eapply Forall_impl; [exact Hx|]. intros y Hxy. simpl in Hxy.
  by apply (before_trans f o a x y).
Qed.

Lemma strictly_ordered_head (f : string) (o : SortOrder) (t : Table) :
  forall a,
    strictly_ordered f o (a :: t) = true ->
    Forall (fun x => before f o a x = true /\ before f o x a = false) t
    /\ strictly_ordered f o t = true.
Proof.
  induction t as [|x t IH]; intros a Ht; [by split|].
  cbn [strictly_ordered] in Ht.
  apply andb_true_iff in Ht as [Hax Ht]. apply andb_true_iff in Hax as [Hax Hxa].
  apply negb_true_iff in Hxa.
  split; [|done]. constructor; [done|].
  destruct (IH x Ht) as [Hx _].
  eapply Forall_impl; [exact Hx|]. intros y [Hxy Hyx]. simpl in *. split.
  - by apply (before_trans f o a x y).
  - destruct (before f o y a) eqn:Hya; [|done].
    by rewrite (before_trans f o y a x Hya Hax) in Hyx.
Qed.

(** Where no two rows tie, the order leaves one listing only. *)
Lemma sorted_listing_unique (f : string) (o : SortOrder) (l : Table) :
  forall l',
    l ≡ₚ l' ->
    strictly_ordered f o l = true -> ordered f o l' = true -> l' = l.
Proof.
  induction l as [|a l IH]; intros l' Hp Hs Ho.
  - by apply Permutation_nil_l in Hp.
  - destruct l' as [|b l']; [by apply Permutation_nil_r in Hp|].
    destruct (strictly_ordered_head f o l a Hs) as [Ha Hs'].
    destruct (ordered_head f o l' b Ho) as [Hb Ho'].
    assert (Hba : b = a).
    { assert (Hin : In b (a :: l))
        by (apply (Permutation_in _ (Permutation_sym Hp)); by left).
      destruct Hin as [->|Hin]; [done|].
      rewrite List.Forall_forall in Ha, Hb. destruct (Ha b Hin) as [_ Hnot].
      assert (Hin' : In a (b :: l')) by (apply (Permutation_in _ Hp); by left).
      destruct Hin' as [->|Hin']; [done|].
      specialize (Hb a Hin'). simpl in *. congruence. }
    subst b. f_equal. apply IH; [|done..].
    by apply Permutation_cons_inv in Hp.
Qed.

Lemma ambient_read (k : Kind) (q : Query) (w : World) :
  fst (run (Call {| conn := ambient; model := k |} q Ret) w)
  = value_of (run_query k q (db_get k (committed w))).
Proof.
  rewrite run_call_ret.
  by rewrite (store_call_value {| conn := ambient; model := k |} q w _ eq_refl).
Qed.

(** [findActiveAcademies()] returns the academies that are not soft
    deleted, each once, in ascending order of name: names in the order of
    the collation, an academy without a name after all that have one. *)
Theorem findActiveAcademies_lists_live_by_name (w : World) :
  exists rows,
    fst (run AcademiesRepository.findActiveAcademies w) = fulfilled (JArray rows)
    /\ rows ≡ₚ List.filter (fun r => bool_decide (field r "deletedAt" = VNull))
                 (academies (committed w))
    /\ ordered "name" asc rows = true.
Proof.
  unfold AcademiesRepository.findActiveAcademies. rewrite ambient_read.
  cbn [run_query value_of fm_where fm_skip fm_take fm_orderBy take_rows skip_rows
       db_get order_of].
  eexists. split; [reflexivity|]. split.
  - rewrite order_by_perm. unfold select.
    erewrite filter_ext; [reflexivity|].
    intros r. simpl. unfold value_eqb. by rewrite andb_true_r.
  - apply order_by_ordered.
Qed.

(** [findByAcademy(academyId)] returns the plans of the academy that are
    not soft deleted and [findActivePlans(academyId)] those of them that
    are active, each plan once, both in ascending order of price, a plan
    without a price after all that have one; every plan the second
    returns the first returns too. *)
Theorem plans_of_academy_by_price (academyId : string) (w : World) :
  let live := fun r : Record =>
    bool_decide (field r "academyId" = VStr academyId)
    && bool_decide (field r "deletedAt" = VNull) in
  let active := fun r : Record =>
    live r && bool_decide (field r "isActive" = VBool true) in
  exists all_ active_,
    fst (run (PlansRepository.findByAcademy academyId) w) = fulfilled (JArray all_)
    /\ fst (run (PlansRepository.findActivePlans academyId) w)
       = fulfilled (JArray active_)
    /\ all_ ≡ₚ List.filter live (plans (committed w))
    /\ active_ ≡ₚ List.filter active (plans (committed w))
    /\ ordered "price" asc all_ = true
    /\ ordered "price" asc active_ = true
    /\ forall r, In r active_ -> In r all_.
Proof.
  cbn zeta.
  unfold PlansRepository.findByAcademy, PlansRepository.findActivePlans.
  rewrite !ambient_read.
  cbn [run_query value_of fm_where fm_skip fm_take fm_orderBy take_rows skip_rows
       db_get order_of].
  eexists _, _. split; [reflexivity|]. split; [reflexivity|].
  assert (H1 : order_by (Some ("price", asc))
                 (select (Some (WAnd [key "academyId" (VStr academyId);
                                      key "deletedAt" VNull])) (plans (committed w)))
               ≡ₚ List.filter
                    (fun r => bool_decide (field r "academyId" = VStr academyId)
                              && bool_decide (field r "deletedAt" = VNull))
                    (plans (committed w))).
  { rewrite order_by_perm. unfold select.
    erewrite filter_ext; [reflexivity|].
    intros r. simpl. unfold value_eqb. by rewrite andb_true_r. }
  assert (H2 : order_by (Some ("price", asc))
                 (select (Some (WAnd [key "academyId" (VStr academyId);
                                      key "deletedAt" VNull;
                                      key "isActive" (VBool true)]))
                    (plans (committed w)))
               ≡ₚ List.filter
                    (fun r => bool_decide (field r "academyId" = VStr academyId)
                              && bool_decide (field r "deletedAt" = VNull)
                              && bool_decide (field r "isActive" = VBool true))
                    (plans (committed w))).
  { rewrite order_by_perm. unfold select.
    erewrite filter_ext; [reflexivity|].
    intros r. simpl. unfold value_eqb. by rewrite andb_true_r, andb_assoc. }
  split; [exact H1|]. split; [exact H2|].
  split; [apply order_by_ordered|]. split; [apply order_by_ordered|].
  intros r Hr.
  apply (Permutation_in _ H2) in Hr. apply (Permutation_in _ (Permutation_sym H1)).
  apply filter_In in Hr as [Hin Hr]. apply filter_In. split; [done|].
  by apply andb_true_iff in Hr as [Hr _].
Qed.

(** No query of the academies repository returns a soft-deleted row or a
    row that is not in the table: [findBySlug] answers [null] or a live
    academy with the slug, and [null] only when there is none;
    [searchByLocation] lists live academies only. *)
Theorem academy_queries_skip_deleted (latDeltaOf : Z -> Z)
    (lonDeltaOf : Z -> Z -> Z) (slug : string) (latitude longitude : Z)
    (radiusKm : option Z) (w : World) :
  let t := academies (committed w) in
  ((exists r, fst (run (AcademiesRepository.findBySlug slug) w)
              = fulfilled (JRecord r)
              /\ In r t /\ field r "slug" = VStr slug
              /\ field r "deletedAt" = VNull)
   \/ (fst (run (AcademiesRepository.findBySlug slug) w) = fulfilled JNull
       /\ forall r, In r t -> field r "slug" = VStr slug ->
                    field r "deletedAt" <> VNull))
  /\ exists rows,
       fst (run (AcademiesRepository.searchByLocation latDeltaOf lonDeltaOf
                   latitude longitude radiusKm) w) = fulfilled (JArray rows)
       /\ forall r, In r rows -> In r t /\ field r "deletedAt" = VNull.
Proof.
  cbn zeta. split.
  - unfold AcademiesRepository.findBySlug. rewrite ambient_read.
    cbn [run_query value_of db_get].
    destruct (find_first _ (academies (committed w))) as [r|] eqn:Hf.
    + left. exists r. apply find_first_Some in Hf as [Hin Hm].
      simpl in Hm. unfold value_eqb in Hm.
      rewrite andb_true_r in Hm. apply andb_true_iff in Hm as [H1 H2].
      apply bool_decide_eq_true in H1, H2. by repeat split.
    + right. split; [done|]. intros r Hin Hslug Hdel.
      apply (find_first_None _ _ Hf) in Hin. simpl in Hin.
      unfold value_eqb in Hin.
      by rewrite !bool_decide_eq_true_2 in Hin.
  - unfold AcademiesRepository.searchByLocation. rewrite ambient_read.
    cbn [run_query value_of fm_where fm_skip fm_take fm_orderBy take_rows
         skip_rows order_by db_get order_of pages].
    eexists. split; [reflexivity|].
    intros r Hr. apply filter_In in Hr as [Hin Hm]. split; [done|].
    cbn [matches_opt] in Hm. rewrite matches_WAnd in Hm.
    cbn [forallb] in Hm. apply andb_true_iff in Hm as [Hm _].
    simpl in Hm. unfold value_eqb in Hm. by apply bool_decide_eq_true in Hm.
Qed.
End Sorting.

Section SortingExamples.
#[local] Existing Instance binary_collation.

(** Plans are listed by price, a plan without a price last. *)
Example plans_without_price_come_last :
  let priced := fun (id : string) (price : Value) =>
    ({[ "id" := VStr id; "academyId" := VStr "a1"; "price" := price ]} : Record) in
  let w := set_committed
             (db_set plan [priced "p1" (VNum 3); priced "p2" VNull;
                           priced "p3" (VNum 1)] empty_db) fresh_world in
  fst (run (PlansRepository.findByAcademy "a1") w)
  = fulfilled (JArray [priced "p3" (VNum 1); priced "p1" (VNum 3);
                       priced "p2" VNull]).
Proof. vm_compute. reflexivity. Qed.
End SortingExamples.

(** ** Pages *)

Lemma paging_is_contiguous {A : Type} (l : list A) (k n m : nat) :
  List.firstn n (List.skipn k l) ++ List.firstn m (List.skipn (k + n) l)
  = List.firstn (n + m) (List.skipn k l).
Proof.
  rewrite (Nat.add_comm k n), <- skipn_skipn.
  generalize (List.skipn k l) as l'. clear l k.
  induction n as [|n IH]; intros l'; [done|].
  destruct l' as [|x l']; simpl.
  - by rewrite firstn_nil.
  - by rewrite IH.
Qed.

Section Pages.
Context `{Collation}.

(** A page is cut out of the listing in the order asked for, and in the
    order of the ids when none is asked for. *)
Lemma page_of_listing (where_ : option Where) (ob : option (string * SortOrder))
    (s c : nat) (k : Kind) (t listing : Table) :
  listing ≡ₚ select where_ t ->
  strictly_ordered (default ("id", asc) ob).1 (default ("id", asc) ob).2 listing = true ->
  value_of (run_query k
    (FindMany {| fm_where := where_; fm_skip := Some s; fm_take := Some c;
                 fm_orderBy := ob |}) t)
  = fulfilled (JArray (List.firstn c (List.skipn s listing))).
Proof.
  intros Hp Hs. cbn [run_query value_of fm_where fm_skip fm_take take_rows skip_rows].
  replace (order_of _) with (Some (default ("id", asc) ob)) by by destruct ob.
  destruct (default ("id", asc) ob) as [f o]. cbn [fst snd] in Hs.
  rewrite (sorted_listing_unique f o listing (order_by (Some (f, o)) (select where_ t)));
    [done| |done|apply order_by_ordered].
  by rewrite order_by_perm.
Qed.

(** Pages of [findMany(where, {skip, take, orderBy}, tx?)].  Where no two
    rows that match the filter tie in the order asked for (the order of
    the ids when none is asked for), the page of [take] rows after [skip]
    is that slice of the one listing of the matching rows in that order.
    So pages fetched one after the other fit together: the page of [n]
    rows after [k] followed by the page of [m] rows after [k + n] is the
    page of [n + m] rows after [k], and no row is lost or repeated between
    pages. *)
Theorem findMany_pages_fit_together (self : Repository) (where_ : option Where)
    (ob : option (string * SortOrder)) (k n m : nat)
    (tx : option TransactionClient) (w : World) (t listing : Table) :
  let page := fun (s c : nat) =>
    BaseRepository.findMany self where_
      (Some {| skip := Some s; take := Some c; orderBy := ob |}) tx in
  let w1 := snd (run (page k n) w) in
  let by_ := default ("id", asc) ob in
  visible (BaseRepository.resolve self tx) w = Some t ->
  listing ≡ₚ select where_ t ->
  strictly_ordered by_.1 by_.2 listing = true ->
  fst (run (page k n) w) = fulfilled (JArray (List.firstn n (List.skipn k listing)))
  /\ fst (run (page (k + n)%nat m) w1)
     = fulfilled (JArray (List.firstn m (List.skipn (k + n) listing)))
  /\ fst (run (page k (n + m)%nat) w)
     = fulfilled (JArray (List.firstn n (List.skipn k listing)
                          ++ List.firstn m (List.skipn (k + n) listing))).
Proof.
  cbn zeta. intros Hv Hp Hs. unfold BaseRepository.findMany.
  set (d := BaseRepository.resolve self tx) in *. rewrite !run_call_ret.
  cbn [mbind option_bind skip take orderBy].
  assert (Hv1 : visible d (snd (store_call d
            (FindMany {| fm_where := where_; fm_skip := Some k; fm_take := Some n;
                         fm_orderBy := ob |}) w)) = Some t)
    by by rewrite read_keeps_visible.
  rewrite (store_call_value d _ _ t Hv1), !(store_call_value d _ w t Hv).
  rewrite !(page_of_listing where_ ob _ _ (model d) t listing Hp Hs).
  by rewrite paging_is_contiguous.
Qed.
End Pages.

Section PagesExamples.
#[local] Existing Instance binary_collation.

Lemma findMany_pages_fit_together_witness :
  let w := snd (run (UsersRepository.createUser bob None)
                  (snd (run (UsersRepository.createUser alice None) fresh_world))) in
  let page := fun (s c : nat) =>
    BaseRepository.findMany UsersRepository.self None
      (Some {| skip := Some s; take := Some c; orderBy := None |}) None in
  visible (BaseRepository.resolve UsersRepository.self None) w = Some [alice; bob]
  /\ [alice; bob] ≡ₚ select None [alice; bob]
  /\ strictly_ordered "id" asc [alice; bob] = true
  /\ fst (run (page 0%nat 1%nat) w) = fulfilled (JArray [alice])
  /\ fst (run (page 1%nat 1%nat) (snd (run (page 0%nat 1%nat) w)))
     = fulfilled (JArray [bob])
  /\ fst (run (page 0%nat 2%nat) w) = fulfilled (JArray [alice; bob]).
Proof.
  cbn zeta. split; [reflexivity|]. split; [reflexivity|].
  split; [vm_compute; reflexivity|].
  exact (findMany_pages_fit_together UsersRepository.self None None 0 1 1 None
           (snd (run (UsersRepository.createUser bob None)
                   (snd (run (UsersRepository.createUser alice None) fresh_world))))
           [alice; bob] [alice; bob] eq_refl (Permutation_refl _) eq_refl).
Defined.

(** Rows are listed by id, not in the order they were created in. *)
Example pages_follow_the_ids :
  let w := snd (run (UsersRepository.createUser alice None)
                  (snd (run (UsersRepository.createUser bob None) fresh_world))) in
  users (committed w) = [bob; alice]
  /\ fst (run (BaseRepository.findMany UsersRepository.self None
                 (Some {| skip := None; take := Some 1%nat; orderBy := None |}) None) w)
     = fulfilled (JArray [alice]).
Proof. vm_compute. by split. Qed.
End PagesExamples.

(** ** Units of work of the registration service *)

Section RegistrationService.
Context `{Collation}.

Lemma visible_begin (k : Kind) (options : option TxOptions) (w : World) :
  0 < time_limit options ->
  visible {| conn := scoped (next_tx w); model := k |} (begin_transaction options w)
  = Some (db_get k (committed w)).
Proof.
  intros Hl.
  destruct (begin_transaction_spec options w) as (_ & Hc & _ & _ & _ & Ho).
  cbn zeta in Hc, Ho. rewrite (proj2 (Z.ltb_lt _ _) Hl) in Ho.
  destruct Ho as [Ho _]. unfold visible. simpl. by rewrite Ho, Nat.eqb_refl, Hc.
Qed.

Lemma visible_is_open (d : Delegate) (w : World) (tx : TransactionClient) (t : Table) :
  conn d = scoped tx -> visible d w = Some t -> open_tx w <> None.
Proof. unfold visible. intros ->. by destruct (open_tx w). Qed.

(** How a transaction that could start ends, in terms of what its callback
    left behind: after a rejection the committed rows are the ones the
    callback left; after a fulfilment with the transaction still open
    every table is the one the scope saw last. *)
Lemma transaction_outcome {T : Type} (fn : TransactionClient -> Prog T)
    (options : option TxOptions) (w : World) :
  let tx := next_tx w in
  let inner := run (fn tx) (begin_transaction options w) in
  let out := transaction fn options w in
  (max_wait options <? acquire_wait w) = false ->
  match fst inner with
  | fulfilled v =>
      open_tx (snd inner) <> None ->
      fst out = fulfilled v
      /\ forall k, visible {| conn := scoped tx; model := k |} (snd inner)
                   = Some (db_get k (committed (snd out)))
  | rejected e => fst out = rejected e /\ committed (snd out) = committed (snd inner)
  end.
Proof.
  cbn zeta. intros Hw. pose proof (transaction_spec fn options w) as Hs.
  cbn zeta in Hs. rewrite Hw in Hs. destruct Hs as (_ & _ & evs & _ & _ & _ & Hs).
  destruct (fst (run (fn (next_tx w)) (begin_transaction options w))).
  - intros Hopen.
    destruct (open_tx (snd (run (fn (next_tx w)) (begin_transaction options w))));
      [|done].
    by destruct Hs as (? & ? & _).
  - by destruct Hs as (? & ? & _).
Qed.

Lemma tick_committed (w : World) : committed (tick w) = committed w.
Proof. reflexivity. Qed.

(** Time does not go back. *)
Lemma pass_time_clock (ms : Z) (w : World) : clock w <= clock (pass_time ms w).
Proof.
  unfold pass_time. cbn zeta.
  destruct (time_left w <=? Z.max 0 ms); [unfold expire_tx, current_tx|]; simpl.
  - destruct (open_tx w) as [[tx p]|]; simpl; [lia|].
    destruct (failed_tx w) as [[tx e]|]; simpl; lia.
  - lia.
Qed.

Lemma store_call_clock (d : Delegate) (q : Query) (w : World) :
  clock w <= clock (snd (store_call d q w)).
Proof.
  unfold store_call. destruct (conn d) as [|tx].
  - cbn zeta.
    assert (Hw : clock w <= clock (wait_for_locks d q w)).
    { unfold wait_for_locks. destruct (blocked d q w); [apply pass_time_clock | lia]. }
    destruct (run_query _ _ _) as [[v m]|e]; simpl; lia.
  - destruct (open_tx w) as [[tx' p]|] eqn:Ho; [|simpl; lia].
    destruct (Nat.eqb tx tx'); [|simpl; lia].
    cbn zeta. destruct (run_query _ _ _) as [[v [m|]]|e]; simpl; try lia.
    destruct (aborts e); [|lia]. unfold abort_tx. rewrite Ho. simpl. lia.
Qed.

Lemma begin_transaction_clock (options : option TxOptions) (w : World) :
  clock w <= clock (begin_transaction options w).
Proof.
  unfold begin_transaction. etransitivity; [|apply pass_time_clock]. simpl. lia.
Qed.

(** [registerUserWithToken]: the user and the token are written together
    or not at all.  When the transaction cannot start within the 2000 ms
    the client waits by default the call is rejected and nothing is
    written.  Otherwise: when the user data breaks a unique column the
    call is rejected and nothing is written; when the token row does, the
    call is rejected and the user created just before is not there either;
    otherwise it fulfils with the user and a token row carrying the user's
    id, and exactly these two rows are added. *)
Theorem registerUserWithToken_adds_both_or_nothing
    (with_defaults : Kind -> gmap string Value -> gmap string Value)
    (userData : Record) (token : string) (expiresAt : Z) (w : World) :
  let out := UserRegistrationService.registerUserWithToken with_defaults
               userData token expiresAt w in
  let tokenRow : Record :=
    with_defaults userRefreshToken
      {[ "userId" := field userData "id"; "token" := VStr token;
         "expiresAt" := VDate expiresAt ]} in
  if 2000 <? acquire_wait w
  then fst out = rejected Timeout /\ committed (snd out) = committed w
  else
    if conflicts user userData (users (committed w))
       || conflicts userRefreshToken tokenRow (refreshTokens (committed w))
    then fst out = rejected ConstraintViolation
         /\ committed (snd out) = committed w
    else fst out = fulfilled (JRecord userData, JRecord tokenRow)
         /\ users (committed (snd out)) = users (committed w) ++ [userData]
         /\ refreshTokens (committed (snd out))
            = refreshTokens (committed w) ++ [tokenRow]
         /\ academies (committed (snd out)) = academies (committed w)
         /\ plans (committed (snd out)) = plans (committed w).
Proof.
  cbn zeta. unfold UserRegistrationService.registerUserWithToken, UnitOfWork.execute.
  set (fn := fun tx0 : TransactionClient => bind _ _).
  pose proof (transaction_spec fn None w) as Hto.
  pose proof (transaction_outcome fn None w) as Hend. cbn zeta in Hto, Hend.
  change (max_wait None) with 2000 in *.
  destruct (2000 <? acquire_wait w); [by destruct Hto as (? & ? & _)|].
  clear Hto. specialize (Hend eq_refl).
  set (out := transaction fn None w) in *.
  set (tx := next_tx w) in *. set (w0 := begin_transaction None w) in *.
  subst fn. cbn beta in *.
  unfold UsersRepository.createUser, RefreshTokenRepository.createToken in *.
  set (dU := {| conn := scoped tx; model := user |}) in *.
  set (dT := {| conn := scoped tx; model := userRefreshToken |}) in *.
  rewrite run_bind, run_call_ret in *.
  assert (HvU : visible dU w0 = Some (users (committed w)))
    by by apply (visible_begin user).
  pose proof (store_call_value dU (Create userData) w0 _ HvU) as Hval.
  pose proof (store_call_visible dU (Create userData) w0 _ HvU) as Hvis.
  pose proof (store_call_scoped_committed dU (Create userData) w0 tx eq_refl) as Hc.
  pose proof (fun k Hk => store_call_frame dU (Create userData) w0 k Hk) as Hfr.
  rewrite HvU in Hfr. unfold call_aborts in Hvis, Hfr.
  cbn [run_query model conn dU] in Hval, Hvis, Hfr.
  destruct (conflicts user userData (users (committed w)));
    cbn [value_of write_of apply_mutation orb aborts] in *.
  - destruct (store_call dU (Create userData) w0) as [[v|e] w1];
      cbn [fst snd] in *; [done|].
    injection Hval as ->. destruct Hend as [-> ->]. by rewrite Hc.
  - destruct (store_call dU (Create userData) w0) as [[v|e] w1];
      cbn [fst snd] in *; [|done].
    injection Hval as ->. cbn [js_field] in *.
    set (row := with_defaults userRefreshToken _) in *.
    rewrite run_bind, run_call_ret in *.
    assert (HvT : visible dT w1 = Some (refreshTokens (committed w))).
    { etransitivity; [exact (Hfr userRefreshToken ltac:(done) eq_refl)|].
      by apply (visible_begin userRefreshToken). }
    pose proof (store_call_value dT (Create row) w1 _ HvT) as Hval2.
    pose proof (store_call_visible dT (Create row) w1 _ HvT) as Hvis2.
    pose proof (store_call_scoped_committed dT (Create row) w1 tx eq_refl) as Hc2.
    pose proof (fun k Hk => store_call_frame dT (Create row) w1 k Hk) as Hfr2.
    rewrite HvT in Hfr2. unfold call_aborts in Hvis2, Hfr2.
    cbn [run_query model conn dT] in Hval2, Hvis2, Hfr2.
    destruct (conflicts userRefreshToken row (refreshTokens (committed w)));
      cbn [value_of write_of apply_mutation aborts] in *.
    + destruct (store_call dT (Create row) w1) as [[v|e] w2];
        cbn [fst snd] in *; [done|].
      injection Hval2 as ->. cbn [fst snd] in *.
      destruct Hend as [-> ->]. split; [done|]. by rewrite Hc2, Hc.
    + destruct (store_call dT (Create row) w1) as [[v|e] w2];
        cbn [fst snd] in *; [|done].
      injection Hval2 as ->. cbn [run fst snd] in *.
      destruct Hend as [-> Hend]; [by eapply (visible_is_open dT)|].
      split; [done|].
      assert (HU : Some (db_get user (committed (snd out)))
                   = Some (users (committed w) ++ [userData])).
      { rewrite <- (Hend user). etransitivity; [exact (Hfr2 user ltac:(done) eq_refl)|].
        exact Hvis. }
      assert (HT : Some (db_get userRefreshToken (committed (snd out)))
                   = Some (refreshTokens (committed w) ++ [row])).
      { rewrite <- (Hend userRefreshToken). exact Hvis2. }
      assert (Hrest : forall k, k <> user -> k <> userRefreshToken ->
                Some (db_get k (committed (snd out))) = Some (db_get k (committed w))).
      { intros k Hk1 Hk2. rewrite <- (Hend k).
        etransitivity; [exact (Hfr2 k ltac:(done) eq_refl)|].
        etransitivity; [exact (Hfr k ltac:(done) eq_refl)|].
        by apply (visible_begin k). }
      pose proof (Hrest academy ltac:(done) ltac:(done)) as HA.
      pose proof (Hrest plan ltac:(done) ltac:(done)) as HP.
      cbn [db_get] in *.
      injection HU as ->. injection HT as ->. injection HA as ->. injection HP as ->.
      done.
Qed.
(** [deleteUserWithTokens(userId)]: when the transaction cannot start
    within the 2000 ms the client waits by default the call is rejected
    and nothing is written.  Otherwise: when no user has the id the call
    is rejected with NotFound and nothing is written, the revocation of
    the tokens that ran before the soft delete included; otherwise the
    user is marked deleted, the tokens of the user that were not revoked
    are revoked, at times read during the call, and nothing else
    changes. *)
Theorem deleteUserWithTokens_all_or_nothing (userId : string) (w : World) :
  let out := UserRegistrationService.deleteUserWithTokens userId w in
  let wh := WAnd [key "userId" (VStr userId); key "revokedAt" VNull] in
  if 2000 <? acquire_wait w
  then fst out = rejected Timeout /\ committed (snd out) = committed w
  else
    ((forall r, In r (users (committed w)) -> field r "id" <> VStr userId)
     /\ fst out = rejected NotFound
     /\ committed (snd out) = committed w)
    \/ (exists u1 r u2 (revokedAt deletedAt : Z),
          users (committed w) = u1 ++ r :: u2
          /\ (forall r0, In r0 u1 -> field r0 "id" <> VStr userId)
          /\ field r "id" = VStr userId
          /\ clock w <= revokedAt <= deletedAt
          /\ fst out = fulfilled {| success := true |}
          /\ users (committed (snd out))
             = u1 ++ <[ "deletedAt" := VDate deletedAt ]> r :: u2
          /\ refreshTokens (committed (snd out))
             = List.map (fun t => if matches wh t
                                  then <[ "revokedAt" := VDate revokedAt ]> t
                                  else t) (refreshTokens (committed w))
          /\ academies (committed (snd out)) = academies (committed w)
          /\ plans (committed (snd out)) = plans (committed w)).
Proof.
  cbn zeta. unfold UserRegistrationService.deleteUserWithTokens, UnitOfWork.execute.
  set (fn := fun tx0 : TransactionClient => bind _ _).
  pose proof (transaction_spec fn None w) as Hto.
  pose proof (transaction_outcome fn None w) as Hend. cbn zeta in Hto, Hend.
  change (max_wait None) with 2000 in *.
  destruct (2000 <? acquire_wait w); [by destruct Hto as (? & ? & _)|].
  clear Hto. specialize (Hend eq_refl).
  set (out := transaction fn None w) in *.
  set (tx := next_tx w) in *. set (w0 := begin_transaction None w) in *.
  subst fn. cbn beta in *.
  unfold RefreshTokenRepository.revokeUserTokens, BaseRepository.softDelete in *.
  cbn [BaseRepository.resolve getDelegate UsersRepository.self
       UsersRepository.getDelegate optional_key app] in *.
  set (dU := {| conn := scoped tx; model := user |}) in *.
  set (dT := {| conn := scoped tx; model := userRefreshToken |}) in *.
  set (wh := WAnd [key "userId" (VStr userId); key "revokedAt" VNull]) in *.
  rewrite run_bind, run_NewDate, run_call_map in *.
  set (qT := UpdateMany wh {[ "revokedAt" := VDate (clock w0) ]}) in *.
  assert (HvT : visible dT (tick w0) = Some (refreshTokens (committed w)))
    by by apply (visible_begin userRefreshToken).
  pose proof (store_call_value dT qT _ _ HvT) as HvalT.
  pose proof (store_call_visible dT qT _ _ HvT) as HvisT.
  pose proof (store_call_scoped_committed dT qT (tick w0) tx eq_refl) as HcT.
  pose proof (fun k Hk => store_call_frame dT qT (tick w0) k Hk) as HfrT.
  rewrite HvT in HfrT.
  assert (HnaT : call_aborts dT qT (refreshTokens (committed w)) = false)
    by apply bulk_write_aborts_nothing.
  rewrite HnaT in HvisT. subst qT.
  cbn [run_query value_of write_of apply_mutation] in HvalT, HvisT.
  set (qT := UpdateMany wh {[ "revokedAt" := VDate (clock w0) ]}) in *.
  rewrite HvalT in *. cbn [fst snd] in *.
  pose proof (store_call_clock dT qT (tick w0)) as HclT.
  set (w1 := snd (store_call dT qT (tick w0))) in *.
  rewrite run_bind, run_NewDate, run_call_ret in *.
  set (qU := Update (WAnd [key "id" (VStr userId)])
               {[ "deletedAt" := VDate (clock w1) ]}) in *.
  assert (HvU : visible dU (tick w1) = Some (users (committed w))).
  { etransitivity; [exact (HfrT user ltac:(done) HnaT)|].
    by apply (visible_begin user). }
  pose proof (store_call_value dU qU _ _ HvU) as HvalU.
  pose proof (store_call_visible dU qU _ _ HvU) as HvisU.
  pose proof (store_call_scoped_committed dU qU (tick w1) tx eq_refl) as HcU.
  pose proof (fun k Hk => store_call_frame dU qU (tick w1) k Hk) as HfrU.
  rewrite HvU in HfrU.
  assert (HnaU : call_aborts dU qU (users (committed w)) = false)
    by apply softDelete_aborts_nothing.
  rewrite HnaU in HvisU. subst qU.
  cbn [run_query] in HvalU, HvisU.
  set (qU := Update (WAnd [key "id" (VStr userId)])
               {[ "deletedAt" := VDate (clock w1) ]}) in *.
  destruct (find_first (WAnd [key "id" (VStr userId)]) (users (committed w)))
    as [r|] eqn:Hf.
  - right. rewrite no_conflict_on_deletedAt in HvalU, HvisU.
    cbn [value_of write_of apply_mutation] in HvalU, HvisU.
    destruct (first_match_split _ _ _ Hf) as (u1 & u2 & Hus & Hno & Hm & _ & Hp).
    rewrite Hp, patch_singleton in HvisU.
    destruct (store_call dU qU (tick w1)) as [[v|e] w2]; cbn [fst snd] in *; [|done].
    cbn [run fst snd] in *.
    destruct Hend as [Hout Hend]; [by eapply (visible_is_open dU)|].
    exists u1, r, u2, (clock w0), (clock w1).
    split; [done|]. split; [intros r0 Hr0; by apply key_mismatch, Hno|].
    split; [by apply matches_key|]. split.
    { pose proof (begin_transaction_clock None w) as Hb. fold w0 in Hb.
      change (clock (tick w0)) with (clock w0 + 1) in HclT. lia. }
    split; [done|].
    assert (HU : Some (db_get user (committed (snd out)))
                 = Some (u1 ++ <[ "deletedAt" := VDate (clock w1) ]> r :: u2)).
    { rewrite <- (Hend user). exact HvisU. }
    assert (HT : Some (db_get userRefreshToken (committed (snd out)))
                 = Some (patch_all wh {[ "revokedAt" := VDate (clock w0) ]}
                           (refreshTokens (committed w)))).
    { rewrite <- (Hend userRefreshToken).
      etransitivity; [exact (HfrU userRefreshToken ltac:(done) HnaU)|]. exact HvisT. }
    assert (Hrest : forall k, k <> user -> k <> userRefreshToken ->
              Some (db_get k (committed (snd out))) = Some (db_get k (committed w))).
    { intros k Hk1 Hk2. rewrite <- (Hend k).
      etransitivity; [exact (HfrU k ltac:(done) HnaU)|].
      etransitivity; [exact (HfrT k ltac:(done) HnaT)|].
      by apply (visible_begin k). }
    pose proof (Hrest academy ltac:(done) ltac:(done)) as HA.
    pose proof (Hrest plan ltac:(done) ltac:(done)) as HP.
    cbn [db_get] in *.
    injection HU as ->. injection HT as ->. injection HA as ->. injection HP as ->.
    split; [done|]. split; [|done].
    unfold patch_all. apply map_ext. intros t. by rewrite patch_singleton.
  - left. cbn [value_of write_of] in HvalU.
    destruct (store_call dU qU (tick w1)) as [[v|e] w2]; cbn [fst snd] in *; [done|].
    injection HvalU as ->. destruct Hend as [-> ->].
    split; [|split; [done|]].
    + intros r Hr. apply key_mismatch. by apply (find_first_None _ _ Hf).
    + rewrite HcU, tick_committed. subst w1. rewrite HcT, tick_committed.
      apply begin_transaction_spec.
Qed.

(** ** Batches of reads *)

Lemma read_never_fails (k : Kind) (q : Query) (t : Table) :
  is_read q = true -> exists v, run_query k q t = fulfilled (v, None).
Proof. destruct q; simpl; try done; eauto. Qed.

Lemma eval_sequence_reads (ops : list PrismaPromise) (db : DB) :
  forallb (fun op => is_read (pp_query op)) ops = true ->
  exists vs,
    eval_sequence ops db = fulfilled (vs, db)
    /\ Forall2 (fun op v => direct_value op db = fulfilled v) ops vs.
Proof.
  induction ops as [|op ops IH]; simpl.
  - intros _. exists []. by split.
  - intros [Hop Hops]%andb_true_iff.
    destruct (read_never_fails (pp_model op) (pp_query op)
                (db_get (pp_model op) db) Hop) as [v Hv].
    destruct (IH Hops) as (vs & Hvs & Hall).
    exists (v :: vs). rewrite Hv. cbn [db_apply]. rewrite Hvs.
    split; [done|]. constructor; [|done]. unfold direct_value. by rewrite Hv.
Qed.

(** A batch of read queries ([findUnique], [findFirst], [findMany],
    [count]) never rejects and writes nothing: it fulfils with one value
    per query, each the value of its query on the committed rows. *)
Theorem batch_of_reads_is_harmless (ops : list PrismaPromise) (w : World) :
  forallb (fun op => is_read (pp_query op)) ops = true ->
  exists vs,
    fst (UnitOfWork.batch ops w) = fulfilled vs
    /\ committed (snd (UnitOfWork.batch ops w)) = committed w
    /\ length vs = length ops
    /\ forall (i : nat) (op : PrismaPromise),
         ops !! i = Some op ->
         exists v, vs !! i = Some v
                   /\ direct_value op (committed w) = fulfilled v.
Proof.
  intros Hreads.
  destruct (eval_sequence_reads ops (committed w) Hreads) as (vs & Heval & Hvs).
  pose proof (batch_eval ops w) as Hb. cbn zeta in Hb. rewrite Heval in Hb.
  destruct Hb as [Hout Hdb]. exists vs.
  split; [done|]. split; [done|]. split.
  - symmetry. by eapply Forall2_length.
  - intros i op Hi. by eapply Forall2_lookup_l in Hvs.
Qed.

Lemma select_all (t : Table) : select None t = t.
Proof. induction t as [|r t IH]; [done|]. unfold select in *. simpl. by rewrite IH. Qed.

(** [batchExample()] never fails and writes nothing: it returns the first
    ten users and the first ten refresh tokens in the order of their ids,
    fewer when the tables are shorter. *)
Theorem batchExample_lists_first_ten (w : World) :
  let out := UserRegistrationService.batchExample w in
  exists us ts,
    us ≡ₚ users (committed w) /\ ordered "id" asc us = true
    /\ ts ≡ₚ refreshTokens (committed w) /\ ordered "id" asc ts = true
    /\ fst out = fulfilled (JArray (List.firstn 10 us), JArray (List.firstn 10 ts))
    /\ committed (snd out) = committed w.
Proof.
  cbn zeta. unfold UserRegistrationService.batchExample.
  set (ops := [_; _]).
  pose proof (batch_eval ops w) as Hb. cbn zeta in Hb.
  subst ops. cbn [eval_sequence run_query pp_model pp_query db_apply db_get
                  fm_where fm_skip fm_take fm_orderBy order_of pages
                  skip_rows take_rows] in Hb.
  destruct Hb as [Hout Hdb].
  destruct (UnitOfWork.batch _ w) as [[xs|e] w']; cbn [fst snd] in *; [|done].
  injection Hout as ->. rewrite !select_all.
  exists (order_by (Some ("id", asc)) (users (committed w))),
         (order_by (Some ("id", asc)) (refreshTokens (committed w))).
  split; [apply order_by_perm|]. split; [apply order_by_ordered|].
  split; [apply order_by_perm|]. split; [apply order_by_ordered|].
  by split.
Qed.

(** [withCustomOptions(userData)] opens one transaction with a wait of at
    most 5000 ms, a time limit of 10000 ms and the Serializable isolation
    level, creates the user through it and closes it: committed, the user
    appended, when the creation is accepted; rolled back, nothing written,
    when the data breaks a unique column.  No other call is made.  When
    the transaction cannot start within the 5000 ms the call is rejected
    and nothing is written or called. *)
Theorem withCustomOptions_is_one_serializable_creation (userData : Record)
    (w : World) :
  let out := UserRegistrationService.withCustomOptions userData w in
  let tx := next_tx w in
  let options := Some {| maxWait := Some 5000; timeout := Some 10000;
                         isolationLevel := Some Serializable |} in
  let call := EvCall {| conn := scoped tx; model := user |} (Create userData) in
  if 5000 <? acquire_wait w
  then fst out = rejected Timeout
       /\ committed (snd out) = committed w
       /\ trace (snd out) = trace w
  else
    if conflicts user userData (users (committed w))
    then fst out = rejected ConstraintViolation
         /\ committed (snd out) = committed w
         /\ trace (snd out)
            = trace w ++ [EvBegin tx options; call None; EvRollback tx]
    else fst out = fulfilled (JRecord userData)
         /\ committed (snd out)
            = db_set user (users (committed w) ++ [userData]) (committed w)
         /\ trace (snd out)
            = trace w ++ [EvBegin tx options; call (Some (Insert userData));
                          EvCommit tx].
Proof.
  cbn zeta.
  unfold UserRegistrationService.withCustomOptions, UnitOfWork.executeWithOptions,
    transaction, UsersRepository.createUser.
  change (max_wait _) with 5000.
  destruct (5000 <? acquire_wait w); [done|].
  rewrite run_call_ret.
  unfold store_call, begin_transaction, pass_time.
  cbn -[conflicts changes_of Z.max].
  change (Z.max 0 0) with 0. change (10000 <=? 0) with false. cbv iota.
  cbn -[conflicts changes_of Z.max].
  rewrite Nat.eqb_refl.
  cbn -[conflicts].
  destruct (conflicts user userData (users (committed w)));
    cbn -[conflicts]; rewrite <- ?app_assoc; done.
Qed.
End RegistrationService.

Section RegistrationExamples.
#[local] Existing Instance binary_collation.

Lemma batch_of_reads_is_harmless_witness :
  let ops := [ {| pp_model := user; pp_query := Count None None |};
               {| pp_model := academy;
                  pp_query := FindFirst (WAnd [key "slug" (VStr "gym")]) |} ] in
  forallb (fun op => is_read (pp_query op)) ops = true
  /\ exists vs,
       fst (UnitOfWork.batch ops world_with_plan) = fulfilled vs
       /\ committed (snd (UnitOfWork.batch ops world_with_plan))
          = committed world_with_plan
       /\ length vs = length ops
       /\ forall (i : nat) (op : PrismaPromise),
            ops !! i = Some op ->
            exists v, vs !! i = Some v
                      /\ direct_value op (committed world_with_plan) = fulfilled v.
Proof.
  cbn zeta. split; [reflexivity|].
  apply batch_of_reads_is_harmless. reflexivity.
Defined.

(** The two listings of [batchExample] follow the ids, whatever order the
    rows were created in. *)
Example batchExample_follows_the_ids :
  let w := snd (run (UsersRepository.createUser alice None)
                  (snd (run (UsersRepository.createUser bob None) fresh_world))) in
  users (committed w) = [bob; alice]
  /\ fst (UserRegistrationService.batchExample w)
     = fulfilled (JArray [alice; bob], JArray []).
Proof. vm_compute. by split. Qed.
End RegistrationExamples.

(** ** Password strategy *)

Lemma test_range_spec (lo hi : nat) (s : string) :
  test_range lo hi s = true <->
  exists c, In c (code_units s) /\ (lo <= c <= hi)%nat.
Proof.
  unfold test_range. rewrite existsb_exists. split.
  - intros (c & Hin & Hc). exists c. split; [done|].
    apply andb_true_iff in Hc as [H1 H2].
    apply Nat.leb_le in H1, H2. lia.
  - intros (c & Hin & Hc). exists c. split; [done|].
    apply andb_true_iff. split; apply Nat.leb_le; lia.
Qed.

(** [validate(password)] accepts exactly the passwords of at least eight
    code units that have an uppercase letter, a lowercase letter and a
    digit; it is valid exactly when it reports no error, and each of the
    four messages is reported exactly when its rule is broken. *)
Theorem validate_accepts_exactly_strong_passwords (password : string) :
  let v := PasswordStrategy.validate password in
  let has := fun lo hi : nat =>
    exists c, In c (code_units password) /\ (lo <= c <= hi)%nat in
  (PasswordStrategy.valid v = true <->
     (8 <= String.length password)%nat /\ has 65%nat 90%nat
     /\ has 97%nat 122%nat /\ has 48%nat 57%nat)
  /\ (PasswordStrategy.valid v = true <-> PasswordStrategy.errors v = [])
  /\ (In "Password must be at least 8 characters long" (PasswordStrategy.errors v)
      <-> (String.length password < 8)%nat)
  /\ (In "Password must contain at least 1 uppercase letter"
        (PasswordStrategy.errors v) <-> ~ has 65%nat 90%nat)
  /\ (In "Password must contain at least 1 lowercase letter"
        (PasswordStrategy.errors v) <-> ~ has 97%nat 122%nat)
  /\ (In "Password must contain at least 1 number"
        (PasswordStrategy.errors v) <-> ~ has 48%nat 57%nat).
Proof.
  cbn zeta. unfold PasswordStrategy.validate.
  rewrite <- !test_range_spec.
  destruct (Nat.ltb (String.length password) 8) eqn:Hlen;
    [apply Nat.ltb_lt in Hlen | apply Nat.ltb_ge in Hlen];
    destruct (test_range 65 90 password), (test_range 97 122 password),
             (test_range 48 57 password);
    cbn [negb app PasswordStrategy.valid PasswordStrategy.errors length Nat.eqb In];
    repeat split; intros; try done; try lia;
    repeat match goal with
           | H : _ /\ _ |- _ => destruct H
           | H : _ \/ _ |- _ => destruct H
           | H : False |- _ => destruct H
           end;
    try done; try lia; try discriminate; auto 6.
Qed.

(** ** Token strategy *)

(** The expiry of access tokens falls back to 900 seconds whenever the
    configured value is unset, empty, or does not end in [s], [m], [h] or
    [d], a bare number included. *)
Theorem access_token_expiry_falls_back_to_900 (config : string -> option string) :
  let configured := config "JWT_EXPIRES_IN" in
  (configured = None \/ configured = Some ""
   \/ exists v, configured = Some v /\ v <> ""
                /\ last_unit v <> "s" /\ last_unit v <> "m"
                /\ last_unit v <> "h" /\ last_unit v <> "d") ->
  TokenStrategy.getAccessTokenExpirySeconds config = Num 900.
Proof.
  cbn zeta. unfold TokenStrategy.getAccessTokenExpirySeconds.
  intros [-> | [-> | (v & -> & Hv & Hs & Hm & Hh & Hd)]]; try reflexivity.
  unfold or_else. rewrite bool_decide_eq_false_2 by done.
  unfold TokenStrategy.parseTimeToSeconds.
  by rewrite !bool_decide_eq_false_2.
Qed.

Lemma access_token_expiry_falls_back_to_900_witness :
  let config := fun key : string =>
    if bool_decide (key = "JWT_EXPIRES_IN") then Some "3600" else None in
  TokenStrategy.getAccessTokenExpirySeconds config = Num 900.
Proof.
  cbn zeta. apply access_token_expiry_falls_back_to_900.
  right. right. exists "3600". by repeat split.
Defined.

(** The expiry of refresh tokens is seven days after the time read when
    the configured value is unset, empty, or the bare letter [d]. *)
Theorem refresh_token_expiry_defaults_to_seven_days
    (config : string -> option string) (now : Z) :
  let configured := config "REFRESH_TOKEN_EXPIRES_IN" in
  (configured = None \/ configured = Some "" \/ configured = Some "d") ->
  0 <= now <= 8640000000000000 - 604800000 ->
  TokenStrategy.getRefreshTokenExpiry config now = DateAt (now + 604800000).
Proof.
  cbn zeta. unfold TokenStrategy.getRefreshTokenExpiry.
  intros Hc Hnow.
  assert (Hdays : parseInt10
            (or_else (replace_d <$> config "REFRESH_TOKEN_EXPIRES_IN") "7")
          = Num 7).
  { destruct Hc as [-> | [-> | ->]]; reflexivity. }
  rewrite Hdays.
  change (js_mul (js_mul (js_mul (js_mul (Num 7) (Num 24)) (Num 60)) (Num 60))
            (Num 1000)) with (Num 604800000).
  unfold safe. rewrite (proj2 (Z.leb_le _ _)) by (rewrite Z.abs_eq; lia).
  cbn [js_add]. unfold safe.
  rewrite (proj2 (Z.leb_le _ _)) by (rewrite Z.abs_eq; lia).
  cbn [new_Date]. by rewrite (proj2 (Z.leb_le _ _)) by (rewrite Z.abs_eq; lia).
Qed.

Lemma refresh_token_expiry_defaults_to_seven_days_witness :
  let config := fun key : string =>
    if bool_decide (key = "REFRESH_TOKEN_EXPIRES_IN") then Some "d" else None in
  TokenStrategy.getRefreshTokenExpiry config 1000 = DateAt (1000 + 604800000).
Proof.
  cbn zeta. apply refresh_token_expiry_defaults_to_seven_days.
  - right. right. reflexivity.
  - lia.
Defined.

(** Configured values in the documented format are read as written. *)
Example token_expiry_examples :
  let config := fun key : string =>
    if bool_decide (key = "JWT_EXPIRES_IN") then Some "2h"
    else if bool_decide (key = "REFRESH_TOKEN_EXPIRES_IN") then Some "30d"
    else None in
  TokenStrategy.getAccessTokenExpirySeconds config = Num 7200
  /\ TokenStrategy.getRefreshTokenExpiry config 0 = DateAt (30 * 86400000)
  /\ TokenStrategy.parseTimeToSeconds "15m" = Num 900
  /\ TokenStrategy.parseTimeToSeconds "m" = NaN
  /\ TokenStrategy.parseTimeToSeconds "" = Num 900.
Proof. vm_compute. by repeat split. Qed.

(** ** Services *)

Section Services.
Context `{Collation}.

Lemma wait_for_locks_clock (d : Delegate) (q : Query) (w : World) :
  clock w <= clock (wait_for_locks d q w).
Proof.
  unfold wait_for_locks. destruct (blocked d q w); [apply pass_time_clock | lia].
Qed.

(** [await] of one call on the ambient connection. *)
Lemma await_ambient (k : Kind) (q : Query) (f : JsVal -> JsVal) (env : Env) :
  let d := {| conn := ambient; model := k |} in
  let res := run_query k q (db_get k (committed (world env))) in
  exists w',
    await (Call d q (fun v => Ret (f v))) env
    = (match value_of res with
       | fulfilled v => returned (f v)
       | rejected e => threw (Store e)
       end, {| world := w'; logs := logs env |})
    /\ committed w' = db_apply k (write_of res) (committed (world env))
    /\ trace w' = trace (world env) ++ [EvCall d q (write_of res)]
    /\ clock (world env) + 1 <= clock w'.
Proof.
  cbn zeta. unfold await. rewrite run_call_map. unfold store_call. cbn [conn model].
  cbn zeta.
  destruct (wait_for_locks_keeps {| conn := ambient; model := k |} q (world env))
    as (Hc & Ht & _).
  pose proof (wait_for_locks_clock {| conn := ambient; model := k |} q (world env)).
  rewrite Hc.
  destruct (run_query k q (db_get k (committed (world env)))) as [[v m]|e];
    cbn [fst snd value_of write_of]; eexists; (split; [reflexivity|]);
    simpl; rewrite ?Hc, ?Ht; repeat split; lia.
Qed.

Lemma await_ambient_ret (k : Kind) (q : Query) (env : Env) :
  let d := {| conn := ambient; model := k |} in
  let res := run_query k q (db_get k (committed (world env))) in
  exists w',
    await (Call d q Ret) env
    = (match value_of res with
       | fulfilled v => returned v
       | rejected e => threw (Store e)
       end, {| world := w'; logs := logs env |})
    /\ committed w' = db_apply k (write_of res) (committed (world env))
    /\ trace w' = trace (world env) ++ [EvCall d q (write_of res)]
    /\ clock (world env) + 1 <= clock w'.
Proof.
  cbn zeta.
  destruct (await_ambient k q (fun v => v) env) as (w' & Ha & Hrest).
  exists w'. split; [exact Ha | exact Hrest].
Qed.

(** [JwtStrategy.validate(payload)] reads and never writes or logs.  It
    throws Unauthorized when no user has the id [payload.sub] or when the
    user found is soft deleted, and otherwise returns the id, email and
    name of that user and nothing else of the row. *)
Theorem jwt_validate_admits_live_users_only (sub : string) (env : Env) :
  let out := JwtStrategy.validate sub env in
  let t := users (committed (world env)) in
  let unauthorized :=
    threw (Http (UnauthorizedException "User not found or inactive")) in
  committed (world (snd out)) = committed (world env)
  /\ logs (snd out) = logs env
  /\ (((forall r, In r t -> field r "id" <> VStr sub) /\ fst out = unauthorized)
      \/ exists t1 r t2,
           t = t1 ++ r :: t2
           /\ (forall r0, In r0 t1 -> field r0 "id" <> VStr sub)
           /\ field r "id" = VStr sub
           /\ fst out = if truthy (field r "deletedAt") then unauthorized
                        else returned {| u_id := VStr sub;
                                         u_email := field r "email";
                                         u_name := field r "name" |}).
Proof.
  cbn zeta. unfold JwtStrategy.validate, sbind.
  change (BaseRepository.findById UsersRepository.self sub None)
    with (Call {| conn := ambient; model := user |}
            (FindUnique (WAnd [key "id" (VStr sub)])) Ret).
  destruct (await_ambient_ret user (FindUnique (WAnd [key "id" (VStr sub)])) env)
    as (w' & -> & Hc & _).
  cbn [run_query value_of write_of db_apply db_get] in *.
  destruct (find_first (WAnd [key "id" (VStr sub)]) (users (committed (world env))))
    as [r|] eqn:Hf; cbn [null_or_record js_truthy negb orb js_field].
  - destruct (first_match_split _ _ _ Hf) as (t1 & t2 & Ht & Hno & Hm & _).
    apply matches_key in Hm.
    assert (Hout : forall o : Outcome UserView * Env,
              o = (if truthy (field r "deletedAt")
                   then sthrow (UnauthorizedException "User not found or inactive")
                   else sret (view_of (JRecord r)))
                    {| world := w'; logs := logs env |} ->
              committed (world (snd o)) = committed (world env)
              /\ logs (snd o) = logs env
              /\ fst o = if truthy (field r "deletedAt")
                         then threw (Http (UnauthorizedException
                                             "User not found or inactive"))
                         else returned {| u_id := VStr sub;
                                          u_email := field r "email";
                                          u_name := field r "name" |}).
    { intros o ->. destruct (truthy (field r "deletedAt")); cbn; [done|].
      unfold view_of. cbn [js_field]. by rewrite Hm. }
    destruct (Hout _ eq_refl) as (H1 & H2 & H3).
    split; [done|]. split; [done|]. right. exists t1, r, t2.
    split; [done|]. split; [|done].
    intros r0 Hr0. by apply key_mismatch, Hno.
  - cbn. split; [done|]. split; [done|]. left. split; [|done].
    intros r Hr. apply key_mismatch. by apply (find_first_None _ _ Hf).
Qed.

Lemma sbind_log {B : Type} (l : LogLevel) (msg : list Fragment) (ctx : string)
    (k : unit -> Service B) (env : Env) :
  sbind (log_ l msg ctx) k env
  = k tt {| world := world env;
            logs := logs env ++ [{| level := l; message := msg; context := ctx |}] |}.
Proof. reflexivity. Qed.

Lemma sbind_returned {A B : Type} (m : Service A) (k : A -> Service B)
    (env env' : Env) (a : A) :
  m env = (returned a, env') -> sbind m k env = k a env'.
Proof. unfold sbind. by intros ->. Qed.

Lemma sbind_threw {A B : Type} (m : Service A) (k : A -> Service B)
    (env env' : Env) (f : Failure) :
  m env = (threw f, env') -> sbind m k env = (threw f, env').
Proof. unfold sbind. by intros ->. Qed.

Lemma find_first_some_iff (w : Where) (t : Table) :
  (exists r, In r t /\ matches w r = true) -> exists r, find_first w t = Some r.
Proof.
  intros (r & Hin & Hm).
  destruct (find_first w t) as [r'|] eqn:Hf; [by exists r'|].
  apply (find_first_None _ _ Hf) in Hin. congruence.
Qed.

(** [register] rejects before it writes.  A password the strategy does
    not accept is answered with BadRequest carrying the validation
    messages, and no repository is called at all.  With an acceptable
    password, an email that some user already has, soft deleted or not,
    is answered with Conflict after the one lookup, and nothing is
    written. *)
Theorem register_rejects_before_writing (hash : string -> string)
    (generateTokenPair : JsVal -> TokenPair) (getRefreshTokenExpiry : Z -> Value)
    (with_defaults : Kind -> gmap string Value -> gmap string Value)
    (email_ name_ password_ : string) (phone : option string) (env : Env) :
  let out := AuthService.register hash generateTokenPair getRefreshTokenExpiry
               with_defaults email_ name_ password_ phone env in
  let validation := PasswordStrategy.validate password_ in
  (PasswordStrategy.valid validation = false ->
     fst out = threw (Http (BadRequestException (PasswordStrategy.errors validation)))
     /\ world (snd out) = world env)
  /\ (PasswordStrategy.valid validation = true ->
      (exists r, In r (users (committed (world env)))
                 /\ field r "email" = VStr email_) ->
      fst out = threw (Http (ConflictException
                               ("Email j" ++ a_acute ++ " cadastrado")%string))
      /\ committed (world (snd out)) = committed (world env)
      /\ trace (world (snd out))
         = trace (world env)
           ++ [EvCall {| conn := ambient; model := user |}
                 (FindUnique (WAnd [key "email" (VStr email_)])) None]).
Proof.
  cbn zeta. unfold AuthService.register. split.
  - intros Hv. rewrite Hv. by cbn.
  - intros Hv Hex. rewrite Hv. cbn [negb]. rewrite sbind_log.
    change (UsersRepository.findByEmail email_ None)
      with (Call {| conn := ambient; model := user |}
              (FindUnique (WAnd [key "email" (VStr email_)])) Ret).
    set (env1 := {| world := world env; logs := _ |}).
    destruct (await_ambient_ret user (FindUnique (WAnd [key "email" (VStr email_)]))
                env1) as (w' & Ha & Hc & Ht & _).
    cbn [run_query] in Ha, Hc, Ht.
    destruct (find_first_some_iff (WAnd [key "email" (VStr email_)])
                (users (committed (world env)))) as [r Hf].
    { destruct Hex as (r & Hin & Hr). exists r. split; [done|].
      by apply matches_key. }
    cbn [db_get world env1] in Ha, Hc, Ht. rewrite Hf in Ha, Hc, Ht.
    cbn [value_of write_of null_or_record db_apply] in Ha, Hc, Ht.
    rewrite (sbind_returned _ _ _ _ _ Ha). cbn [js_truthy].
    rewrite sbind_log. by cbn.
Qed.


Lemma db_apply_insert (k : Kind) (row : Record) (db : DB) :
  db_get k (db_apply k (Some (Insert row)) db) = db_get k db ++ [row].
Proof. apply db_get_apply_eq. Qed.

(** [makeTokens(user)]: one token row for the user, or the constraint
    violation of its creation. *)
Lemma makeTokens_spec (generateTokenPair : JsVal -> TokenPair)
    (getRefreshTokenExpiry : Z -> Value)
    (with_defaults : Kind -> gmap string Value -> gmap string Value)
    (user_ : JsVal) (env : Env) :
  let pair := generateTokenPair user_ in
  let trow := with_defaults userRefreshToken
                {[ "userId" := js_field user_ "id";
                   "token" := VStr (refreshToken pair);
                   "expiresAt" := getRefreshTokenExpiry (clock (world env)) ]} in
  let db := committed (world env) in
  let out := AuthService.makeTokens generateTokenPair getRefreshTokenExpiry
               with_defaults user_ env in
  logs (snd out) = logs env
  /\ if conflicts userRefreshToken trow (refreshTokens db)
     then fst out = threw (Store ConstraintViolation)
          /\ committed (world (snd out)) = db
     else fst out = returned {| r_accessToken := accessToken pair;
                                r_refreshToken := refreshToken pair;
                                r_expiresIn := expiresIn pair;
                                r_user := view_of user_ |}
          /\ committed (world (snd out))
             = db_apply userRefreshToken (Some (Insert trow)) db.
Proof.
  cbn zeta. unfold AuthService.makeTokens.
  rewrite (sbind_returned date_now _ env
             {| world := tick (world env); logs := logs env |} (clock (world env)))
    by reflexivity.
  change (RefreshTokenRepository.createToken ?d None)
    with (Call {| conn := ambient; model := userRefreshToken |} (Create d) Ret).
  set (trow := with_defaults userRefreshToken _).
  destruct (await_ambient_ret userRefreshToken (Create trow)
              {| world := tick (world env); logs := logs env |})
    as (w' & Ha & Hc & _).
  cbn [run_query world tick_committed db_get] in Ha, Hc.
  rewrite tick_committed in Ha, Hc. cbn [db_get] in Ha, Hc.
  destruct (conflicts userRefreshToken trow (refreshTokens (committed (world env))));
    cbn [value_of write_of db_apply] in Ha, Hc.
  - rewrite (sbind_threw _ _ _ _ _ Ha). by cbn.
  - rewrite (sbind_returned _ _ _ _ _ Ha). by cbn.
Qed.

(** [register] with an acceptable password and a free email creates the
    user with the hash of the password in the [password] column, then the
    refresh token of the user, and returns the token pair with the id,
    email and name of the user.  The two creations are separate: when the
    token cannot be stored the call fails and the user stays created. *)
Theorem register_stores_the_hash (hash : string -> string)
    (generateTokenPair : JsVal -> TokenPair) (getRefreshTokenExpiry : Z -> Value)
    (with_defaults : Kind -> gmap string Value -> gmap string Value)
    (email_ name_ password_ : string) (phone : option string) (env : Env) :
  let out := AuthService.register hash generateTokenPair getRefreshTokenExpiry
               with_defaults email_ name_ password_ phone env in
  let db := committed (world env) in
  let urow := with_defaults user
                (AuthService.user_data email_ name_ (hash password_) phone) in
  let pair := generateTokenPair (JRecord urow) in
  let trow := fun now : Z =>
    with_defaults userRefreshToken
      {[ "userId" := field urow "id"; "token" := VStr (refreshToken pair);
         "expiresAt" := getRefreshTokenExpiry now ]} in
  PasswordStrategy.valid (PasswordStrategy.validate password_) = true ->
  (forall r, In r (users db) -> field r "email" <> VStr email_) ->
  conflicts user urow (users db) = false ->
  exists now,
    clock (world env) <= now
    /\ users (committed (world (snd out))) = users db ++ [urow]
    /\ academies (committed (world (snd out))) = academies db
    /\ plans (committed (world (snd out))) = plans db
    /\ if conflicts userRefreshToken (trow now) (refreshTokens db)
       then fst out = threw (Store ConstraintViolation)
            /\ refreshTokens (committed (world (snd out))) = refreshTokens db
       else fst out = returned {| r_accessToken := accessToken pair;
                                  r_refreshToken := refreshToken pair;
                                  r_expiresIn := expiresIn pair;
                                  r_user := view_of (JRecord urow) |}
            /\ refreshTokens (committed (world (snd out)))
               = refreshTokens db ++ [trow now].
Proof.
  cbn zeta. intros Hv Hfree Hok. unfold AuthService.register.
  rewrite Hv. cbn [negb]. rewrite sbind_log.
  change (UsersRepository.findByEmail email_ None)
    with (Call {| conn := ambient; model := user |}
            (FindUnique (WAnd [key "email" (VStr email_)])) Ret).
  set (env1 := {| world := world env; logs := _ |}).
  destruct (await_ambient_ret user (FindUnique (WAnd [key "email" (VStr email_)]))
              env1) as (w1 & Ha & Hc1 & _ & Hk1).
  cbn [run_query db_get world env1] in Ha, Hc1, Hk1.
  assert (Hnone : find_first (WAnd [key "email" (VStr email_)])
                    (users (committed (world env))) = None).
  { apply find_first_none_iff. intros r Hr. by apply key_mismatch, Hfree. }
  rewrite Hnone in Ha, Hc1.
  cbn [value_of write_of null_or_record db_apply] in Ha, Hc1.
  rewrite (sbind_returned _ _ _ _ _ Ha). cbn [js_truthy].
  set (urow := with_defaults user _) in *.
  change (UsersRepository.createUser urow None)
    with (Call {| conn := ambient; model := user |} (Create urow) Ret).
  destruct (await_ambient_ret user (Create urow) {| world := w1; logs := logs env1 |})
    as (w2 & Hb & Hc2 & _ & Hk2).
  cbn [run_query db_get world] in Hb, Hc2, Hk2.
  rewrite Hc1 in Hb, Hc2. cbn [db_get] in Hb, Hc2. rewrite Hok in Hb, Hc2.
  cbn [value_of write_of] in Hb, Hc2.
  rewrite (sbind_returned _ _ _ _ _ Hb), sbind_log.
  match goal with
  | |- context [AuthService.makeTokens _ _ _ _ ?e] => set (env3 := e)
  end.
  destruct (makeTokens_spec generateTokenPair getRefreshTokenExpiry with_defaults
              (JRecord urow) env3) as [_ Hm].
  cbn [js_field world env3] in Hm.
  exists (clock w2). split; [lia|].
  rewrite Hc2 in Hm. cbn [db_apply db_get db_set refreshTokens apply_mutation] in Hm.
  destruct (conflicts userRefreshToken _ (refreshTokens (committed (world env))));
    destruct Hm as [-> ->]; by cbn.
Qed.


(** [login] answers an unknown email, a soft-deleted user and a wrong
    password with the same Unauthorized exception, after one lookup and
    without writing anything. *)
Theorem login_rejects_alike (compare : string -> Value -> bool)
    (generateTokenPair : JsVal -> TokenPair) (getRefreshTokenExpiry : Z -> Value)
    (with_defaults : Kind -> gmap string Value -> gmap string Value)
    (email_ password_ : string) (env : Env) :
  let out := AuthService.login compare generateTokenPair getRefreshTokenExpiry
               with_defaults email_ password_ env in
  let t := users (committed (world env)) in
  (forall t1 r t2,
     t = t1 ++ r :: t2 ->
     (forall r0, In r0 t1 -> field r0 "email" <> VStr email_) ->
     field r "email" = VStr email_ ->
     truthy (field r "deletedAt") = true
     \/ compare password_ (field r "password") = false) ->
  fst out = threw (Http (UnauthorizedException
                           ("Credenciais inv" ++ a_acute ++ "lidas")%string))
  /\ committed (world (snd out)) = committed (world env)
  /\ trace (world (snd out))
     = trace (world env)
       ++ [EvCall {| conn := ambient; model := user |}
             (FindUnique (WAnd [key "email" (VStr email_)])) None].
Proof.
  cbn zeta. intros Hbad. unfold AuthService.login. rewrite sbind_log.
  change (UsersRepository.findByEmail email_ None)
    with (Call {| conn := ambient; model := user |}
            (FindUnique (WAnd [key "email" (VStr email_)])) Ret).
  set (env1 := {| world := world env; logs := _ |}).
  destruct (await_ambient_ret user (FindUnique (WAnd [key "email" (VStr email_)]))
              env1) as (w1 & Ha & Hc & Ht & _).
  cbn [run_query db_get world env1] in Ha, Hc, Ht.
  destruct (find_first (WAnd [key "email" (VStr email_)])
              (users (committed (world env)))) as [r|] eqn:Hf;
    cbn [value_of write_of null_or_record db_apply] in Ha, Hc, Ht;
    rewrite (sbind_returned _ _ _ _ _ Ha); cbn [js_truthy negb orb js_field].
  - destruct (first_match_split _ _ _ Hf) as (t1 & t2 & Hsplit & Hno & Hm & _).
    apply matches_key in Hm.
    destruct (Hbad t1 r t2 Hsplit) as [Hdel | Hpw]; [|done|..].
    { intros r0 Hr0. by apply key_mismatch, Hno. }
    + rewrite Hdel. rewrite sbind_log. by cbn.
    + destruct (truthy (field r "deletedAt")); rewrite ?Hpw; cbn [negb];
        rewrite sbind_log; by cbn.
  - rewrite sbind_log. by cbn.
Qed.


(** [login] of a live user with the right password writes one refresh
    token row carrying the id of the user, leaves the users as they are,
    and returns the token pair with the id, email and name of the user. *)
Theorem login_issues_one_token (compare : string -> Value -> bool)
    (generateTokenPair : JsVal -> TokenPair) (getRefreshTokenExpiry : Z -> Value)
    (with_defaults : Kind -> gmap string Value -> gmap string Value)
    (email_ password_ : string) (env : Env) (t1 t2 : Table) (r : Record) :
  let out := AuthService.login compare generateTokenPair getRefreshTokenExpiry
               with_defaults email_ password_ env in
  let db := committed (world env) in
  let pair := generateTokenPair (JRecord r) in
  let trow := fun now : Z =>
    with_defaults userRefreshToken
      {[ "userId" := field r "id"; "token" := VStr (refreshToken pair);
         "expiresAt" := getRefreshTokenExpiry now ]} in
  users db = t1 ++ r :: t2 ->
  (forall r0, In r0 t1 -> field r0 "email" <> VStr email_) ->
  field r "email" = VStr email_ ->
  truthy (field r "deletedAt") = false ->
  compare password_ (field r "password") = true ->
  exists now,
    clock (world env) <= now
    /\ users (committed (world (snd out))) = users db
    /\ if conflicts userRefreshToken (trow now) (refreshTokens db)
       then fst out = threw (Store ConstraintViolation)
            /\ refreshTokens (committed (world (snd out))) = refreshTokens db
       else fst out = returned {| r_accessToken := accessToken pair;
                                  r_refreshToken := refreshToken pair;
                                  r_expiresIn := expiresIn pair;
                                  r_user := view_of (JRecord r) |}
            /\ refreshTokens (committed (world (snd out)))
               = refreshTokens db ++ [trow now].
Proof.
  cbn zeta. intros Hsplit Hno Hemail Hlive Hpw. unfold AuthService.login.
  rewrite sbind_log.
  change (UsersRepository.findByEmail email_ None)
    with (Call {| conn := ambient; model := user |}
            (FindUnique (WAnd [key "email" (VStr email_)])) Ret).
  set (env1 := {| world := world env; logs := _ |}).
  destruct (await_ambient_ret user (FindUnique (WAnd [key "email" (VStr email_)]))
              env1) as (w1 & Ha & Hc & _ & Hk).
  cbn [run_query db_get world env1] in Ha, Hc, Hk.
  assert (Hf : find_first (WAnd [key "email" (VStr email_)])
                 (users (committed (world env))) = Some r).
  { rewrite Hsplit, find_first_app.
    - simpl. unfold value_eqb. by rewrite Hemail, bool_decide_eq_true_2.
    - intros r0 Hr0. by apply key_mismatch, Hno. }
  rewrite Hf in Ha, Hc.
  cbn [value_of write_of null_or_record db_apply] in Ha, Hc.
  rewrite (sbind_returned _ _ _ _ _ Ha). cbn [js_truthy negb orb js_field].
  rewrite Hlive, Hpw. cbn [negb]. rewrite sbind_log.
  match goal with
  | |- context [AuthService.makeTokens _ _ _ _ ?e] => set (env3 := e)
  end.
  destruct (makeTokens_spec generateTokenPair getRefreshTokenExpiry with_defaults
              (JRecord r) env3) as [_ Hm].
  cbn [js_field world env3] in Hm.
  exists (clock w1). split; [lia|].
  rewrite Hc in Hm. cbn [db_apply db_get db_set refreshTokens apply_mutation] in Hm.
  destruct (conflicts userRefreshToken _ (refreshTokens (committed (world env))));
    destruct Hm as [-> ->]; by cbn.
Qed.


(** [logout(userId, token)] revokes the given refresh token of the user,
    and with an empty token every refresh token of the user that is not
    revoked yet; it leaves the users alone and never fails. *)
Theorem logout_revokes_the_token (userId token : string) (env : Env) :
  let out := AuthService.logout userId token env in
  let db := committed (world env) in
  let hit := fun r : Record =>
    bool_decide (field r "userId" = VStr userId)
    && (bool_decide (token = "") || bool_decide (field r "token" = VStr token))
    && bool_decide (field r "revokedAt" = VNull) in
  fst out = returned tt
  /\ users (committed (world (snd out))) = users db
  /\ exists now,
       clock (world env) <= now
       /\ refreshTokens (committed (world (snd out)))
          = List.map (fun r => if hit r then <[ "revokedAt" := VDate now ]> r else r)
              (refreshTokens db).
Proof.
  cbn zeta. unfold AuthService.logout. rewrite sbind_log.
  set (env1 := {| world := world env; logs := _ |}).
  set (wh := WAnd ([key "userId" (VStr userId)] ++ optional_key "token" (Some token)
                   ++ [key "revokedAt" VNull])).
  assert (Hrun : exists w',
    await (RefreshTokenRepository.revokeUserTokens userId (Some token) None) env1
    = (returned (JNumber (size_of (select (Some wh) (refreshTokens (committed (world env)))))),
       {| world := w'; logs := logs env1 |})
    /\ committed w'
       = db_apply userRefreshToken
           (Some (PatchAll wh {[ "revokedAt" := VDate (clock (world env)) ]}))
           (committed (world env))).
  { unfold RefreshTokenRepository.revokeUserTokens, await. rewrite run_NewDate.
    destruct (await_ambient userRefreshToken
                (UpdateMany wh {[ "revokedAt" := VDate (clock (world env)) ]})
                js_count {| world := tick (world env); logs := logs env1 |})
      as (w' & Ha & Hc & _).
    unfold await in Ha. cbn [world logs env1] in Ha |- *.
    exists w'. split; [exact Ha | exact Hc]. }
  destruct Hrun as (w' & Ha & Hc).
  rewrite (sbind_returned _ _ _ _ _ Ha). cbn [sret fst snd world].
  split; [done|]. rewrite Hc. split; [done|].
  exists (clock (world env)). split; [lia|].
  cbn [db_apply db_get db_set refreshTokens apply_mutation]. unfold patch_all.
  apply map_ext. intros r. rewrite patch_singleton.
  assert (Hm : matches wh r
               = bool_decide (field r "userId" = VStr userId)
                 && (bool_decide (token = "")
                     || bool_decide (field r "token" = VStr token))
                 && bool_decide (field r "revokedAt" = VNull)).
  { subst wh. unfold optional_key. rewrite matches_WAnd.
    destruct (bool_decide (token = "")); simpl; unfold value_eqb;
      rewrite ?andb_true_r; [done|]. by rewrite andb_assoc. }
  by rewrite Hm.
Qed.
End Services.

Section ServicesExamples.
#[local] Existing Instance binary_collation.

Lemma register_rejects_before_writing_witness :
  let env := {| world := snd (run (UsersRepository.createUser alice None) fresh_world);
                logs := [] |} in
  let out := AuthService.register (fun p => p)
               (fun _ => {| accessToken := "jwt"; refreshToken := "uuid";
                            expiresIn := Num 900 |})
               (fun now => VDate now) (fun _ row => row)
               "alice@x.com" "Alice" "Secret123" None env in
  PasswordStrategy.valid (PasswordStrategy.validate "Secret123") = true
  /\ (exists r, In r (users (committed (world env)))
                /\ field r "email" = VStr "alice@x.com")
  /\ committed (world (snd out)) = committed (world env).
Proof.
  cbn zeta. split; [reflexivity|]. split.
  { exists alice. split; [by left | reflexivity]. }
  refine (proj1 (proj2 (proj2 (register_rejects_before_writing (fun p => p)
            (fun _ => {| accessToken := "jwt"; refreshToken := "uuid";
                         expiresIn := Num 900 |})
            (fun now => VDate now) (fun _ row => row)
            "alice@x.com" "Alice" "Secret123" None
            {| world := snd (run (UsersRepository.createUser alice None) fresh_world);
               logs := [] |})
          eq_refl _))).
  exists alice. split; [by left | reflexivity].
Defined.

Lemma register_stores_the_hash_witness :
  let hash := fun p : string => ("bcrypt:" ++ p)%string in
  let pair := fun _ : JsVal => {| accessToken := "jwt"; refreshToken := "uuid";
                                   expiresIn := Num 900 |} in
  let env := {| world := fresh_world; logs := [] |} in
  let out := AuthService.register hash pair (fun now => VDate now) (fun _ row => row)
               "bob@x.com" "Bob" "Secret123" None env in
  PasswordStrategy.valid (PasswordStrategy.validate "Secret123") = true
  /\ exists now,
       clock (world env) <= now
       /\ users (committed (world (snd out)))
          = [AuthService.user_data "bob@x.com" "Bob" "bcrypt:Secret123" None].
Proof.
  cbn zeta. split; [reflexivity|].
  destruct (register_stores_the_hash
              (fun p : string => ("bcrypt:" ++ p)%string)
              (fun _ : JsVal => {| accessToken := "jwt"; refreshToken := "uuid";
                                    expiresIn := Num 900 |})
              (fun now => VDate now) (fun _ row => row)
              "bob@x.com" "Bob" "Secret123" None
              {| world := fresh_world; logs := [] |} eq_refl)
    as (now & Hnow & Hu & _).
  - intros r [].
  - reflexivity.
  - exists now. split; [exact Hnow | exact Hu].
Defined.

Lemma login_rejects_alike_witness :
  let pair := fun _ : JsVal => {| accessToken := "jwt"; refreshToken := "uuid";
                                   expiresIn := Num 900 |} in
  let env := {| world := set_committed (db_set user [alice] empty_db) fresh_world;
                logs := [] |} in
  fst (AuthService.login (fun _ _ => false) pair (fun now => VDate now)
         (fun _ row => row) "alice@x.com" "Secret123" env)
  = threw (Http (UnauthorizedException
                   ("Credenciais inv" ++ a_acute ++ "lidas")%string)).
Proof.
  cbn zeta.
  refine (proj1 (login_rejects_alike (fun _ _ => false)
            (fun _ : JsVal => {| accessToken := "jwt"; refreshToken := "uuid";
                                  expiresIn := Num 900 |})
            (fun now => VDate now) (fun _ row => row) "alice@x.com" "Secret123"
            {| world := set_committed (db_set user [alice] empty_db) fresh_world;
               logs := [] |} _)).
  intros t1 r t2 _ _ _. by right.
Defined.

Lemma login_issues_one_token_witness :
  let pair := fun _ : JsVal => {| accessToken := "jwt"; refreshToken := "uuid";
                                   expiresIn := Num 900 |} in
  let env := {| world := snd (run (UsersRepository.createUser alice None) fresh_world);
                logs := [] |} in
  let out := AuthService.login (fun _ _ => true) pair (fun now => VDate now)
               (fun _ row => row) "alice@x.com" "Secret123" env in
  users (committed (world env)) = [] ++ alice :: []
  /\ exists now,
       clock (world env) <= now
       /\ users (committed (world (snd out))) = users (committed (world env)).
Proof.
  cbn zeta. split; [reflexivity|].
  destruct (login_issues_one_token (fun _ _ => true)
              (fun _ : JsVal => {| accessToken := "jwt"; refreshToken := "uuid";
                                    expiresIn := Num 900 |})
              (fun now => VDate now) (fun _ row => row) "alice@x.com" "Secret123"
              {| world := snd (run (UsersRepository.createUser alice None) fresh_world);
                 logs := [] |} [] [] alice eq_refl)
    as (now & Hnow & Hu & _); try reflexivity.
  - intros r0 [].
  - exists now. split; [exact Hnow | exact Hu].
Defined.
End ServicesExamples.
